(** * The rotating logger of mochow-sdk-go (util/log/logger.go)

    A shallow embedding of the logger structure, its producer half
    (logging, Close, the setters), its backend writer goroutine and the
    file-rotation logic, together with the properties of the behaviour
    described for it. *)

From Stdlib Require Import ZArith Lia Ascii String.
From stdpp Require Import gmap strings list fin_maps.

Local Open Scope Z_scope.

(* String concatenation computes under simpl in this file. *)
#[local] Arguments String.append !s1 s2 : simpl nomatch.

(** ** Decimal rendering, as fmt.Sprintf("%d") and time.appendInt produce it *)

Module Decimal.

Definition digit_char (d : Z) : ascii := ascii_of_nat (48 + Z.to_nat d).

Definition digit_val (c : ascii) : Z := Z.of_nat (nat_of_ascii c) - 48.

(** Least significant digit first, accumulated to the front. *)
Fixpoint digits_go (fuel : nat) (n : Z) (acc : string) : string :=
  match fuel with
  | O => acc
  | S f =>
      let acc' := String (digit_char (n mod 10)) acc in
      if n <? 10 then acc' else digits_go f (n / 10) acc'
  end.

(** Unsigned decimal of a non-negative integer. *)
Definition utoa (n : Z) : string :=
  digits_go (S (Z.to_nat (Z.log2 n))) n EmptyString.

(** [%d] of a signed integer. *)
Definition itoa (n : Z) : string :=
  if n <? 0 then String "-"%char (utoa (- n)) else utoa n.

Fixpoint atoi_go (s : string) (acc : Z) : Z :=
  match s with
  | EmptyString => acc
  | String c r => atoi_go r (10 * acc + digit_val c)
  end.

(** strconv.Atoi on a string of decimal digits. *)
Definition atoi (s : string) : Z := atoi_go s 0.

Fixpoint zeros (k : nat) : string :=
  match k with
  | O => EmptyString
  | S k' => String "0"%char (zeros k')
  end.

(** time.appendInt: sign, then the digits left-padded with zeros to [width]. *)
Definition appendInt (x : Z) (width : nat) : string :=
  let u := Z.abs x in
  let ds := utoa u in
  let body := zeros (width - String.length ds) +:+ ds in
  if x <? 0 then String "-"%char body else body.

End Decimal.


(** ** Strings and paths: the standard-library calls the logger makes *)

Module Str.

Definition slash : ascii := "/"%char.
Definition dot : ascii := "."%char.
Definition newline : string := String (ascii_of_nat 10) EmptyString.

(** strings.Join(buf, sep) *)
Fixpoint Join (buf : list string) (sep : string) : string :=
  match buf with
  | [] => EmptyString
  | [x] => x
  | x :: rest => x +:+ sep +:+ Join rest sep
  end.

(** strings.TrimPrefix(s, ".") *)
Definition TrimPrefix_dot (s : string) : string :=
  match s with
  | String c r => if Ascii.eqb c dot then r else s
  | EmptyString => s
  end.

(** filepath.Ext: the suffix that starts at the last dot of the last
    path element; the scan from the end stops at a separator.  The pair is
    (extension found, separator seen). *)
Fixpoint ext_scan (s : string) : option string * bool :=
  match s with
  | EmptyString => (None, false)
  | String c r =>
      match ext_scan r with
      | (Some e, sl) => (Some e, sl)
      | (None, true) => (None, true)
      | (None, false) =>
          if Ascii.eqb c dot then (Some s, false)
          else if Ascii.eqb c slash then (None, true)
          else (None, false)
      end
  end.

Definition Ext (path : string) : string :=
  match ext_scan path with
  | (Some e, _) => e
  | (None, _) => EmptyString
  end.

Fixpoint has_slash (s : string) : bool :=
  match s with
  | EmptyString => false
  | String c r => Ascii.eqb c slash || has_slash r
  end.

Fixpoint last_elem (s : string) : string :=
  match s with
  | EmptyString => EmptyString
  | String c r => if has_slash s then last_elem r else s
  end.

Fixpoint drop_slashes (cs : list ascii) : list ascii :=
  match cs with
  | c :: r => if Ascii.eqb c slash then drop_slashes r else cs
  | [] => []
  end.

Definition strip_trailing_slashes (s : string) : string :=
  string_of_list_ascii (rev (drop_slashes (rev (list_ascii_of_string s)))).

(** filepath.Base *)
Definition Base (path : string) : string :=
  if String.eqb path EmptyString then "."%string
  else
    let p := last_elem (strip_trailing_slashes path) in
    if String.eqb p EmptyString then "/"%string else p.

(** filepath.Join(dir, name) for a directory path already in clean form and
    a plain file name, which is what the logger passes: the two joined by
    one separator.  The lexical cleaning that Join also performs is not
    modelled, so a path is identified by this spelling. *)
Definition filepath_Join (dir name : string) : string :=
  dir +:+ "/" +:+ name.

(** The part of [s] before its first dot, and the part after it. *)
Fixpoint cut_dot (s : string) : string * string :=
  match s with
  | EmptyString => (EmptyString, EmptyString)
  | String c r =>
      if Ascii.eqb c dot then (EmptyString, r)
      else let '(a, b) := cut_dot r in (String c a, b)
  end.

Fixpoint has_dot (s : string) : bool :=
  match s with
  | EmptyString => false
  | String c r => Ascii.eqb c dot || has_dot r
  end.

End Str.

(** ** time.Time and the layouts the logger formats with *)

Module GoTime.

(** A time.Time, as the calendar fields its Format reads (in the
    location of the value). *)
Record Time := mkTime {
  year : Z; month : Z; day : Z;
  hour : Z; minute : Z; second : Z; nanosecond : Z
}.

(** The zero time.Time: January 1, year 1, 00:00:00.000000000 UTC. *)
Definition zero : Time := mkTime 1 1 1 0 0 0 0.

(** The chunks time.Format splits a layout into. *)
Inductive chunk :=
  | Lit (s : string)
  | stdLongYear        (* 2006 *)
  | stdZeroMonth       (* 01 *)
  | stdZeroDay         (* 02 *)
  | stdHour            (* 15 *)
  | stdZeroMinute      (* 04 *)
  | stdZeroSecond      (* 05 *)
  | stdFracSecond0 (digits : nat).   (* .000000 *)

Definition format_chunk (t : Time) (c : chunk) : string :=
  match c with
  | Lit s => s
  | stdLongYear => Decimal.appendInt (year t) 4
  | stdZeroMonth => Decimal.appendInt (month t) 2
  | stdZeroDay => Decimal.appendInt (day t) 2
  | stdHour => Decimal.appendInt (hour t) 2
  | stdZeroMinute => Decimal.appendInt (minute t) 2
  | stdZeroSecond => Decimal.appendInt (second t) 2
  | stdFracSecond0 n =>
      String "."%char (String.substring 0 n (Decimal.appendInt (nanosecond t) 9))
  end.

Fixpoint Format (t : Time) (layout : list chunk) : string :=
  match layout with
  | [] => EmptyString
  | c :: r => format_chunk t c +:+ Format t r
  end.

Definition date_chunks : list chunk :=
  [stdLongYear; Lit "-"; stdZeroMonth; Lit "-"; stdZeroDay].

Definition clock_chunks : list chunk :=
  [stdHour; Lit ":"; stdZeroMinute; Lit ":"; stdZeroSecond].

(** "2006-01-02 15:04:05.000000" *)
Definition layout_ltime : list chunk :=
  date_chunks ++ [Lit " "] ++ clock_chunks ++ [stdFracSecond0 6].

(** "2006-01-02 15:04:05" *)
Definition layout_time : list chunk :=
  date_chunks ++ [Lit " "] ++ clock_chunks.

(** "2006-01-02.log" *)
Definition layout_day : list chunk := date_chunks ++ [Lit ".log"].

(** "2006-01-02_15.log" *)
Definition layout_hour : list chunk :=
  date_chunks ++ [Lit "_"; stdHour; Lit ".log"].

(** "2006-01-02_15-04.log" *)
Definition layout_minute : list chunk :=
  date_chunks ++ [Lit "_"; stdHour; Lit "-"; stdZeroMinute; Lit ".log"].

End GoTime.

Export GoTime(Time, mkTime).

(** ** Constants of logger.go *)

(** type Handler uint8: the flags of the log destinations. *)
Module Handler.
Definition None : Z := 0.
Definition Stdout : Z := 1.
Definition Stderr : Z := Z.shiftl 1 1.
Definition File : Z := Z.shiftl 1 2.
(** [h & flag == flag] *)
Definition has (h flag : Z) : bool := Z.land h flag =? flag.
End Handler.

(** type RotateStrategy uint8 *)
Definition RotateNone : Z := 0.
Definition RotateDay : Z := 1.
Definition RotateHour : Z := 2.
Definition RotateMinute : Z := 3.
Definition RotateSize : Z := 4.

Definition DefaultRotateType : Z := RotateHour.
Definition DefaultRotateSize : Z := Z.shiftl 1 30.
Definition DefaultLogDir : string := "/tmp".
Definition RotateSizeFilePrefix : string := "rotating".

(** type Level uint8 *)
Definition DEBUG : Z := 0.
Definition INFO : Z := 1.
Definition WARN : Z := 2.
Definition ERROR : Z := 3.
Definition FATAL : Z := 4.
Definition PANIC : Z := 5.

Definition gLevelString : list string :=
  ["DEBUG"; "INFO"; "WARN"; "ERROR"; "FATAL"; "PANIC"]%string.

Definition fmtLevel : string := "level".
Definition fmtLTime : string := "ltime".
Definition fmtTime : string := "time".
Definition fmtLocation : string := "location".
Definition fmtMsg : string := "msg".

Definition gDefaultLogFormat : list string :=
  [fmtLevel; fmtLTime; fmtLocation; fmtMsg].

(** The keys of the logFmtStr table. *)
Definition logFmtStr_has (f : string) : bool :=
  String.eqb f fmtLevel || String.eqb f fmtLTime || String.eqb f fmtTime
  || String.eqb f fmtLocation || String.eqb f fmtMsg.

(** int64 arithmetic wraps around. *)
Definition wrap64 (z : Z) : Z := (z + 2 ^ 63) mod 2 ^ 64 - 2 ^ 63.

Definition add64 (a b : Z) : Z := wrap64 (a + b).

(** ** Channels *)

(** What a call does to the state it works on: it returns, it blocks (and
    has changed nothing yet), or it panics in the state reached so far. *)
Inductive outcome (A : Type) :=
  | Returns (a : A)
  | Blocks
  | Panics (a : A) (why : string).
Arguments Returns {A} a.
Arguments Blocks {A}.
Arguments Panics {A} a why.

(** A Go channel: the buffered elements in FIFO order, the capacity given
    to make, and whether close has been called on it. *)
Record channel (A : Type) := mkChan {
  buf : list A;
  cap : nat;
  closed : bool
}.
Arguments mkChan {A} buf cap closed.
Arguments buf {A} c.
Arguments cap {A} c.
Arguments closed {A} c.

Definition make_chan (A : Type) (n : nat) : channel A := mkChan [] n false.

Definition has_room {A} (c : channel A) : bool :=
  (length (buf c) <? cap c)%nat.

Definition push {A} (x : A) (c : channel A) : channel A :=
  mkChan (buf c ++ [x]) (cap c) (closed c).

(** [c <- x] *)
Definition chan_send {A} (x : A) (c : channel A) : outcome (channel A) :=
  if closed c then Panics c "send on closed channel"
  else if has_room c then Returns (push x c)
  else Blocks.

(** Whether a receive from [c] can proceed at once. *)
Definition recv_ready {A} (c : channel A) : bool :=
  match buf c with
  | _ :: _ => true
  | [] => closed c
  end.

(** [<-c] when it can proceed: the oldest element, or the zero value of a
    closed and drained channel. *)
Definition chan_recv {A} (zero : A) (c : channel A) : option (A * channel A) :=
  match buf c with
  | x :: rest => Some (x, mkChan rest (cap c) (closed c))
  | [] => if closed c then Some (zero, c) else None
  end.

(** [close(c)]; closing a closed channel panics. *)
Definition chan_close {A} (c : channel A) : option (channel A) :=
  if closed c then None else Some (mkChan (buf c) (cap c) true).

(** ** The logger structure *)

(** The value a record travels with: its size, or the time it was made. *)
Inductive rotate_hint :=
  | HintSize (n : Z)          (* int64 *)
  | HintTime (t : Time).      (* time.Time *)

Record writerArgs := mkArgs {
  record : string;
  rotateArgs : rotate_hint
}.

(** The io.WriteCloser values the logger ever holds: the two console
    streams and the files it opened, named by the order of opening. *)
Inductive writer :=
  | os_Stdout
  | os_Stderr
  | os_File (h : nat).

Record logger := mkLogger {
  writers : gmap Z writer;
  writerChan : channel (option writerArgs);   (* nil is the close request *)
  logFormat : list string;
  levelThreshold : Z;
  handler : Z;
  logDir : string;
  logFile : string;
  rotateType : Z;
  rotateSize : Z;
  done : channel bool
}.

Definition set_writers (v : gmap Z writer) (l : logger) : logger :=
  mkLogger v (writerChan l) (logFormat l) (levelThreshold l) (handler l)
    (logDir l) (logFile l) (rotateType l) (rotateSize l) (done l).

Definition set_writerChan (v : channel (option writerArgs)) (l : logger) : logger :=
  mkLogger (writers l) v (logFormat l) (levelThreshold l) (handler l)
    (logDir l) (logFile l) (rotateType l) (rotateSize l) (done l).

Definition set_logFile (v : string) (l : logger) : logger :=
  mkLogger (writers l) (writerChan l) (logFormat l) (levelThreshold l) (handler l)
    (logDir l) v (rotateType l) (rotateSize l) (done l).

Definition set_done (v : channel bool) (l : logger) : logger :=
  mkLogger (writers l) (writerChan l) (logFormat l) (levelThreshold l) (handler l)
    (logDir l) (logFile l) (rotateType l) (rotateSize l) v.

Definition SetHandler (h : Z) (l : logger) : logger :=
  mkLogger (writers l) (writerChan l) (logFormat l) (levelThreshold l) h
    (logDir l) (logFile l) (rotateType l) (rotateSize l) (done l).

Definition SetLogDir (dir : string) (l : logger) : logger :=
  mkLogger (writers l) (writerChan l) (logFormat l) (levelThreshold l) (handler l)
    dir (logFile l) (rotateType l) (rotateSize l) (done l).

Definition SetLogLevel (level : Z) (l : logger) : logger :=
  mkLogger (writers l) (writerChan l) (logFormat l) level (handler l)
    (logDir l) (logFile l) (rotateType l) (rotateSize l) (done l).

Definition SetLogFormat (format : list string) (l : logger) : logger :=
  mkLogger (writers l) (writerChan l) format (levelThreshold l) (handler l)
    (logDir l) (logFile l) (rotateType l) (rotateSize l) (done l).

Definition SetRotateType (rotate : Z) (l : logger) : logger :=
  mkLogger (writers l) (writerChan l) (logFormat l) (levelThreshold l) (handler l)
    (logDir l) (logFile l) rotate (rotateSize l) (done l).

Definition SetRotateSize (size : Z) (l : logger) : logger :=
  mkLogger (writers l) (writerChan l) (logFormat l) (levelThreshold l) (handler l)
    (logDir l) (logFile l) (rotateType l) size (done l).

(** ** The producer half: logging *)

(** What runtime.Caller(2) reports: the name runtime.FuncForPC gives for
    the program counter, the file, the line, and whether it succeeded. *)
Record caller := mkCaller {
  caller_func : string;
  caller_file : string;
  caller_line : Z;
  caller_ok : bool
}.

(** The loop over l.logFormat: unsupported parts are skipped; indexing
    gLevelString out of range is a run-time panic (None). *)
Fixpoint render (fs : list string) (level : Z) (msg : string) (now : Time)
    (file : string) (line : Z) (funcname : string) : option (list string) :=
  match fs with
  | [] => Some []
  | f :: rest =>
      if negb (logFmtStr_has f) then render rest level msg now file line funcname
      else
        let part : option string :=
          if String.eqb f fmtLevel then
            match gLevelString !! Z.to_nat level with
            | Some s => if 0 <=? level then Some ("[" +:+ s +:+ "]") else None
            | None => None
            end
          else if String.eqb f fmtLTime then Some (GoTime.Format now GoTime.layout_ltime)
          else if String.eqb f fmtTime then Some (GoTime.Format now GoTime.layout_time)
          else if String.eqb f fmtLocation then
            Some (file +:+ ":" +:+ Decimal.itoa line +:+ ":" +:+ funcname +:+ ":")
          else Some msg
        in
        match part with
        | Some p =>
            match render rest level msg now file line funcname with
            | Some ps => Some (p :: ps)
            | None => None
            end
        | None => None
        end
  end.

(** The write job of a record: its size under RotateSize, else its time. *)
Definition make_job (l : logger) (rec : string) (now : Time) : writerArgs :=
  if rotateType l =? RotateSize
  then mkArgs rec (HintSize (Z.of_nat (String.length rec)))
  else mkArgs rec (HintTime now).

(** [l.logging(level, format, args...)]; [msg] is fmt.Sprintf(format, args...),
    [now] is time.Now() and [c] is what runtime.Caller(2) reports. *)
Definition logging (l : logger) (level : Z) (msg : string) (now : Time) (c : caller)
    : outcome logger :=
  if (handler l =? Handler.None) || (level <? levelThreshold l) then Returns l
  else
    let funcname :=
      if caller_ok c then Str.TrimPrefix_dot (Str.Ext (caller_func c)) else "???"%string in
    let file := if caller_ok c then Str.Base (caller_file c) else caller_file c in
    match render (logFormat l) level msg now file (caller_line c) funcname with
    | None => Panics l "index out of range"
    | Some parts =>
        let rec := Str.Join parts " " in
        match chan_send (Some (make_job l rec now)) (writerChan l) with
        | Returns ch => Returns (set_writerChan ch l)
        | Blocks => Blocks
        | Panics _ why => Panics l why
        end
    end.

(** Close with nothing between its two operations: the non-blocking probe
    of done, then the send of the close request. *)
Definition Close (l : logger) : outcome logger :=
  if recv_ready (done l) then Returns l
  else
    match chan_send None (writerChan l) with
    | Returns ch => Returns (set_writerChan ch l)
    | Blocks => Blocks
    | Panics _ why => Panics l why
    end.

(** The fields NewLogger initialises; the others hold their zero values. *)
Definition NewLogger : logger :=
  mkLogger ∅ (make_chan (option writerArgs) 100) gDefaultLogFormat DEBUG Handler.None
    EmptyString EmptyString 0 0 (make_chan bool 0).

(** ** The file system and the open files *)

Record world := mkWorld {
  disk : gmap string Z;            (* the regular files, by path, with their size *)
  locked : gset string;            (* the paths os.Create and os.OpenFile fail on *)
  open_files : gmap nat string;    (* files opened and not yet closed, with their path *)
  next_file : nat;                 (* the next os_File to hand out *)
  stderr_closed : bool;            (* Close was called on os.Stderr *)
  stdout_closed : bool;
  output : list (writer * string)  (* every write that succeeded, oldest first *)
}.

Definition empty_world : world := mkWorld ∅ ∅ ∅ 0%nat false false [].

(** os.Create(path): creates or truncates the file. *)
Definition os_Create (path : string) (w : world) : option (writer * world) :=
  if decide (path ∈ locked w) then None
  else
    Some (os_File (next_file w),
          mkWorld (<[path := 0]> (disk w)) (locked w)
            (<[next_file w := path]> (open_files w)) (S (next_file w))
            (stderr_closed w) (stdout_closed w) (output w)).

(** os.OpenFile(path, os.O_WRONLY|os.O_APPEND, 0666): no O_CREATE, so the
    file has to exist. *)
Definition os_OpenFile_append (path : string) (w : world) : option (writer * world) :=
  if decide (path ∈ locked w) then None
  else
    match disk w !! path with
    | None => None
    | Some _ =>
        Some (os_File (next_file w),
              mkWorld (disk w) (locked w)
                (<[next_file w := path]> (open_files w)) (S (next_file w))
                (stderr_closed w) (stdout_closed w) (output w))
    end.

(** w.Close(); the error of closing twice is dropped by the caller. *)
Definition writer_Close (x : writer) (w : world) : world :=
  match x with
  | os_Stdout =>
      mkWorld (disk w) (locked w) (open_files w) (next_file w)
        (stderr_closed w) true (output w)
  | os_Stderr =>
      mkWorld (disk w) (locked w) (open_files w) (next_file w)
        true (stdout_closed w) (output w)
  | os_File h =>
      mkWorld (disk w) (locked w) (delete h (open_files w)) (next_file w)
        (stderr_closed w) (stdout_closed w) (output w)
  end.

Definition log_output (x : writer) (s : string) (w : world) : world :=
  mkWorld (disk w) (locked w) (open_files w) (next_file w)
    (stderr_closed w) (stdout_closed w) (output w ++ [(x, s)]).

(** fmt.Fprint(x, s): a write to a closed destination fails and the error
    is dropped; a write to an open file makes the file grow. *)
Definition Fprint (x : writer) (s : string) (w : world) : world :=
  match x with
  | os_Stdout => if stdout_closed w then w else log_output x s w
  | os_Stderr => if stderr_closed w then w else log_output x s w
  | os_File h =>
      match open_files w !! h with
      | None => w
      | Some path =>
          let grown :=
            match disk w !! path with
            | Some sz => <[path := sz + Z.of_nat (String.length s)]> (disk w)
            | None => disk w
            end in
          mkWorld grown (locked w) (open_files w) (next_file w)
            (stderr_closed w) (stdout_closed w) (output w ++ [(x, s)])
      end
  end.

(** ** The helpers of the package that logger.go calls *)

(** Modelled from the spec: getFileInfo of the package's util.go, which is
    not part of the sources at hand.  It inspects the on-disk size of a
    path and tells whether the file exists. *)
Definition getFileInfo (w : world) (path : string) : Z * bool :=
  match disk w !! path with
  | Some sz => (sz, true)
  | None => (0, false)
  end.

(** Modelled from the spec: getSizeString of util.go, the readable size in
    the name of a size-rotated file; a ceiling of 100 bytes reads 100B. *)
Definition getSizeString (size : Z) : string :=
  Decimal.itoa size +:+ "B".

(** Modelled from the spec: getNextFileName of util.go.  File names have
    the form rotating-<size>.<index>.log; the next name has the index
    advanced by one. *)
Definition getNextFileName (name : string) : string :=
  let '(stem, rest) := Str.cut_dot name in
  let '(index, _) := Str.cut_dot rest in
  stem +:+ "." +:+ Decimal.itoa (Decimal.atoi index + 1) +:+ ".log".

(** ** Rotation *)

(** The for loop of buildFileWriterBySize, with a bound on the number of
    iterations; None when the bound is reached. *)
Fixpoint probe (fuel : nat) (l : logger) (w : world) (recordSize : Z) (fname : string)
    : option (string * bool) :=
  match fuel with
  | O => None
  | S fuel' =>
      let '(size, exist_) := getFileInfo w (Str.filepath_Join (logDir l) fname) in
      if negb exist_ then Some (fname, true)
      else if exist_ && (add64 size recordSize <=? rotateSize l) then Some (fname, false)
      else probe fuel' l w recordSize (getNextFileName fname)
  end.

Definition buildFileWriterBySize (fuel : nat) (l : logger) (w : world) (recordSize : Z)
    : option (string * bool) :=
  if (String.length (logFile l) =? 0)%nat then
    let fname :=
      RotateSizeFilePrefix +:+ "-" +:+ getSizeString (rotateSize l) +:+ ".0.log" in
    probe fuel l w recordSize fname
  else
    let currentFile := Str.filepath_Join (logDir l) (logFile l) in
    let '(size, exist_) := getFileInfo w currentFile in
    if negb exist_ then Some (logFile l, true)
    else if add64 size recordSize >? rotateSize l
    then Some (getNextFileName (logFile l), true)
    else Some (logFile l, false).

(** Lines 205 to 213 of buildFileWriter: the defaults of the file fields. *)
Definition fileDefaults (l : logger) : logger :=
  let l1 := if (String.length (logDir l) =? 0)%nat then SetLogDir DefaultLogDir l else l in
  let l2 :=
    if (rotateType l1 <? RotateNone) || (rotateType l1 >? RotateSize)
    then SetRotateType DefaultRotateType l1 else l1 in
  if (rotateType l2 =? RotateSize) && (rotateSize l2 =? 0)
  then SetRotateSize DefaultRotateSize l2 else l2.

(** Lines 215 to 234 of buildFileWriter: the name of the file to write to
    and whether it has to be created. *)
Definition rotation (fuel : nat) (l : logger) (w : world) (args : rotate_hint)
    : option (string * bool) :=
  if rotateType l =? RotateSize then
    let recordSize := match args with HintSize n => n | HintTime _ => 0 end in
    buildFileWriterBySize fuel l w recordSize
  else
    let recordTime := match args with HintTime t => t | HintSize _ => GoTime.zero end in
    let logFile :=
      if rotateType l =? RotateNone then "default.log"%string
      else if rotateType l =? RotateDay then GoTime.Format recordTime GoTime.layout_day
      else if rotateType l =? RotateHour then GoTime.Format recordTime GoTime.layout_hour
      else if rotateType l =? RotateMinute then GoTime.Format recordTime GoTime.layout_minute
      else EmptyString in
    let '(_, exist_) := getFileInfo w (Str.filepath_Join (logDir l) logFile) in
    Some (logFile, negb exist_).

(** Lines 235 to 258 of buildFileWriter: the file name is recorded and the
    destination is created, reused or opened. *)
Definition openTarget (l : logger) (w : world) (name : string) (needCreateFile : bool)
    : logger * world * writer :=
  let l' := set_logFile name l in
  let path := Str.filepath_Join (logDir l') (logFile l') in
  if needCreateFile then
    let w1 :=
      match writers l' !! Handler.File with
      | Some old => writer_Close old w
      | None => w
      end in
    match os_Create path w1 with
    | Some (f, w2) => (l', w2, f)
    | None => (l', w1, os_Stderr)
    end
  else
    match writers l' !! Handler.File with
    | Some old => (l', w, old)
    | None =>
        match os_OpenFile_append path w with
        | Some (f, w1) => (l', w1, f)
        | None => (l', w, os_Stderr)
        end
    end.

Definition buildFileWriter (fuel : nat) (l : logger) (w : world) (args : rotate_hint)
    : option (logger * world * writer) :=
  if negb (Handler.has (handler l) Handler.File) then Some (l, w, os_Stderr)
  else
    let l1 := fileDefaults l in
    match rotation fuel l1 w args with
    | None => None
    | Some (name, needCreateFile) => Some (openTarget l1 w name needCreateFile)
    end.

Definition buildWriter (fuel : nat) (l : logger) (w : world) (args : rotate_hint)
    : option (logger * world) :=
  let l1 :=
    if Handler.has (handler l) Handler.Stdout
    then set_writers (<[Handler.Stdout := os_Stdout]> (writers l)) l
    else set_writers (delete Handler.Stdout (writers l)) l in
  let l2 :=
    if Handler.has (handler l1) Handler.Stderr
    then set_writers (<[Handler.Stderr := os_Stderr]> (writers l1)) l1
    else set_writers (delete Handler.Stderr (writers l1)) l1 in
  if Handler.has (handler l2) Handler.File then
    match buildFileWriter fuel l2 w args with
    | None => None
    | Some (l3, w', f) => Some (set_writers (<[Handler.File := f]> (writers l3)) l3, w')
    end
  else Some (set_writers (delete Handler.File (writers l2)) l2, w).

(** ** The backend writer goroutine *)

(** A logger together with the file system, the goroutine NewLogger
    started for it, and the callers of its methods that are under way:
    [waiting] holds, for each caller that has come to its send on
    writerChan and not yet made it, the value it sends, and [panics] the
    panics raised in callers so far. *)
Record system := mkSys {
  lg : logger;
  os : world;
  backend_alive : bool;
  waiting : list (option writerArgs);
  panics : list string
}.

(** A system with no caller under way. *)
Definition mkSystem (l : logger) (w : world) (alive : bool) : system :=
  mkSys l w alive [] [].

Definition boot (w : world) : system := mkSystem NewLogger w true.

(** for _, w := range obj.writers { fmt.Fprint(w, args.record) }; the
    destinations are visited in the order of their keys (Go leaves the
    order open). *)
Definition write_all (l : logger) (rec : string) (w : world) : world :=
  foldl (fun acc kv => Fprint kv.2 rec acc) w (map_to_list (writers l)).

(** The logger, the file system and the goroutine of [s] replaced; the
    callers stay as they are. *)
Definition at_state (s : system) (l : logger) (w : world) (alive : bool) : system :=
  mkSys l w alive (waiting s) (panics s).

(** The goroutine dies in a panic; the deferred function prints the value. *)
Definition backend_panic (s : system) (e : string) : system :=
  at_state s (lg s) (Fprint os_Stdout (e +:+ Str.newline) (os s)) false.

(** One turn of the select in the loop of the goroutine.  [pick_done]
    settles which case runs when both can; None when the probe of
    buildFileWriterBySize does not end within [fuel]. A turn that has to
    wait leaves the state as it is. *)
Definition backend_turn (fuel : nat) (pick_done : bool) (s : system) : option system :=
  if negb (backend_alive s) then Some s
  else
    let l := lg s in
    let d := recv_ready (done l) in
    let c := recv_ready (writerChan l) in
    if d && (negb c || pick_done) then Some (at_state s l (os s) false)
    else
      match chan_recv None (writerChan l) with
      | None => Some s
      | Some (None, ch) =>
          let l1 := set_writerChan ch l in
          match chan_close (done l1) with
          | None => Some (backend_panic (at_state s l1 (os s) true) "close of closed channel")
          | Some d' =>
              let l2 := set_done d' l1 in
              match chan_close (writerChan l2) with
              | None => Some (backend_panic (at_state s l2 (os s) true) "close of closed channel")
              | Some ch' => Some (at_state s (set_writerChan ch' l2) (os s) false)
              end
          end
      | Some (Some args, ch) =>
          let l1 := set_writerChan ch l in
          match buildWriter fuel l1 (os s) (rotateArgs args) with
          | None => None
          | Some (l2, w) => Some (at_state s l2 (write_all l2 (record args) w) true)
          end
      end.

(** ** Runs of a logger *)

(** What logging sends on writerChan when it comes to its send: None when
    the call returns at the gate, or panics in the formatter. *)
Definition logging_job (l : logger) (level : Z) (msg : string) (now : Time) (c : caller)
    : option writerArgs :=
  if (handler l =? Handler.None) || (level <? levelThreshold l) then None
  else
    let funcname :=
      if caller_ok c then Str.TrimPrefix_dot (Str.Ext (caller_func c)) else "???"%string in
    let file := if caller_ok c then Str.Base (caller_file c) else caller_file c in
    match render (logFormat l) level msg now file (caller_line c) funcname with
    | None => None
    | Some parts => Some (make_job l (Str.Join parts " ") now)
    end.

(** What a run of a logger is made of.  A call of logging or Close is two
    events: the caller comes to its send on writerChan (DoLogEnter,
    DoCloseEnter: the gate and the formatter, or the probe of done, are
    behind it), and the send is made (DoSend, for the caller number [i] of
    those waiting); setters and turns of the goroutine can fall in between.
    DoLog and DoClose are the calls in which nothing falls in between: the
    send is tried as soon as the caller comes to it, and the caller waits
    if it cannot be made. *)
Inductive action :=
  | DoLog (level : Z) (msg : string) (now : Time) (c : caller)
  | DoClose
  | DoSetHandler (h : Z)
  | DoSetLogDir (dir : string)
  | DoSetLogLevel (level : Z)
  | DoSetLogFormat (format : list string)
  | DoSetRotateType (rotate : Z)
  | DoSetRotateSize (size : Z)
  | DoBackend (pick_done : bool)
  | DoLogEnter (level : Z) (msg : string) (now : Time) (c : caller)
  | DoCloseEnter
  | DoSend (i : nat).

(** The logger a call leaves behind; a call that blocks has changed
    nothing yet. *)
Definition settle (l : logger) (o : outcome logger) : logger :=
  match o with
  | Returns l' => l'
  | Blocks => l
  | Panics l' _ => l'
  end.

Definition with_lg (s : system) (l : logger) : system :=
  at_state s l (os s) (backend_alive s).

(** A caller comes to its send of [v]. *)
Definition arrive (v : option writerArgs) (s : system) : system :=
  mkSys (lg s) (os s) (backend_alive s) (waiting s ++ [v]) (panics s).

(** The caller number [i] of those waiting makes its send: the value is
    queued and the caller is gone; or the queue is full and the caller goes
    on waiting; or the queue is closed and the caller panics. *)
Definition deliver (i : nat) (s : system) : system :=
  match waiting s !! i with
  | None => s
  | Some v =>
      match chan_send v (writerChan (lg s)) with
      | Returns ch =>
          mkSys (set_writerChan ch (lg s)) (os s) (backend_alive s)
            (delete i (waiting s)) (panics s)
      | Blocks => s
      | Panics _ why =>
          mkSys (lg s) (os s) (backend_alive s) (delete i (waiting s)) (panics s ++ [why])
      end
  end.

(** logging up to its send. *)
Definition enter_logging (level : Z) (msg : string) (now : Time) (c : caller) (s : system)
    : system :=
  match logging_job (lg s) level msg now c with
  | Some job => arrive (Some job) s
  | None =>
      match logging (lg s) level msg now c with
      | Panics _ why =>
          mkSys (lg s) (os s) (backend_alive s) (waiting s) (panics s ++ [why])
      | _ => s
      end
  end.

(** Close up to its send: the probe of done. *)
Definition enter_Close (s : system) : system :=
  if recv_ready (done (lg s)) then s else arrive None s.

Definition step (fuel : nat) (s : system) (a : action) : option system :=
  match a with
  | DoLogEnter level msg now c => Some (enter_logging level msg now c s)
  | DoCloseEnter => Some (enter_Close s)
  | DoSend i => Some (deliver i s)
  | DoLog level msg now c =>
      Some (deliver (length (waiting s)) (enter_logging level msg now c s))
  | DoClose => Some (deliver (length (waiting s)) (enter_Close s))
  | DoSetHandler h => Some (with_lg s (SetHandler h (lg s)))
  | DoSetLogDir dir => Some (with_lg s (SetLogDir dir (lg s)))
  | DoSetLogLevel level => Some (with_lg s (SetLogLevel level (lg s)))
  | DoSetLogFormat format => Some (with_lg s (SetLogFormat format (lg s)))
  | DoSetRotateType rotate => Some (with_lg s (SetRotateType rotate (lg s)))
  | DoSetRotateSize size => Some (with_lg s (SetRotateSize size (lg s)))
  | DoBackend pick => backend_turn fuel pick s
  end.

Fixpoint run (fuel : nat) (s : system) (acts : list action) : option system :=
  match acts with
  | [] => Some s
  | a :: rest =>
      match step fuel s a with
      | Some s' => run fuel s' rest
      | None => None
      end
  end.

(** The exported methods, one family per level; [body] is concat(msg...)
    or the rendered format. *)
Definition Debug (l : logger) (body : string) := logging l DEBUG (body +:+ Str.newline).
Definition Info (l : logger) (body : string) := logging l INFO (body +:+ Str.newline).
Definition Warn (l : logger) (body : string) := logging l WARN (body +:+ Str.newline).
Definition Error (l : logger) (body : string) := logging l ERROR (body +:+ Str.newline).
Definition Fatal (l : logger) (body : string) := logging l FATAL (body +:+ Str.newline).

(** Panic logs and then panics with the record. *)
Definition Panic (l : logger) (body : string) (now : Time) (c : caller) : outcome logger :=
  match logging l PANIC (body +:+ Str.newline) now c with
  | Returns l' => Panics l' body
  | o => o
  end.

(** ** Statements about the producer half *)

(** The call [o] on [l] put exactly one write job on the queue and changed
    nothing else. *)
Definition enqueues_one (l : logger) (o : outcome logger) : Prop :=
  ∃ job : writerArgs, o = Returns (set_writerChan (push (Some job) (writerChan l)) l).

(** The gate of logging: a job is queued exactly when a handler is set and
    the level reaches the threshold, and a call that does not pass returns
    with the logger as it was. *)
Definition logging_gate (l : logger) (level : Z) (msg : string) (now : Time) (c : caller)
    : Prop :=
  (enqueues_one l (logging l level msg now c)
     ↔ handler l ≠ Handler.None ∧ levelThreshold l <= level)
  ∧ (handler l = Handler.None ∨ level < levelThreshold l →
       logging l level msg now c = Returns l).

Definition is_level (level : Z) : Prop := DEBUG <= level <= PANIC.

(** Sample inputs. *)
Definition sample_time : Time := mkTime 2024 3 9 14 5 7 123456789.
Definition sample_caller : caller :=
  mkCaller "github.com/baidu/mochow-sdk-go/client.(*BceClient).SendRequest"
    "/go/src/client/client.go" 42 true.

(** A logger that logs to stdout, after Close was called and the
    goroutine has handled the request. *)
Definition shut_down : option system :=
  run 1 (boot empty_world) [DoSetHandler Handler.Stdout; DoClose; DoBackend false].

(** ** Statements about rotation by size *)

(** rotating-<size>.<index>.log *)
Definition rotating_name (sz : string) (i : Z) : string :=
  RotateSizeFilePrefix +:+ "-" +:+ sz +:+ "." +:+ Decimal.itoa i +:+ ".log".

(** The candidate of index [i] for the ceiling of [l]. *)
Definition candidate (l : logger) (i : nat) : string :=
  rotating_name (getSizeString (rotateSize l)) (Z.of_nat i).

Definition on_disk (l : logger) (w : world) (name : string) : option Z :=
  disk w !! Str.filepath_Join (logDir l) name.

(** A candidate ends the linear probe: it is not on disk, or it is and
    its size plus the hint stays within the ceiling. *)
Definition accepts (l : logger) (w : world) (hintBytes : Z) (name : string) : bool :=
  match on_disk l w name with
  | None => true
  | Some currentSize => currentSize + hintBytes <=? rotateSize l
  end.

(** The reference procedure of the rotation decision under RotateSize, in
    the words of its description: [res] is what it prescribes. *)
Definition reference_by_size (l : logger) (w : world) (hintBytes : Z)
    (res : string * bool) : Prop :=
  if decide (logFile l = EmptyString) then
    ∃ i : nat,
      accepts l w hintBytes (candidate l i) = true
      ∧ (∀ j : nat, (j < i)%nat → accepts l w hintBytes (candidate l j) = false)
      ∧ res = (candidate l i,
               match on_disk l w (candidate l i) with None => true | Some _ => false end)
  else
    match on_disk l w (logFile l) with
    | None => res = (logFile l, true)
    | Some currentSize =>
        if decide (currentSize + hintBytes > rotateSize l)
        then res = (getNextFileName (logFile l), true)
        else res = (logFile l, false)
    end.

(** The sizes on disk and the hint are such that their int64 sum does not
    wrap around. *)
Definition no_overflow (w : world) (hintBytes : Z) : Prop :=
  ∀ (path : string) (sz : Z),
    disk w !! path = Some sz → - 2 ^ 63 <= sz + hintBytes < 2 ^ 63.

(** A directory that holds rotating-100B.0.log with 90 bytes and
    rotating-100B.1.log with 10 bytes. *)
Definition two_rotated : world :=
  mkWorld (<["/tmp/rotating-100B.0.log"%string := 90]>
             (<["/tmp/rotating-100B.1.log"%string := 10]> ∅))
    ∅ ∅ 0%nat false false [].

Definition size_logger : logger :=
  SetRotateSize 100 (SetRotateType RotateSize (SetLogDir "/tmp" (SetHandler Handler.File NewLogger))).

(** ** Statements about rotation by calendar *)

(** The time a calendar strategy reads from the hint of a job. *)
Definition hint_time (args : rotate_hint) : Time :=
  match args with
  | HintTime t => t
  | HintSize _ => GoTime.zero
  end.

(** YYYY-MM-DD *)
Definition date_text (t : Time) : string :=
  Decimal.appendInt (GoTime.year t) 4 +:+ "-" +:+ Decimal.appendInt (GoTime.month t) 2
  +:+ "-" +:+ Decimal.appendInt (GoTime.day t) 2.

(** YYYY-MM-DD.log, YYYY-MM-DD_HH.log and YYYY-MM-DD_HH-MM.log *)
Definition calendar_name (strategy : Z) (t : Time) : string :=
  if strategy =? RotateDay then date_text t +:+ ".log"
  else if strategy =? RotateHour then
    date_text t +:+ "_" +:+ Decimal.appendInt (GoTime.hour t) 2 +:+ ".log"
  else
    date_text t +:+ "_" +:+ Decimal.appendInt (GoTime.hour t) 2
    +:+ "-" +:+ Decimal.appendInt (GoTime.minute t) 2 +:+ ".log".

Definition is_calendar (strategy : Z) : Prop :=
  strategy = RotateDay ∨ strategy = RotateHour ∨ strategy = RotateMinute.

(** No file of that name is in the log directory. *)
Definition absent (l : logger) (w : world) (name : string) : bool :=
  match on_disk l w name with
  | None => true
  | Some _ => false
  end.

(** What is said of RotateNone: the name is default.log, and a new file is
    asked for only when no file name has been recorded yet. *)
Definition rotate_none_first_time_only (fuel : nat) (l : logger) (w : world)
    (args : rotate_hint) : Prop :=
  ∃ needNewFile : bool,
    rotation fuel l w args = Some ("default.log"%string, needNewFile)
    ∧ (needNewFile = true → logFile l = EmptyString).

(** A logger under RotateNone that has written to /tmp/default.log and
    whose directory was then set to /var/log, where no file is yet. *)
Definition moved_dir : option system :=
  run 1 (boot empty_world)
    [DoSetHandler Handler.File; DoSetRotateType RotateNone; DoSetLogDir "/tmp";
     DoLog INFO "first" sample_time sample_caller; DoBackend false;
     DoSetLogDir "/var/log"].

Definition file_logger : logger := SetLogDir "/tmp" (SetHandler Handler.File NewLogger).

(** ** Statements about the destinations *)

(** Two loggers agree on the fields the rotation reads. *)
Definition same_file_config (l l' : logger) : Prop :=
  logDir l = logDir l' ∧ logFile l = logFile l'
  ∧ rotateType l = rotateType l' ∧ rotateSize l = rotateSize l'.

(** The file [path] opened on [w] as the next os_File, the disk as it was. *)
Definition opened (path : string) (w : world) : world :=
  mkWorld (disk w) (locked w) (<[next_file w := path]> (open_files w)) (S (next_file w))
    (stderr_closed w) (stdout_closed w) (output w).

(** The file [path] created or truncated on [w] as the next os_File. *)
Definition created (path : string) (w : world) : world :=
  mkWorld (<[path := 0]> (disk w)) (locked w) (<[next_file w := path]> (open_files w))
    (S (next_file w)) (stderr_closed w) (stdout_closed w) (output w).

(** [w] after Close on the file destination held so far, if there is one. *)
Definition previous_closed (l : logger) (w : world) : world :=
  match writers l !! Handler.File with
  | Some old => writer_Close old w
  | None => w
  end.

(** The console destinations as buildWriter sets them. *)
Definition console_writers (l : logger) : gmap Z writer :=
  let m1 :=
    if Handler.has (handler l) Handler.Stdout
    then <[Handler.Stdout := os_Stdout]> (writers l)
    else delete Handler.Stdout (writers l) in
  if Handler.has (handler l) Handler.Stderr
  then <[Handler.Stderr := os_Stderr]> m1
  else delete Handler.Stderr m1.

(** A world in which /tmp/default.log exists and cannot be opened. *)
Definition locked_world : world :=
  mkWorld (<["/tmp/default.log"%string := 10]> ∅) {["/tmp/default.log"%string]}
    ∅ 0%nat false false [].

(** A world in which /tmp/default.log cannot be created. *)
Definition uncreatable_world : world :=
  mkWorld ∅ {["/tmp/default.log"%string]} ∅ 0%nat false false [].

(** ** Statements about the life of a logger *)

(** The states a logger made by NewLogger can be in. *)
Definition reachable (s : system) : Prop :=
  ∃ (w : world) (fuel : nat) (acts : list action), run fuel (boot w) acts = Some s.

(** Nothing is ever sent on done; the queue and done are closed together,
    by the goroutine as its last act. *)
Definition lifecycle (s : system) : Prop :=
  buf (done (lg s)) = []
  ∧ closed (writerChan (lg s)) = closed (done (lg s))
  ∧ (closed (done (lg s)) = true → backend_alive s = false).

(** The files the logger has opened and not closed are at most one. *)
Definition at_most_one_open (s : system) : Prop :=
  (size (open_files (os s)) <= 1)%nat.

(** The file flag set, a record written, the flag taken away, a record
    written, the flag set again, a record written. *)
Definition toggle_file : list action :=
  [DoSetHandler Handler.File; DoSetLogDir "/tmp"; DoSetRotateType RotateNone;
   DoLog INFO "one" sample_time sample_caller; DoBackend false;
   DoSetHandler Handler.Stdout;
   DoLog INFO "two" sample_time sample_caller; DoBackend false;
   DoSetHandler Handler.File;
   DoLog INFO "three" sample_time sample_caller; DoBackend false].

(** Every open file is the file destination the logger holds. *)
Definition holds_open (l : logger) (w : world) : Prop :=
  ∀ (h : nat) (path : string),
    open_files w !! h = Some path → writers l !! Handler.File = Some (os_File h).

(** The file flag is set, or no file is open. *)
Definition file_flag_or_none (l : logger) (w : world) : Prop :=
  Handler.has (handler l) Handler.File = true ∨ open_files w = ∅.

(** An action that does not take the file flag away. *)
Definition keeps_file_flag (a : action) : Prop :=
  match a with
  | DoSetHandler h => Handler.has h Handler.File = true
  | _ => True
  end.

(** ** Statements about calls that meet the shutdown *)

(** Close is called and returns; Close is called again and passes its
    probe of done; then the goroutine handles the request of the first
    call.  The second caller has its send still to make. *)
Definition second_Close_in_window : option system :=
  run 1 (boot empty_world) [DoClose; DoCloseEnter; DoBackend false].

(** ** Statements about a file destination held for another file *)

(** A file system in which /var/log/default.log has 7 bytes. *)
Definition var_log_world : world :=
  mkWorld {["/var/log/default.log"%string := 7]} ∅ ∅ 0%nat false false [].

(** A logger under RotateNone writes a record to /tmp/default.log; its
    directory is then set to /var/log, and a second record is queued. *)
Definition moved_to_existing : list action :=
  [DoSetHandler Handler.File; DoSetRotateType RotateNone; DoSetLogDir "/tmp";
   DoLog INFO "first" sample_time sample_caller; DoBackend false;
   DoSetLogDir "/var/log";
   DoLog INFO "second" sample_time sample_caller].

(** ** Further statements about the logger *)

(** The parts of a format that the table of format strings knows. *)
Definition supported (fs : list string) : list string :=
  filter (λ f, logFmtStr_has f = true) fs.

(** The destinations only ever sit under the three handler flags. *)
Definition known_keys (l : logger) : Prop :=
  ∀ k : Z, is_Some (writers l !! k) →
    k = Handler.Stdout ∨ k = Handler.Stderr ∨ k = Handler.File.

(** The goroutine is running on an open logger: nothing was sent on
    done and done is not closed. *)
Definition serving (l : logger) : Prop :=
  buf (done l) = [] ∧ closed (done l) = false.

(** The file name of the zero time under a calendar strategy. *)
Definition zero_time_name (strategy : Z) : string :=
  if strategy =? RotateDay then "0001-01-01.log"
  else if strategy =? RotateHour then "0001-01-01_00.log"
  else "0001-01-01_00-00.log".

(** The fields of a time that a calendar strategy tells apart. *)
Definition bucket (strategy : Z) (t : Time) : list Z :=
  if strategy =? RotateDay then [GoTime.year t; GoTime.month t; GoTime.day t]
  else if strategy =? RotateHour then
    [GoTime.year t; GoTime.month t; GoTime.day t; GoTime.hour t]
  else [GoTime.year t; GoTime.month t; GoTime.day t; GoTime.hour t; GoTime.minute t].

Definition natural_time (t : Time) : Prop :=
  0 <= GoTime.year t ∧ 0 <= GoTime.month t ∧ 0 <= GoTime.day t
  ∧ 0 <= GoTime.hour t ∧ 0 <= GoTime.minute t.

(** The leading decimal digits of a string, and what follows them. *)
Definition is_digit (c : ascii) : bool :=
  (48 <=? Z.of_nat (nat_of_ascii c)) && (Z.of_nat (nat_of_ascii c) <=? 57).

Fixpoint span_digits (s : string) : string * string :=
  match s with
  | EmptyString => (EmptyString, EmptyString)
  | String c r =>
      if is_digit c then let '(a, b) := span_digits r in (String c a, b)
      else (EmptyString, s)
  end.

Fixpoint all_digits (s : string) : bool :=
  match s with
  | EmptyString => true
  | String c r => is_digit c && all_digits r
  end.

(** The number a string starts with. *)
Definition leading_number (s : string) : Z * string :=
  let '(ds, rest) := span_digits s in (Decimal.atoi ds, rest).

(** A logger that queued a record for stdout and then had its handler
    set to None. *)
Definition muted_after_log : system :=
  let l0 := SetHandler Handler.Stdout NewLogger in
  mkSystem
    (SetHandler Handler.None (settle l0 (logging l0 INFO "hello" sample_time sample_caller)))
    empty_world true.

(** A logger with the stdout handler that has queued one record. *)
Definition hello_queued : logger :=
  settle (SetHandler Handler.Stdout NewLogger)
    (logging (SetHandler Handler.Stdout NewLogger) INFO "hello" sample_time sample_caller).

(** What the goroutine writes to stdout for a list of jobs. *)
Definition stdout_lines (jobs : list writerArgs) : list (writer * string) :=
  (λ j, (os_Stdout, record j)) <$> jobs.

(** The turns in which the goroutine handles [n] jobs. *)
Definition turns (n : nat) (pick : bool) : list action := replicate n (DoBackend pick).

(** The file logger after a record whose file could not be created: the
    file destination it holds is os.Stderr. *)
Definition fell_back : logger :=
  set_writers {[Handler.File := os_Stderr]} (set_logFile "default.log" file_logger).

(** The queue holds no more than its capacity, which is 100. *)
Definition queue_within_capacity (l : logger) : Prop :=
  (length (buf (writerChan l)) <= cap (writerChan l))%nat ∧ cap (writerChan l) = 100%nat.

(** The numbers in a file name, read from the left: each is followed by
    a dash or an underscore, up to the first one that is not. *)
Definition is_sep (c : ascii) : bool :=
  Ascii.eqb c "-"%char || Ascii.eqb c "_"%char.

Fixpoint numbers (fuel : nat) (s : string) : list Z :=
  match fuel with
  | O => []
  | S fuel' =>
      let '(n, rest) := leading_number s in
      match rest with
      | String c r => if is_sep c then n :: numbers fuel' r else [n]
      | EmptyString => [n]
      end
  end.

(** The name a record with the time [t] as its hint is filed under. *)
Definition filed_under (fuel : nat) (l : logger) (w : world) (t : Time) : option string :=
  fst <$> rotation fuel l w (HintTime t).

(** ** Statements about the size of the rotated files *)

(** The file destination held, when it is a file, is open on the file
    whose name is recorded. *)
Definition held_on_current (l : logger) (w : world) : Prop :=
  ∀ h : nat, writers l !! Handler.File = Some (os_File h) →
    logFile l ≠ EmptyString
    ∧ open_files w !! h = Some (Str.filepath_Join (logDir l) (logFile l)).

(** Every file of [w'] is as it was in [w], or no larger than [bound]. *)
Definition grown_within (w w' : world) (bound : Z) : Prop :=
  ∀ (path : string) (sz : Z),
    disk w' !! path = Some sz → disk w !! path = Some sz ∨ sz <= bound.

(** A job for a record under RotateSize. *)
Definition size_job (rec : string) : writerArgs :=
  mkArgs rec (HintSize (Z.of_nat (String.length rec))).

(** The size buildFileWriter reads from a hint: the size it carries, and
    0 for a hint that carries a time. *)
Definition hint_size (args : rotate_hint) : Z :=
  match args with
  | HintSize n => n
  | HintTime _ => 0
  end.

(** A file of 95 bytes under the ceiling of 100. *)
Definition nearly_full : world :=
  mkWorld {["/tmp/rotating-100B.0.log"%string := 95]} ∅ ∅ 0%nat false false [].

(** * Package util: string.go *)

Module Util.

(** The value of a byte of a Go string. *)
Definition byte_val (c : ascii) : Z := Z.of_N (N_of_ascii c).

(** The byte with the value [b]. *)
Definition byte_of (b : Z) : ascii := ascii_of_N (Z.to_N b).

(** s[i] for a constant table s. *)
Definition index (s : string) (i : Z) : ascii :=
  match String.get (Z.to_nat i) s with
  | Some c => c
  | None => zero
  end.

(** The digits fmt uses for the verb %X. *)
Definition udigits : string := "0123456789ABCDEF".

(** hextable of encoding/hex. *)
Definition hextable : string := "0123456789abcdef".

(** fmt.Sprintf("%%%02X", b) for a byte b: a percent sign and two
    digits. *)
Definition Sprintf_pct_02X (b : Z) : string :=
  String "%" (String (index udigits (b / 16))
                (String (index udigits (b mod 16)) EmptyString)).

(** The condition under which URIEncode writes the byte as it is. *)
Definition unreserved (b : Z) (encodeSlash : bool) : bool :=
  ((65 <=? b) && (b <=? 90)) || ((97 <=? b) && (b <=? 122)) || ((48 <=? b) && (b <=? 57))
  || (b =? 45) || (b =? 95) || (b =? 46) || (b =? 126)
  || ((b =? 47) && negb encodeSlash).

Fixpoint URIEncode (uri : string) (encodeSlash : bool) : string :=
  match uri with
  | EmptyString => EmptyString
  | String c rest =>
      let b := byte_val c in
      if unreserved b encodeSlash
      then String c (URIEncode rest encodeSlash)
      else (Sprintf_pct_02X b ++ URIEncode rest encodeSlash)%string
  end.

(** hex.Encode(dst, src): two digits of hextable for each byte, the high
    half first. *)
Fixpoint hex_Encode (src : list Z) : string :=
  match src with
  | [] => EmptyString
  | v :: rest =>
      String (index hextable (Z.shiftr v 4))
        (String (index hextable (Z.land v 15)) (hex_Encode rest))
  end.

(** buf[i] *)
Definition byte_at (buf : list Z) (i : nat) : Z := default 0 (buf !! i).

(** NewUUID on the 16 bytes [rnd] that rand.Read delivered on the attempt
    that succeeded.  The five hex.Encode calls fill res[0:8], res[9:13],
    res[14:18], res[19:23] and res[24:36], and the four dashes the bytes in
    between, so that res is the concatenation below. *)
Definition NewUUID (rnd : list Z) : string :=
  let buf := rnd in
  let buf := <[6%nat := Z.lor (Z.land (byte_at buf 6) 15) (Z.shiftl 4 4)]> buf in
  let buf := <[8%nat := Z.lor (Z.land (byte_at buf 8) 191) 128]> buf in
  (hex_Encode (take 4 buf) ++ "-"
   ++ hex_Encode (take 2 (drop 4 buf)) ++ "-"
   ++ hex_Encode (take 2 (drop 6 buf)) ++ "-"
   ++ hex_Encode (take 2 (drop 8 buf)) ++ "-"
   ++ hex_Encode (drop 10 buf))%string.

Definition NewRequestID (rnd : list Z) : string := NewUUID rnd.

(** ** Statements about URIEncode *)

(** The value of a digit of [udigits]; 0 for any other byte. *)
Definition hex_val (c : ascii) : Z :=
  let b := byte_val c in
  if (48 <=? b) && (b <=? 57) then b - 48
  else if (65 <=? b) && (b <=? 70) then b - 55
  else 0.

(** Reading an encoded string back: a percent sign and the two bytes after
    it stand for one byte, every other byte for itself. *)
Fixpoint percent_decode (s : string) : string :=
  match s with
  | EmptyString => EmptyString
  | String c rest =>
      if Ascii.eqb c "%" then
        match rest with
        | String h (String l rest') =>
            String (byte_of (16 * hex_val h + hex_val l)) (percent_decode rest')
        | _ => s
        end
      else String c (percent_decode rest)
  end.

(** Every byte of [s] satisfies [p]. *)
Fixpoint all_bytes (p : ascii → bool) (s : string) : bool :=
  match s with
  | EmptyString => true
  | String c rest => p c && all_bytes p rest
  end.

(** A byte URIEncode can put out: one it keeps, or the percent sign. *)
Definition uri_byte (encodeSlash : bool) (c : ascii) : bool :=
  unreserved (byte_val c) encodeSlash || Ascii.eqb c "%".

(** A byte URIEncode keeps. *)
Definition kept (encodeSlash : bool) (c : ascii) : bool :=
  unreserved (byte_val c) encodeSlash.

(** ** Statements about NewUUID *)

Definition is_byte (b : Z) : Prop := 0 <= b < 256.

Definition is_lower_hex (c : ascii) : bool :=
  existsb (Ascii.eqb c) (list_ascii_of_string hextable).

(** The form of a version 4 UUID of RFC 4122 in text: 36 bytes, dashes at
    8, 13, 18 and 23, the digit 4 at 14, one of 8, 9, a, b at 19, and
    digits of hextable elsewhere. *)
Definition uuid_v4_text (s : string) : Prop :=
  String.length s = 36%nat
  ∧ ∀ (i : nat) (c : ascii), String.get i s = Some c →
      if bool_decide (i ∈ [8; 13; 18; 23]%nat) then c = "-"%char
      else if bool_decide (i = 14%nat) then c = "4"%char
      else if bool_decide (i = 19%nat) then c ∈ ["8"; "9"; "a"; "b"]%char
      else is_lower_hex c = true.

(** The bits of [rnd] that NewUUID does not overwrite: all of every byte
    but the high half of byte 6 and the two high bits of byte 8. *)
Definition free_bits (rnd : list Z) : list Z :=
  <[8%nat := Z.land (byte_at rnd 8) 63]> (<[6%nat := Z.land (byte_at rnd 6) 15]> rnd).

Definition sample_bytes : list Z :=
  [0; 17; 34; 51; 68; 85; 255; 119; 255; 153; 170; 187; 204; 221; 238; 255].

End Util.

(** * Building a client: packages auth, http, client and mochow *)

(** A value and a nil error, or a nil value and the error with its
    message. *)
Inductive result (A : Type) : Type :=
  | Ok (a : A)
  | Err (msg : string).
Arguments Ok {A} a.
Arguments Err {A} msg.

(** len(s) == 0 *)
Definition len_is_0 (s : string) : bool := (String.length s =? 0)%nat.

Module Auth.

Record BceCredentials : Type := mkBceCredentials {
  Account : string;
  APIKey : string
}.

Definition NewBceCredentials (account apiKey : string) : result BceCredentials :=
  if len_is_0 account then Err "account should not be empty"
  else if len_is_0 apiKey then Err "apiKey should not be empty"
  else Ok (mkBceCredentials account apiKey).

Record SignOptions : Type := mkSignOptions {
  HeadersToSign : gset string;
  Timestamp : Z;
  ExpireSeconds : Z
}.

(** The implementations of the interface Signer. *)
Inductive Signer : Type := BceV1Signer.

End Auth.

Module Http.

Record ClientConfig : Type := mkClientConfig {
  RedirectDisabled : bool;
  ConnectionTimeoutInMills : Z
}.

(** The package variables httpClient and transport together with
    customizeInit: None until the function given to customizeInit.Do has
    run, and from then on the configuration that the Dial function of the
    transport and CheckRedirect were made from. *)
Definition globals : Type := option ClientConfig.

Definition InitClient (config : ClientConfig) (g : globals) : globals :=
  match g with
  | None => Some config
  | Some _ => g
  end.

End Http.

Module Bce.

(** The file of the retry policies is not among the sources: a policy is
    kept as the constructor call that made it. *)
Inductive RetryPolicy : Type :=
  | NewNoRetryPolicy
  | NewBackOffRetryPolicy (maxErrorRetry maxDelayInMillis baseIntervalInMillis : Z).

Definition SdkVersion : string := "0.0.1".
Definition DefaultRegion : string := "bj".
Definition DefaultConnectionTimeoutInMills : Z := 10 * 1000.
Definition DefaultRequestTimeoutInMills : Z := 60 * 1000.
Definition DefaultRetryPolicy : RetryPolicy := NewBackOffRetryPolicy 3 20000 300.

(** What package runtime tells of the program. *)
Record runtime : Type := mkRuntime {
  Version : string;
  GOOS : string;
  GOARCH : string
}.

(** DefaultUserAgent as init leaves it. *)
Definition DefaultUserAgent (rt : runtime) : string :=
  ("mochow-sdk-go" ++ "/" ++ SdkVersion ++ "/" ++ Version rt ++ "/" ++ GOOS rt
   ++ "/" ++ GOARCH rt)%string.

Record BceClientConfiguration : Type := mkBceClientConfiguration {
  Endpoint : string;
  ProxyURL : string;
  Region : string;
  UserAgent : string;
  Credentials : Auth.BceCredentials;
  SignOption : option Auth.SignOptions;
  Retry : RetryPolicy;
  ConnectionTimeoutInMillis : Z;
  RequestTimeoutInMillis : Z;
  CnameEnabled : bool;
  BackupEndpoint : string;
  RedirectDisabled : bool
}.

Record BceClient : Type := mkBceClient {
  Config : BceClientConfiguration;
  Signer : Auth.Signer
}.

(** NewBceClient on the package variables [g] of http. *)
Definition NewBceClient (conf : BceClientConfiguration) (sign : Auth.Signer)
    (g : Http.globals) : BceClient * Http.globals :=
  let clientConfig :=
    Http.mkClientConfig (RedirectDisabled conf) (ConnectionTimeoutInMillis conf) in
  (mkBceClient conf sign, Http.InitClient clientConfig g).

Definition NewBceClientWithAPIKey (rt : runtime) (account apiKey endPoint : string)
    (g : Http.globals) : result BceClient * Http.globals :=
  match Auth.NewBceCredentials account apiKey with
  | Err msg => (Err msg, g)
  | Ok credentials =>
      let defaultConf :=
        mkBceClientConfiguration endPoint EmptyString DefaultRegion (DefaultUserAgent rt)
          credentials None DefaultRetryPolicy DefaultConnectionTimeoutInMills 0
          false EmptyString false in
      let '(c, g') := NewBceClient defaultConf Auth.BceV1Signer g in
      (Ok c, g')
  end.

End Bce.

Module Mochow.

Record ClientConfiguration : Type := mkClientConfiguration {
  Account : string;
  APIKey : string;
  Endpoint : string;
  RedirectDisabled : bool;
  ConnectionTimeoutMS : Z;
  RequestTimeoutMS : Z;
  MaxRetry : Z
}.

Record Client : Type := mkClient { BceClient : Bce.BceClient }.

(** NewClientWithConfig for a config that is not nil, on the package
    variables [g] of http; the result is the client or the error, and the
    package variables afterwards. *)
Definition NewClientWithConfig (rt : Bce.runtime) (config : ClientConfiguration)
    (g : Http.globals) : result Client * Http.globals :=
  let account := Account config in
  let apiKey := APIKey config in
  let endpoint := Endpoint config in
  if len_is_0 account || len_is_0 apiKey || len_is_0 endpoint
  then (Err "account, apiKey and endpoint missing for creating mochow client", g)
  else
    match Auth.NewBceCredentials account apiKey with
    | Err msg => (Err msg, g)
    | Ok credentials =>
        if (ConnectionTimeoutMS config <? 0) || (RequestTimeoutMS config <? 0)
        then (Err "connection and request timeout is negative", g)
        else
          let connection :=
            if ConnectionTimeoutMS config >? 0 then ConnectionTimeoutMS config
            else Bce.DefaultConnectionTimeoutInMills in
          let request :=
            if RequestTimeoutMS config >? 0 then RequestTimeoutMS config
            else Bce.DefaultRequestTimeoutInMills in
          if request <=? connection
          then (Err "request timeout should greater than connection timeout", g)
          else
            let retry :=
              if MaxRetry config <? 0 then Bce.NewNoRetryPolicy
              else if MaxRetry config >? 0
                   then Bce.NewBackOffRetryPolicy (MaxRetry config) 20000 300
                   else Bce.DefaultRetryPolicy in
            let defaultConf :=
              Bce.mkBceClientConfiguration endpoint EmptyString Bce.DefaultRegion
                (Bce.DefaultUserAgent rt) credentials None retry connection request
                false EmptyString (RedirectDisabled config) in
            let '(c, g') := Bce.NewBceClient defaultConf Auth.BceV1Signer g in
            (Ok (mkClient c), g')
    end.

Definition NewClient (rt : Bce.runtime) (account apiKey endpoint : string)
    (g : Http.globals) : result Client * Http.globals :=
  NewClientWithConfig rt (mkClientConfiguration account apiKey endpoint false 0 0 0) g.

(** ** Statements about the building of clients *)

(** The timeout in force for a timeout option: the option when it is
    positive, the default otherwise. *)
Definition in_force (option default : Z) : Z :=
  if option >? 0 then option else default.

(** The configurations NewClientWithConfig makes a client from. *)
Definition acceptable (config : ClientConfiguration) : bool :=
  negb (len_is_0 (Account config)) && negb (len_is_0 (APIKey config))
  && negb (len_is_0 (Endpoint config))
  && (0 <=? ConnectionTimeoutMS config) && (0 <=? RequestTimeoutMS config)
  && (in_force (ConnectionTimeoutMS config) 10000 <? in_force (RequestTimeoutMS config) 60000).

(** What a configuration asks of the HTTP transport. *)
Definition asked (config : ClientConfiguration) : Http.ClientConfig :=
  Http.mkClientConfig (RedirectDisabled config) (in_force (ConnectionTimeoutMS config) 10000).

(** The messages of the errors NewClientWithConfig returns. *)
Definition refusals : list string :=
  [ "account, apiKey and endpoint missing for creating mochow client";
    "connection and request timeout is negative";
    "request timeout should greater than connection timeout" ]%string.

(** The package variables of http after one NewClientWithConfig for each
    configuration of the list, in order. *)
Definition build_all (rt : Bce.runtime) (configs : list ClientConfiguration)
    (g : Http.globals) : Http.globals :=
  foldl (λ g config, snd (NewClientWithConfig rt config g)) g configs.

Definition sample_runtime : Bce.runtime := Bce.mkRuntime "go1.21" "linux" "amd64".

End Mochow.

(** * Sending a request: client.go *)

Module Sender.

Record BceServiceError : Type := mkBceServiceError {
  Code : Z;
  Message : string;
  RequestID : string;
  StatusCode : Z
}.

(** The errors that SendRequest meets and returns: the error of
    http.Execute, kept as its text, a BceClientError and a
    BceServiceError. *)
Inductive error : Type :=
  | TransportError (text : string)
  | ClientError (msg : string)
  | ServiceError (e : BceServiceError).

(** What one call of http.Execute comes back with: an error, or a response
    with its status code and the service error ParseResponse stores for
    it. *)
Inductive executed : Type :=
  | Failed (text : string)
  | Answered (status : Z) (serviceError : BceServiceError).

(** IsFail *)
Definition IsFail (status : Z) : bool := status >=? 400.

Section Loop.

(** ShouldRetry of the retry policy of the client. *)
Variable ShouldRetry : error → Z → bool.

(** What the call number k (from 0) of http.Execute comes back with. *)
Variable Execute : nat → executed.

(** The for loop of SendRequest from the call number [calls] on, with
    [retries] retries made.  The result is the error returned (None for
    nil) and the number of calls of http.Execute made in all.  The sleeps,
    the log records and the buffering of the body are left out. *)
Fixpoint send_loop (fuel : nat) (retries : Z) (calls : nat) : option (option error * nat) :=
  match fuel with
  | O => None
  | S fuel' =>
      match Execute calls with
      | Failed text =>
          if ShouldRetry (TransportError text) retries
          then send_loop fuel' (retries + 1) (S calls)
          else Some (Some (ClientError
                             ("execute http request failed! Retried "
                              ++ Decimal.itoa retries ++ " times, error: " ++ text)%string),
                     S calls)
      | Answered status serviceError =>
          if IsFail status then
            if ShouldRetry (ServiceError serviceError) retries
            then send_loop fuel' (retries + 1) (S calls)
            else Some (Some (ServiceError serviceError), S calls)
          else Some (None, S calls)
      end
  end.

(** SendRequest for a request whose client error is [clientError]. *)
Definition SendRequest (clientError : option string) (fuel : nat)
    : option (option error * nat) :=
  match clientError with
  | Some msg => Some (Some (ClientError msg), O)
  | None => send_loop fuel 0 O
  end.

(** ** Statements about SendRequest *)

(** The call number [k] failed and the policy, asked with [k] retries
    made, said to retry. *)
Definition retried (k : nat) : bool :=
  match Execute k with
  | Failed text => ShouldRetry (TransportError text) (Z.of_nat k)
  | Answered status serviceError =>
      IsFail status && ShouldRetry (ServiceError serviceError) (Z.of_nat k)
  end.

(** [res] is what the call number [k] settles, being the last one: nil for
    a response that is no failure, the service error of a failing
    response, a client error that tells the [k] retries for an error of
    http.Execute; and in the last two cases the policy said not to
    retry. *)
Definition settles (k : nat) (res : option error) : Prop :=
  match Execute k with
  | Failed text =>
      ShouldRetry (TransportError text) (Z.of_nat k) = false
      ∧ res = Some (ClientError
                      ("execute http request failed! Retried "
                       ++ Decimal.itoa (Z.of_nat k) ++ " times, error: " ++ text)%string)
  | Answered status serviceError =>
      if IsFail status
      then ShouldRetry (ServiceError serviceError) (Z.of_nat k) = false
           ∧ res = Some (ServiceError serviceError)
      else res = None
  end.

(** The policy never says to retry once [n] retries are made. *)
Definition gives_up_at (n : nat) : Prop :=
  ∀ (e : error) (r : Z), Z.of_nat n <= r → ShouldRetry e r = false.

End Loop.

(** A policy of at most three retries and a service that answers the third
    call. *)
Definition three_retries (e : error) (r : Z) : bool := r <? 3.

Definition third_time_lucky (k : nat) : executed :=
  if (k <? 2)%nat then Failed "connection refused"
  else Answered 200 (mkBceServiceError 0 EmptyString EmptyString 0).

End Sender.

(** * Properties *)

(** ** The model at work *)

Example utoa_100 : Decimal.utoa 100 = "100"%string.
Proof. reflexivity. Qed.

Example appendInt_pad : Decimal.appendInt 7 2 = "07"%string.
Proof. reflexivity. Qed.

Example format_ltime :
  GoTime.Format sample_time GoTime.layout_ltime = "2024-03-09 14:05:07.123456"%string.
Proof. reflexivity. Qed.

Example format_zero_day :
  GoTime.Format GoTime.zero GoTime.layout_day = "0001-01-01.log"%string.
Proof. reflexivity. Qed.

Example next_of_9 : getNextFileName "rotating-100B.9.log" = "rotating-100B.10.log"%string.
Proof. reflexivity. Qed.

Example caller_location :
  Str.Base "/go/src/client/client.go" = "client.go"%string
  ∧ Str.TrimPrefix_dot (Str.Ext "github.com/baidu/mochow-sdk-go/client.(*BceClient).SendRequest")
    = "SendRequest"%string.
Proof. split; reflexivity. Qed.

(** Panic queues the record and then panics with it. *)
Example panic_logs_first :
  ∃ l' : logger,
    Panic (SetHandler Handler.Stdout NewLogger) "fatal" sample_time sample_caller
      = Panics l' "fatal"
    ∧ length (buf (writerChan l')) = 1%nat.
Proof. eexists. split; [vm_compute; reflexivity | reflexivity]. Qed.

Example info_record :
  logging (SetHandler Handler.Stdout NewLogger) INFO "hello" sample_time sample_caller
    = Returns
        (set_writerChan
           (push (Some (mkArgs "[INFO] 2024-03-09 14:05:07.123456 client.go:42:SendRequest: hello"
                          (HintTime sample_time)))
              (writerChan NewLogger))
           (SetHandler Handler.Stdout NewLogger)).
Proof. vm_compute. reflexivity. Qed.

(** ** The producer half *)

Lemma push_length {A} (x : A) (c : channel A) :
  length (buf (push x c)) = S (length (buf c)).
Proof. unfold push; simpl. rewrite length_app; simpl; lia. Qed.

Lemma push_changes (l : logger) (j : option writerArgs) :
  set_writerChan (push j (writerChan l)) l ≠ l.
Proof.
  intros H. apply (f_equal (fun x => length (buf (writerChan x)))) in H.
  simpl in H. rewrite length_app in H. simpl in H. lia.
Qed.

Lemma render_level_ok fs level msg now file line funcname :
  is_level level → is_Some (render fs level msg now file line funcname).
Proof.
  intros [Hlo Hhi]. unfold DEBUG, PANIC in *.
  induction fs as [|f rest IH]; simpl; [eauto|].
  destruct (logFmtStr_has f); simpl; [|exact IH].
  destruct IH as [ps ->].
  assert (Hlvl : ∃ s, gLevelString !! Z.to_nat level = Some s).
  { apply lookup_lt_is_Some. simpl. lia. }
  destruct Hlvl as [s ->].
  assert ((0 <=? level) = true) as -> by lia.
  repeat (destruct (String.eqb f _); [eauto|]). eauto.
Qed.

Lemma logging_filtered l level msg now c :
  handler l = Handler.None ∨ level < levelThreshold l →
  logging l level msg now c = Returns l.
Proof.
  intros H. unfold logging.
  destruct H as [-> | H]; [reflexivity|].
  assert ((level <? levelThreshold l) = true) as -> by lia.
  by rewrite orb_true_r.
Qed.

Lemma gate_passes l level :
  handler l ≠ Handler.None → levelThreshold l <= level →
  (handler l =? Handler.None) || (level <? levelThreshold l) = false.
Proof. intros. apply orb_false_iff. split; lia. Qed.

Lemma gate_cases l level :
  (handler l = Handler.None ∨ level < levelThreshold l)
  ∨ (handler l ≠ Handler.None ∧ levelThreshold l <= level).
Proof. destruct (decide (handler l = Handler.None)); [auto|]. lia. Qed.

(** ** Calls as events of a run *)

Lemma logging_job_filtered l level msg now c :
  handler l = Handler.None ∨ level < levelThreshold l →
  logging_job l level msg now c = None.
Proof.
  intros H. unfold logging_job.
  destruct H as [-> | H]; [reflexivity|].
  assert ((level <? levelThreshold l) = true) as -> by lia.
  by rewrite orb_true_r.
Qed.

(** logging is its part before the send, followed by the send. *)
Lemma logging_by_job l level msg now c :
  logging l level msg now c
  = match logging_job l level msg now c with
    | Some job =>
        match chan_send (Some job) (writerChan l) with
        | Returns ch => Returns (set_writerChan ch l)
        | Blocks => Blocks
        | Panics _ why => Panics l why
        end
    | None =>
        if (handler l =? Handler.None) || (level <? levelThreshold l) then Returns l
        else Panics l "index out of range"
    end.
Proof.
  unfold logging, logging_job.
  destruct ((handler l =? Handler.None) || (level <? levelThreshold l)); [done|].
  by destruct (render _ _ _ _ _ _ _).
Qed.

Lemma deliver_nobody (s : system) (i : nat) :
  (length (waiting s) <= i)%nat → deliver i s = s.
Proof. intros Hi. unfold deliver. by rewrite lookup_ge_None_2. Qed.

Lemma deliver_last (v : option writerArgs) (s : system) :
  deliver (length (waiting s)) (arrive v s)
  = match chan_send v (writerChan (lg s)) with
    | Returns ch =>
        mkSys (set_writerChan ch (lg s)) (os s) (backend_alive s) (waiting s) (panics s)
    | Blocks => arrive v s
    | Panics _ why =>
        mkSys (lg s) (os s) (backend_alive s) (waiting s) (panics s ++ [why])
    end.
Proof.
  unfold deliver, arrive. cbn [waiting lg os backend_alive panics].
  rewrite lookup_app_r, Nat.sub_diag by lia. cbn [lookup list_lookup].
  assert (Hdel : delete (length (waiting s)) (waiting s ++ [v]) = waiting s).
  { induction (waiting s) as [|x xs IH]; [done|].
    cbn [length app]. change (delete (S (length xs)) (x :: (xs ++ [v])))
      with (x :: delete (length xs) (xs ++ [v])). by rewrite IH. }
  rewrite Hdel. by destruct (chan_send v (writerChan (lg s))).
Qed.

(** A call of logging in one piece leaves the logger that logging
    leaves, and the files and the goroutine as they were. *)
Lemma step_DoLog (fuel : nat) (s : system) level msg now c :
  ∃ s' : system,
    step fuel s (DoLog level msg now c) = Some s'
    ∧ lg s' = settle (lg s) (logging (lg s) level msg now c)
    ∧ os s' = os s ∧ backend_alive s' = backend_alive s.
Proof.
  eexists. split; [reflexivity|].
  rewrite logging_by_job. unfold enter_logging.
  destruct (logging_job (lg s) level msg now c) as [job|] eqn:Hjob.
  - rewrite deliver_last. by destruct (chan_send _ _).
  - rewrite logging_by_job, Hjob.
    destruct ((handler (lg s) =? Handler.None) || (level <? levelThreshold (lg s)));
      by rewrite deliver_nobody.
Qed.

Lemma step_DoLog_filtered (fuel : nat) (s : system) level msg now c :
  handler (lg s) = Handler.None ∨ level < levelThreshold (lg s) →
  step fuel s (DoLog level msg now c) = Some s.
Proof.
  intros Hgate. cbn [step]. unfold enter_logging.
  rewrite (logging_job_filtered _ _ _ _ _ Hgate), (logging_filtered _ _ _ _ _ Hgate).
  by rewrite deliver_nobody.
Qed.

(** A call of Close in one piece leaves the logger that Close leaves. *)
Lemma step_DoClose (fuel : nat) (s : system) :
  ∃ s' : system,
    step fuel s DoClose = Some s'
    ∧ lg s' = settle (lg s) (Close (lg s))
    ∧ os s' = os s ∧ backend_alive s' = backend_alive s.
Proof.
  eexists. split; [reflexivity|].
  unfold enter_Close, Close.
  destruct (recv_ready (done (lg s))); [by rewrite deliver_nobody|].
  rewrite deliver_last. by destruct (chan_send _ _).
Qed.

(** What a send that is made changes. *)
Lemma deliver_fields (i : nat) (s : system) :
  os (deliver i s) = os s ∧ backend_alive (deliver i s) = backend_alive s
  ∧ (lg (deliver i s) = lg s
     ∨ closed (writerChan (lg s)) = false ∧ has_room (writerChan (lg s)) = true
       ∧ ∃ v, waiting s !! i = Some v
              ∧ lg (deliver i s) = set_writerChan (push v (writerChan (lg s))) (lg s)).
Proof.
  unfold deliver. destruct (waiting s !! i) as [v|]; [|by auto].
  unfold chan_send.
  destruct (closed (writerChan (lg s))) eqn:Hc; [by auto|].
  destruct (has_room (writerChan (lg s))) eqn:Hr; [|by auto].
  cbn [lg os backend_alive]. split; [done|]. split; [done|]. right. eauto.
Qed.

Lemma enter_logging_fields level msg now c (s : system) :
  lg (enter_logging level msg now c s) = lg s
  ∧ os (enter_logging level msg now c s) = os s
  ∧ backend_alive (enter_logging level msg now c s) = backend_alive s.
Proof.
  unfold enter_logging. destruct (logging_job _ _ _ _ _); [done|].
  by destruct (logging _ _ _ _ _).
Qed.

Lemma enter_Close_fields (s : system) :
  lg (enter_Close s) = lg s ∧ os (enter_Close s) = os s
  ∧ backend_alive (enter_Close s) = backend_alive s.
Proof. unfold enter_Close. by destruct (recv_ready _). Qed.

(** What an event of a call changes: nothing of the files and of the
    goroutine, and of the logger nothing, or one value more in an open
    queue that had room. *)
Lemma call_step (fuel : nat) (s s' : system) (a : action) :
  step fuel s a = Some s' →
  match a with
  | DoLog _ _ _ _ | DoClose | DoLogEnter _ _ _ _ | DoCloseEnter | DoSend _ =>
      os s' = os s ∧ backend_alive s' = backend_alive s
      ∧ (lg s' = lg s
         ∨ closed (writerChan (lg s)) = false ∧ has_room (writerChan (lg s)) = true
           ∧ ∃ v, lg s' = set_writerChan (push v (writerChan (lg s))) (lg s))
  | _ => True
  end.
Proof.
  intros Hstep. destruct a; try done; cbn [step] in Hstep; injection Hstep as <-.
  - destruct (enter_logging_fields level msg now c s) as (Hl & Ho & Ha).
    destruct (deliver_fields (length (waiting s)) (enter_logging level msg now c s))
      as (-> & -> & Hd).
    rewrite Hl in Hd. split; [done|]. split; [done|].
    destruct Hd as [-> | (? & ? & v & _ & ->)]; [by left | right; eauto].
  - destruct (enter_Close_fields s) as (Hl & Ho & Ha).
    destruct (deliver_fields (length (waiting s)) (enter_Close s)) as (-> & -> & Hd).
    rewrite Hl in Hd. split; [done|]. split; [done|].
    destruct Hd as [-> | (? & ? & v & _ & ->)]; [by left | right; eauto].
  - destruct (enter_logging_fields level msg now c s) as (-> & -> & ->). auto.
  - destruct (enter_Close_fields s) as (-> & -> & ->). auto.
  - destruct (deliver_fields i s) as (-> & -> & Hd). split; [done|]. split; [done|].
    destruct Hd as [-> | (? & ? & v & _ & ->)]; [by left | right; eauto].
Qed.

(** C10: NewLogger gives a logger with no handler, threshold DEBUG, the
    default format [level, ltime, location, msg] and a queue of capacity
    100; so on a fresh logger a logging call of any level with any message
    returns with the logger unchanged, and a turn of the goroutine after it
    finds nothing to write. *)
Theorem NewLogger_silent :
  handler NewLogger = Handler.None
  ∧ levelThreshold NewLogger = DEBUG
  ∧ logFormat NewLogger = ["level"; "ltime"; "location"; "msg"]%string
  ∧ cap (writerChan NewLogger) = 100%nat
  ∧ buf (writerChan NewLogger) = []
  ∧ ∀ (level : Z) (msg : string) (now : Time) (c : caller),
      logging NewLogger level msg now c = Returns NewLogger
      ∧ ∀ (w : world) (fuel : nat) (pick : bool),
          run fuel (boot w) [DoLog level msg now c; DoBackend pick] = Some (boot w).
Proof.
  do 5 (split; [reflexivity|]).
  intros level msg now c.
  assert (Hret : logging NewLogger level msg now c = Returns NewLogger)
    by (apply logging_filtered; left; reflexivity).
  split; [exact Hret|].
  intros w fuel pick. cbn [run].
  rewrite step_DoLog_filtered by (left; reflexivity). reflexivity.
Qed.

(** The gate decides whether the call comes to its send: it does, with
    one job, exactly when a handler is set and the level is at least the
    threshold. *)
Lemma logging_comes_to_send (l : logger) (level : Z) (msg : string) (now : Time)
    (c : caller) :
  is_level level →
  (is_Some (logging_job l level msg now c)
   ↔ handler l ≠ Handler.None ∧ levelThreshold l <= level).
Proof.
  intros Hlevel. split.
  - intros [job Hjob].
    destruct (gate_cases l level) as [Hno | Hyes]; [|exact Hyes].
    by rewrite (logging_job_filtered _ _ _ _ _ Hno) in Hjob.
  - intros [Hh Ht]. unfold logging_job. rewrite (gate_passes _ _ Hh Ht).
    match goal with |- context [render ?a ?b ?c ?d ?e ?f ?g] =>
      destruct (render_level_ok a b c d e f g Hlevel) as [parts ->] end.
    eauto.
Qed.

(** On an open queue the call that comes to its send queues its job at
    once when there is room, and waits when there is none. *)
Lemma logging_on_open_queue (l : logger) (level : Z) (msg : string) (now : Time)
    (c : caller) (job : writerArgs) :
  closed (writerChan l) = false →
  logging_job l level msg now c = Some job →
  logging l level msg now c
  = if has_room (writerChan l)
    then Returns (set_writerChan
                    (mkChan (buf (writerChan l) ++ [Some job]) (cap (writerChan l)) false) l)
    else Blocks.
Proof.
  intros Hopen Hjob. rewrite logging_by_job, Hjob. unfold chan_send, push.
  rewrite Hopen. by destruct (has_room (writerChan l)).
Qed.

(** A caller that waits makes its send once the open queue has room: its
    value is queued, last, and the caller is gone. *)
Lemma waiting_send_made (i : nat) (s : system) (v : option writerArgs) :
  waiting s !! i = Some v →
  closed (writerChan (lg s)) = false → has_room (writerChan (lg s)) = true →
  ∀ fuel : nat,
    step fuel s (DoSend i)
    = Some (mkSys (set_writerChan
                     (mkChan (buf (writerChan (lg s)) ++ [v]) (cap (writerChan (lg s))) false)
                     (lg s))
              (os s) (backend_alive s) (delete i (waiting s)) (panics s)).
Proof.
  intros Hw Hopen Hroom fuel. cbn [step]. unfold deliver, chan_send, push.
  by rewrite Hw, Hopen, Hroom.
Qed.

(** On an open queue with a free slot the gate of logging is as stated. *)
Lemma logging_gate_with_room (l : logger) (level : Z) (msg : string) (now : Time)
    (c : caller) :
  closed (writerChan l) = false →
  has_room (writerChan l) = true →
  is_level level →
  logging_gate l level msg now c.
Proof.
  intros Hopen Hroom Hlevel. split; [|apply logging_filtered].
  split.
  - intros [job Hjob].
    destruct (gate_cases l level) as [Hno | Hyes]; [|exact Hyes].
    rewrite (logging_filtered _ _ _ _ _ Hno) in Hjob.
    injection Hjob as Hjob. symmetry in Hjob. by apply push_changes in Hjob.
  - intros [Hh Ht]. unfold logging, enqueues_one.
    rewrite (gate_passes _ _ Hh Ht).
    match goal with |- context [render ?a ?b ?c ?d ?e ?f ?g] =>
      destruct (render_level_ok a b c d e f g Hlevel) as [parts ->] end.
    unfold chan_send. rewrite Hopen, Hroom. eauto.
Qed.

(** On a full queue a call that passes the gate waits. *)
Lemma logging_full_blocks (l : logger) (level : Z) (msg : string) (now : Time) (c : caller) :
  closed (writerChan l) = false →
  has_room (writerChan l) = false →
  is_level level →
  handler l ≠ Handler.None → levelThreshold l <= level →
  logging l level msg now c = Blocks.
Proof.
  intros Hopen Hroom Hlevel Hh Ht. unfold logging.
  rewrite (gate_passes _ _ Hh Ht).
  match goal with |- context [render ?a ?b ?c ?d ?e ?f ?g] =>
    destruct (render_level_ok a b c d e f g Hlevel) as [parts ->] end.
  unfold chan_send. by rewrite Hopen, Hroom.
Qed.

(** On a closed queue a call that passes the gate panics. *)
Lemma logging_closed_panics (l : logger) (level : Z) (msg : string) (now : Time) (c : caller) :
  closed (writerChan l) = true →
  is_level level →
  handler l ≠ Handler.None → levelThreshold l <= level →
  logging l level msg now c = Panics l "send on closed channel".
Proof.
  intros Hclosed Hlevel Hh Ht. unfold logging.
  rewrite (gate_passes _ _ Hh Ht).
  match goal with |- context [render ?a ?b ?c ?d ?e ?f ?g] =>
    destruct (render_level_ok a b c d e f g Hlevel) as [parts ->] end.
  unfold chan_send. by rewrite Hclosed.
Qed.

(** C1 does not hold of the code: logging sends on writerChan without a
    look at done.  After Close has been called and the goroutine has
    handled it the queue is closed; a call at INFO on a logger with the
    stdout handler and threshold DEBUG passes the gate, and instead of
    queueing one job it panics: the queue stays empty and the caller is
    left with the panic of a send on a closed channel. *)
Theorem logging_panics_after_shutdown :
  ∃ s s' : system,
    shut_down = Some s
    ∧ handler (lg s) = Handler.Stdout
    ∧ levelThreshold (lg s) = DEBUG
    ∧ closed (writerChan (lg s)) = true
    ∧ logging (lg s) INFO "hello" sample_time sample_caller
        = Panics (lg s) "send on closed channel"
    ∧ ¬ logging_gate (lg s) INFO "hello" sample_time sample_caller
    ∧ step 1 s (DoLog INFO "hello" sample_time sample_caller) = Some s'
    ∧ buf (writerChan (lg s')) = []
    ∧ panics s' = ["send on closed channel"%string].
Proof.
  eexists. eexists. split; [reflexivity|]. cbn [lg].
  split; [reflexivity|]. split; [reflexivity|]. split; [reflexivity|].
  split; [reflexivity|]. split.
  { intros [[_ Hgate] _].
    destruct Hgate as [job Hjob]; [split; [discriminate | vm_compute; discriminate]|].
    vm_compute in Hjob. discriminate Hjob. }
  split; [vm_compute; reflexivity|]. split; reflexivity.
Qed.

(** ** Decimal strings and file names *)

Lemma string_app_assoc (a b c : string) : (a +:+ b) +:+ c = a +:+ (b +:+ c).
Proof. induction a as [|x a IH]; simpl; [reflexivity | by rewrite IH]. Qed.

Lemma has_dot_app (a b : string) :
  Str.has_dot (a +:+ b) = Str.has_dot a || Str.has_dot b.
Proof.
  induction a as [|x a IH]; simpl; [reflexivity|].
  rewrite IH. by rewrite orb_assoc.
Qed.

Lemma cut_dot_app (a b : string) :
  Str.has_dot a = false → Str.cut_dot (a +:+ String Str.dot b) = (a, b).
Proof.
  induction a as [|x a IH]; simpl; intros H.
  - reflexivity.
  - apply orb_false_iff in H as [Hx Ha]. rewrite Hx, (IH Ha). reflexivity.
Qed.

Lemma atoi_go_app (a b : string) (acc : Z) :
  Decimal.atoi_go (a +:+ b) acc = Decimal.atoi_go b (Decimal.atoi_go a acc).
Proof. revert acc. induction a as [|x a IH]; simpl; intros; [reflexivity | apply IH]. Qed.

Lemma digit_char_val (d : Z) :
  0 <= d < 10 →
  Decimal.digit_val (Decimal.digit_char d) = d
  ∧ Ascii.eqb (Decimal.digit_char d) Str.dot = false.
Proof.
  intros H.
  assert (Hd : d = 0 ∨ d = 1 ∨ d = 2 ∨ d = 3 ∨ d = 4 ∨ d = 5 ∨ d = 6 ∨ d = 7
               ∨ d = 8 ∨ d = 9) by lia.
  repeat (destruct Hd as [-> | Hd]; [split; reflexivity|]). subst; split; reflexivity.
Qed.

(** What the digit loop yields: digits in front of the accumulator, no dot
    among them, and read back they give the number. *)
Lemma digits_go_spec (fuel : nat) :
  ∀ (n : Z) (acc : string),
    0 <= n < 2 ^ Z.of_nat fuel →
    ∃ ds : string,
      Decimal.digits_go fuel n acc = ds +:+ acc
      ∧ Str.has_dot ds = false
      ∧ Decimal.atoi_go ds 0 = n.
Proof.
  induction fuel as [|f IH]; intros n acc Hn.
  - exists EmptyString. simpl in *. repeat split; lia.
  - cbn [Decimal.digits_go].
    destruct (digit_char_val (n mod 10)) as [Hval Hdot];
      [apply Z.mod_pos_bound; lia|].
    destruct (n <? 10) eqn:Hlt.
    + exists (String (Decimal.digit_char (n mod 10)) EmptyString).
      cbn [String.append Str.has_dot Decimal.atoi_go]. rewrite Hval, Hdot.
      repeat split. rewrite Z.mul_0_r, Z.add_0_l. apply Z.mod_small. lia.
    + assert (Hq : 0 <= n / 10 < 2 ^ Z.of_nat f).
      { split; [apply Z.div_pos; lia|].
        apply Z.div_lt_upper_bound; [lia|].
        rewrite Nat2Z.inj_succ, Z.pow_succ_r in Hn by lia. lia. }
      destruct (IH (n / 10) (String (Decimal.digit_char (n mod 10)) acc) Hq)
        as (ds & Heq & Hnd & Hat).
      exists (ds +:+ String (Decimal.digit_char (n mod 10)) EmptyString).
      rewrite Heq, string_app_assoc. cbn [String.append]. split; [reflexivity|].
      rewrite has_dot_app, Hnd. cbn [Str.has_dot orb]. rewrite Hdot.
      split; [reflexivity|].
      rewrite atoi_go_app, Hat. cbn [Decimal.atoi_go]. rewrite Hval.
      pose proof (Z.div_mod n 10). lia.
Qed.

Lemma utoa_spec (n : Z) :
  0 <= n → Str.has_dot (Decimal.utoa n) = false ∧ Decimal.atoi (Decimal.utoa n) = n.
Proof.
  intros Hn. unfold Decimal.utoa, Decimal.atoi.
  destruct (digits_go_spec (S (Z.to_nat (Z.log2 n))) n EmptyString) as (ds & Heq & Hnd & Hat).
  - split; [lia|]. rewrite Nat2Z.inj_succ, Z2Nat.id by apply Z.log2_nonneg.
    destruct (decide (n = 0)) as [-> | Hne]; [reflexivity|].
    apply Z.log2_spec. lia.
  - rewrite Heq. assert (ds +:+ EmptyString = ds) as ->.
    { clear. induction ds as [|x ds IH]; simpl; [reflexivity | by rewrite IH]. }
    auto.
Qed.

Lemma itoa_no_dot (n : Z) : Str.has_dot (Decimal.itoa n) = false.
Proof.
  unfold Decimal.itoa. destruct (n <? 0) eqn:Hs.
  - simpl. apply utoa_spec. lia.
  - apply utoa_spec. lia.
Qed.

Lemma getSizeString_no_dot (size : Z) : Str.has_dot (getSizeString size) = false.
Proof. unfold getSizeString. rewrite has_dot_app, itoa_no_dot. reflexivity. Qed.

(** The index that getNextFileName reads out of a name. *)
Lemma rotating_name_cut (sz : string) (i : Z) :
  Str.has_dot sz = false → 0 <= i →
  Str.cut_dot (rotating_name sz i) = (RotateSizeFilePrefix +:+ "-" +:+ sz, Decimal.itoa i +:+ ".log")
  ∧ Str.cut_dot (Decimal.itoa i +:+ ".log") = (Decimal.itoa i, "log"%string)
  ∧ Decimal.atoi (Decimal.itoa i) = i.
Proof.
  intros Hsz Hi.
  assert (Hit : Decimal.itoa i = Decimal.utoa i).
  { unfold Decimal.itoa. assert ((i <? 0) = false) as -> by lia. reflexivity. }
  destruct (utoa_spec i Hi) as [Hnd Hat]. rewrite Hit.
  split; [|split; [|exact Hat]].
  - unfold rotating_name. rewrite Hit.
    change (RotateSizeFilePrefix +:+ "-" +:+ sz +:+ "." +:+ Decimal.utoa i +:+ ".log")
      with (RotateSizeFilePrefix +:+ ("-" +:+ sz +:+ String Str.dot (Decimal.utoa i +:+ ".log"))).
    rewrite <- !string_app_assoc. apply cut_dot_app.
    rewrite !has_dot_app, Hsz. reflexivity.
  - change (Decimal.utoa i +:+ ".log") with (Decimal.utoa i +:+ String Str.dot "log").
    by apply cut_dot_app.
Qed.

(** The next name of a rotating file is the name of the next index. *)
Lemma getNextFileName_rotating (sz : string) (i : Z) :
  Str.has_dot sz = false → 0 <= i →
  getNextFileName (rotating_name sz i) = rotating_name sz (i + 1).
Proof.
  intros Hsz Hi. destruct (rotating_name_cut sz i Hsz Hi) as (H1 & H2 & H3).
  unfold getNextFileName. rewrite H1, H2. fold (Decimal.atoi (Decimal.itoa i)).
  rewrite H3. unfold rotating_name. by rewrite !string_app_assoc.
Qed.

Lemma getNextFileName_candidate (l : logger) (i : nat) :
  getNextFileName (candidate l i) = candidate l (S i).
Proof.
  unfold candidate. rewrite getNextFileName_rotating.
  - by rewrite Nat2Z.inj_succ.
  - apply getSizeString_no_dot.
  - lia.
Qed.

Lemma rotating_name_inj (sz : string) (i j : Z) :
  Str.has_dot sz = false → 0 <= i → 0 <= j →
  rotating_name sz i = rotating_name sz j → i = j.
Proof.
  intros Hsz Hi Hj Heq.
  destruct (rotating_name_cut sz i Hsz Hi) as (Hi1 & Hi2 & Hi3).
  destruct (rotating_name_cut sz j Hsz Hj) as (Hj1 & Hj2 & Hj3).
  rewrite Heq, Hj1 in Hi1. injection Hi1 as Hrest.
  rewrite Hrest, Hi2 in Hj2. injection Hj2 as Hit.
  rewrite <- Hi3, <- Hj3, Hit. reflexivity.
Qed.

Lemma candidate_path_inj (l : logger) (i j : nat) :
  Str.filepath_Join (logDir l) (candidate l i) = Str.filepath_Join (logDir l) (candidate l j) →
  i = j.
Proof.
  unfold Str.filepath_Join, candidate. intros H.
  apply String.app_inj in H. apply (String.app_inj "/") in H.
  apply rotating_name_inj in H; [lia | apply getSizeString_no_dot | lia | lia].
Qed.

(** ** Rotation by size *)

Lemma wrap64_small (z : Z) : - 2 ^ 63 <= z < 2 ^ 63 → wrap64 z = z.
Proof. intros H. unfold wrap64. rewrite Z.mod_small; lia. Qed.

(** One test of the loop, in terms of [accepts]. *)
Lemma probe_step (fuel : nat) (l : logger) (w : world) (hint : Z) (fname : string) :
  no_overflow w hint →
  probe (S fuel) l w hint fname =
    if accepts l w hint fname
    then Some (fname, match on_disk l w fname with None => true | Some _ => false end)
    else probe fuel l w hint (getNextFileName fname).
Proof.
  intros Hno. cbn [probe]. unfold getFileInfo, accepts, on_disk.
  destruct (disk w !! Str.filepath_Join (logDir l) fname) as [sz|] eqn:Hsz; simpl; [|reflexivity].
  unfold add64. rewrite wrap64_small by (eapply Hno; eassumption).
  destruct (sz + hint <=? rotateSize l); reflexivity.
Qed.

(** The loop walks the candidates in order and stops at the first one
    that is accepted. *)
Lemma probe_walk (l : logger) (w : world) (hint : Z) (d : nat) :
  ∀ (k fuel : nat),
    no_overflow w hint →
    (∀ j : nat, (k <= j < k + d)%nat → accepts l w hint (candidate l j) = false) →
    accepts l w hint (candidate l (k + d)) = true →
    (d < fuel)%nat →
    probe fuel l w hint (candidate l k)
      = Some (candidate l (k + d),
              match on_disk l w (candidate l (k + d)) with None => true | Some _ => false end).
Proof.
  induction d as [|d IH]; intros k fuel Hno Hrej Hacc Hfuel;
    (destruct fuel as [|fuel]; [lia|]); rewrite probe_step by assumption.
  - rewrite Nat.add_0_r in *. by rewrite Hacc.
  - rewrite (Hrej k) by lia. rewrite getNextFileName_candidate.
    replace (k + S d)%nat with (S k + d)%nat in * by lia.
    apply IH; [assumption | intros; apply Hrej; lia | assumption | lia].
Qed.

Lemma least_true_upto (p : nat → bool) (n : nat) :
  (∃ m : nat, (m <= n)%nat ∧ p m = true ∧ ∀ j : nat, (j < m)%nat → p j = false)
  ∨ (∀ j : nat, (j <= n)%nat → p j = false).
Proof.
  induction n as [|n [(m & Hm & Hpm & Hmin) | Hall]].
  - destruct (p 0%nat) eqn:H0.
    + left. exists 0%nat. repeat split; [lia | done | intros; lia].
    + right. intros j Hj. by replace j with 0%nat by lia.
  - left. exists m. repeat split; [lia | done | done].
  - destruct (p (S n)) eqn:HS.
    + left. exists (S n). repeat split; [lia | done |]. intros j Hj. apply Hall. lia.
    + right. intros j Hj. destruct (decide (j = S n)) as [-> | Hne]; [done|].
      apply Hall. lia.
Qed.

Lemma least_true (p : nat → bool) (n : nat) :
  p n = true →
  ∃ m : nat, (m <= n)%nat ∧ p m = true ∧ ∀ j : nat, (j < m)%nat → p j = false.
Proof.
  intros Hn. destruct (least_true_upto p n) as [H | Hall]; [exact H|].
  rewrite Hall in Hn by lia. discriminate.
Qed.

(** A directory holds finitely many files, so some candidate among the
    first [size (disk w) + 1] is not on disk. *)
Lemma some_candidate_absent (l : logger) (w : world) :
  ∃ i : nat, (i <= size (disk w))%nat ∧ on_disk l w (candidate l i) = None.
Proof.
  set (path := λ i : nat, Str.filepath_Join (logDir l) (candidate l i)).
  set (paths := path <$> seq 0 (S (size (disk w)))).
  assert (Hinj : Inj (=) (=) path) by (intros i j; apply candidate_path_inj).
  assert (Hnodup : NoDup paths) by (apply NoDup_fmap_2; [done | apply NoDup_seq]).
  destruct (decide (Forall (λ p, p ∈ dom (disk w)) paths)) as [Hall | Hnot].
  - exfalso.
    assert (Hsub : (list_to_set paths : gset string) ⊆ dom (disk w)).
    { intros p Hp. apply elem_of_list_to_set in Hp.
      rewrite Forall_forall in Hall. by apply Hall. }
    apply subseteq_size in Hsub.
    rewrite size_list_to_set, size_dom in Hsub by done.
    unfold paths in Hsub. rewrite length_fmap, length_seq in Hsub. lia.
  - apply not_Forall_Exists in Hnot; [|intros p; apply _].
    apply Exists_exists in Hnot as (p & Hin & Hp).
    apply list_elem_of_fmap in Hin as (i & -> & Hi).
    apply elem_of_seq in Hi.
    exists i. split; [lia|]. unfold on_disk. by apply not_elem_of_dom.
Qed.

Lemma first_accepted (l : logger) (w : world) (hint : Z) :
  ∃ i : nat,
    (i <= size (disk w))%nat
    ∧ accepts l w hint (candidate l i) = true
    ∧ ∀ j : nat, (j < i)%nat → accepts l w hint (candidate l j) = false.
Proof.
  destruct (some_candidate_absent l w) as (n & Hn & Habs).
  destruct (least_true (λ i, accepts l w hint (candidate l i)) n) as (m & Hm & Hacc & Hmin).
  - unfold accepts. by rewrite Habs.
  - exists m. repeat split; [lia | done | done].
Qed.

(** What the reference procedure prescribes is unique. *)
Lemma reference_by_size_unique (l : logger) (w : world) (hint : Z) (r1 r2 : string * bool) :
  reference_by_size l w hint r1 → reference_by_size l w hint r2 → r1 = r2.
Proof.
  unfold reference_by_size. destruct (decide (logFile l = EmptyString)).
  - intros (i & Hi & Hmi & ->) (j & Hj & Hmj & ->).
    assert (i = j) as ->; [|reflexivity].
    destruct (lt_eq_lt_dec i j) as [[Hlt | Heq] | Hgt]; [|done|].
    + rewrite (Hmj i Hlt) in Hi. discriminate.
    + rewrite (Hmi j Hgt) in Hj. discriminate.
  - destruct (on_disk l w (logFile l)); [|congruence].
    destruct (decide _); congruence.
Qed.

Lemma logFile_empty_length (l : logger) :
  (String.length (logFile l) =? 0)%nat = bool_decide (logFile l = EmptyString).
Proof. destruct (logFile l); reflexivity. Qed.

(** C2: under RotateSize the decision of buildFileWriterBySize is the one of
    the reference procedure.  With no file name recorded it is the first
    candidate rotating-<size>.0.log, rotating-<size>.1.log, ... that is not on
    disk (needNewFile true) or is on disk with size + hintBytes <= maxSize
    (needNewFile false); with a name recorded it is (same name, true) when
    the file is gone, (next name, true) when size + hintBytes > maxSize and
    (same name, false) otherwise; the next name of a rotating file is the
    one of the next index.  The loop ends within one more test than there
    are files on disk.  The sum size + hintBytes is taken not to wrap. *)
Theorem buildFileWriterBySize_reference (l : logger) (w : world) (hintBytes : Z) :
  no_overflow w hintBytes →
  ∃ res : string * bool,
    reference_by_size l w hintBytes res
    ∧ (∀ r : string * bool, reference_by_size l w hintBytes r → r = res)
    ∧ (∀ fuel : nat, (size (disk w) < fuel)%nat →
         buildFileWriterBySize fuel l w hintBytes = Some res)
    ∧ (∀ i : nat, getNextFileName (candidate l i) = candidate l (S i)).
Proof.
  intros Hno.
  assert (Hex : ∃ res, reference_by_size l w hintBytes res
                       ∧ ∀ fuel, (size (disk w) < fuel)%nat →
                           buildFileWriterBySize fuel l w hintBytes = Some res).
  { unfold reference_by_size, buildFileWriterBySize.
    rewrite logFile_empty_length.
    destruct (decide (logFile l = EmptyString)) as [Hemp | Hrec].
    - rewrite bool_decide_eq_true_2 by done.
      destruct (first_accepted l w hintBytes) as (i & Hi & Hacc & Hmin).
      eexists. split; [exists i; eauto|].
      intros fuel Hfuel.
      change (RotateSizeFilePrefix +:+ "-" +:+ getSizeString (rotateSize l) +:+ ".0.log")
        with (candidate l 0).
      apply (probe_walk l w hintBytes i 0 fuel); [done | | done | lia].
      intros j Hj. apply Hmin. lia.
    - rewrite bool_decide_eq_false_2 by done.
      unfold getFileInfo, on_disk.
      destruct (disk w !! Str.filepath_Join (logDir l) (logFile l)) as [sz|] eqn:Hsz; simpl.
      + unfold add64. rewrite wrap64_small by (eapply Hno; eassumption).
        destruct (decide (sz + hintBytes > rotateSize l)) as [Hgt | Hle].
        * eexists; split; [reflexivity|]. intros _ _.
          assert ((sz + hintBytes >? rotateSize l) = true) as -> by lia. reflexivity.
        * eexists; split; [reflexivity|]. intros _ _.
          assert ((sz + hintBytes >? rotateSize l) = false) as -> by lia. reflexivity.
      + eexists; split; [reflexivity|]. reflexivity. }
  destruct Hex as (res & Href & Hcode). exists res.
  split; [done|]. split; [|split; [done | apply getNextFileName_candidate]].
  intros r Hr. by apply (reference_by_size_unique l w hintBytes).
Qed.

Lemma buildFileWriterBySize_reference_witness :
  no_overflow two_rotated 30
  ∧ reference_by_size size_logger two_rotated 30 ("rotating-100B.1.log"%string, false).
Proof.
  assert (Hno : no_overflow two_rotated 30).
  { intros path sz H. unfold two_rotated in H. cbn [disk] in H.
    apply lookup_insert_Some in H as [[_ <-] | [_ H]]; [lia|].
    apply lookup_insert_Some in H as [[_ <-] | [_ H]]; [lia|].
    by rewrite lookup_empty in H. }
  split; [exact Hno|].
  destruct (buildFileWriterBySize_reference size_logger two_rotated 30 Hno)
    as (res & Href & _ & Hcode & _).
  assert (Hfuel : (size (disk two_rotated) < 3)%nat) by (vm_compute; lia).
  specialize (Hcode 3%nat Hfuel). vm_compute in Hcode.
  injection Hcode as <-. exact Href.
Defined.

(** ** Rotation by calendar and without rotation *)

Ltac layout_eq :=
  unfold calendar_name, date_text, GoTime.layout_day, GoTime.layout_hour,
    GoTime.layout_minute, GoTime.date_chunks;
  cbv [RotateDay RotateHour RotateMinute Z.eqb Pos.eqb];
  cbn [GoTime.Format GoTime.format_chunk app];
  rewrite !string_app_assoc; reflexivity.

Lemma format_day (t : Time) :
  GoTime.Format t GoTime.layout_day = calendar_name RotateDay t.
Proof. layout_eq. Qed.

Lemma format_hour (t : Time) :
  GoTime.Format t GoTime.layout_hour = calendar_name RotateHour t.
Proof. layout_eq. Qed.

Lemma format_minute (t : Time) :
  GoTime.Format t GoTime.layout_minute = calendar_name RotateMinute t.
Proof. layout_eq. Qed.

(** The defaults touch the directory, the strategy and the ceiling only. *)
Lemma fileDefaults_rotateType (l : logger) :
  rotateType (fileDefaults l)
    = if (rotateType l <? RotateNone) || (rotateType l >? RotateSize)
      then RotateHour else rotateType l.
Proof.
  unfold fileDefaults.
  destruct (String.length (logDir l) =? 0)%nat; cbn [rotateType SetLogDir];
    destruct ((rotateType l <? RotateNone) || (rotateType l >? RotateSize));
    cbn [rotateType SetRotateType];
    match goal with |- context [if ?b then _ else _] => destruct b end; reflexivity.
Qed.

Lemma fileDefaults_fields (l : logger) :
  writers (fileDefaults l) = writers l
  ∧ writerChan (fileDefaults l) = writerChan l
  ∧ handler (fileDefaults l) = handler l
  ∧ logFile (fileDefaults l) = logFile l
  ∧ done (fileDefaults l) = done l
  ∧ logFormat (fileDefaults l) = logFormat l
  ∧ levelThreshold (fileDefaults l) = levelThreshold l.
Proof.
  unfold fileDefaults.
  destruct (String.length (logDir l) =? 0)%nat; cbn [rotateType SetLogDir];
    destruct ((rotateType l <? RotateNone) || (rotateType l >? RotateSize));
    cbn [rotateType SetRotateType];
    match goal with |- context [if ?b then _ else _] => destruct b end;
    repeat split; reflexivity.
Qed.

Lemma fileDefaults_logDir (l : logger) :
  logDir (fileDefaults l)
    = if (String.length (logDir l) =? 0)%nat then DefaultLogDir else logDir l.
Proof.
  unfold fileDefaults.
  destruct (String.length (logDir l) =? 0)%nat; cbn [rotateType SetLogDir];
    destruct ((rotateType l <? RotateNone) || (rotateType l >? RotateSize));
    cbn [rotateType SetRotateType];
    match goal with |- context [if ?b then _ else _] => destruct b end; reflexivity.
Qed.

Lemma fileDefaults_valid (l : logger) :
  RotateNone <= rotateType l <= RotateSize →
  rotateType (fileDefaults l) = rotateType l.
Proof.
  intros H. rewrite fileDefaults_rotateType.
  unfold RotateNone, RotateSize in *.
  assert (((rotateType l <? 0) || (rotateType l >? 4)) = false) as ->
    by (apply orb_false_iff; lia).
  reflexivity.
Qed.

Lemma is_calendar_valid (r : Z) : is_calendar r → RotateNone <= r <= RotateSize.
Proof.
  unfold is_calendar, RotateNone, RotateDay, RotateHour, RotateMinute, RotateSize. lia.
Qed.

Lemma openTarget_logFile (l : logger) (w : world) (name : string) (need : bool) :
  logFile (openTarget l w name need).1.1 = name
  ∧ rotateType (openTarget l w name need).1.1 = rotateType l
  ∧ writers (openTarget l w name need).1.1 = writers l
  ∧ writerChan (openTarget l w name need).1.1 = writerChan l
  ∧ done (openTarget l w name need).1.1 = done l
  ∧ handler (openTarget l w name need).1.1 = handler l.
Proof.
  unfold openTarget.
  repeat match goal with
         | |- context [match ?x with _ => _ end] => destruct x
         end; repeat split; reflexivity.
Qed.

Lemma rotation_calendar_eq (fuel : nat) (l : logger) (w : world) (args : rotate_hint) :
  is_calendar (rotateType l) →
  rotation fuel l w args
    = Some (calendar_name (rotateType l) (hint_time args),
            absent l w (calendar_name (rotateType l) (hint_time args))).
Proof.
  intros Hcal. unfold rotation, absent, on_disk, getFileInfo, hint_time.
  destruct Hcal as [-> | [-> | ->]]; cbn [Z.eqb RotateSize RotateDay RotateHour RotateMinute RotateNone
                                           Pos.eqb];
    rewrite ?format_day, ?format_hour, ?format_minute;
    match goal with |- context [disk w !! ?p] => destruct (disk w !! p) end; reflexivity.
Qed.

(** C6: under RotateDay, RotateHour and RotateMinute the file name is the
    time of the hint formatted as YYYY-MM-DD.log, YYYY-MM-DD_HH.log and
    YYYY-MM-DD_HH-MM.log, and a new file is asked for exactly when no file of
    that name is in the log directory; buildFileWriter records that name. *)
Theorem rotation_calendar (fuel : nat) (l : logger) (w : world) (t : Time) :
  is_calendar (rotateType l) →
  ∃ (name : string) (needNewFile : bool),
    rotation fuel l w (HintTime t) = Some (name, needNewFile)
    ∧ name = calendar_name (rotateType l) t
    ∧ (needNewFile = true ↔ disk w !! Str.filepath_Join (logDir l) name = None)
    ∧ (Handler.has (handler l) Handler.File = true →
       ∃ (l' : logger) (w' : world) (f : writer),
         buildFileWriter fuel l w (HintTime t) = Some (l', w', f)
         ∧ logFile l' = calendar_name (rotateType l) t).
Proof.
  intros Hcal. do 2 eexists. split; [by apply rotation_calendar_eq|].
  split; [reflexivity|]. split.
  - unfold absent, on_disk. simpl. destruct (disk w !! _); split; congruence.
  - intros Hfile. unfold buildFileWriter. rewrite Hfile. simpl.
    assert (Hrt : rotateType (fileDefaults l) = rotateType l)
      by (by apply fileDefaults_valid, is_calendar_valid).
    rewrite rotation_calendar_eq by (by rewrite Hrt).
    rewrite Hrt.
    match goal with |- context [openTarget ?a ?b ?c ?d] =>
      pose proof (openTarget_logFile a b c d) as (Hname & _);
      destruct (openTarget a b c d) as [[l' w'] f]
    end.
    exists l', w', f. split; [reflexivity | exact Hname].
Qed.

Lemma rotation_calendar_witness :
  is_calendar (rotateType (SetRotateType RotateMinute file_logger))
  ∧ rotation 1 (SetRotateType RotateMinute file_logger) empty_world (HintTime sample_time)
      = Some ("2024-03-09_14-05.log"%string, true).
Proof.
  assert (Hcal : is_calendar (rotateType (SetRotateType RotateMinute file_logger)))
    by (right; right; reflexivity).
  split; [exact Hcal|].
  destruct (rotation_calendar 1 (SetRotateType RotateMinute file_logger) empty_world
              sample_time Hcal) as (name & need & Hrot & _).
  rewrite Hrot. vm_compute in Hrot. injection Hrot as <- <-. reflexivity.
Defined.

(** C5, as amended: under RotateNone the file name is always default.log,
    and a new file is asked for exactly when no file default.log is in the
    log directory at the time of the decision. *)
Theorem rotation_none (fuel : nat) (l : logger) (w : world) (args : rotate_hint) :
  rotateType l = RotateNone →
  ∃ needNewFile : bool,
    rotation fuel l w args = Some ("default.log"%string, needNewFile)
    ∧ (needNewFile = true
       ↔ disk w !! Str.filepath_Join (logDir l) "default.log" = None).
Proof.
  intros Hrt. exists (absent l w "default.log").
  unfold rotation, absent, on_disk, getFileInfo. rewrite Hrt.
  cbv [RotateNone RotateSize Z.eqb].
  destruct (disk w !! Str.filepath_Join (logDir l) "default.log");
    (split; [reflexivity|]); cbn [negb]; split; congruence.
Qed.

Lemma rotation_none_witness :
  rotateType file_logger = RotateNone
  ∧ rotation 1 file_logger empty_world (HintTime sample_time)
      = Some ("default.log"%string, true).
Proof.
  split; [reflexivity|].
  destruct (rotation_none 1 file_logger empty_world (HintTime sample_time) eq_refl)
    as (need & Hrot & Hneed).
  rewrite Hrot. f_equal. f_equal. apply Hneed. reflexivity.
Defined.

(** C5 fails as stated: a logger under RotateNone has recorded the name
    default.log; its directory is then set to one that has no such file,
    and the next decision asks for a new file although a name is recorded. *)
Lemma rotation_none_not_first_time :
  ∃ s : system,
    moved_dir = Some s
    ∧ rotateType (lg s) = RotateNone
    ∧ logFile (lg s) = "default.log"%string
    ∧ rotation 1 (lg s) (os s) (HintTime sample_time) = Some ("default.log"%string, true)
    ∧ ¬ rotate_none_first_time_only 1 (lg s) (os s) (HintTime sample_time).
Proof.
  eexists. split; [vm_compute; reflexivity|].
  split; [reflexivity|]. split; [reflexivity|]. split; [vm_compute; reflexivity|].
  intros (need & Hrot & Honly). vm_compute in Hrot.
  injection Hrot as <-. specialize (Honly eq_refl). discriminate Honly.
Qed.

(** ** The destinations *)

Lemma same_file_config_refl (l : logger) : same_file_config l l.
Proof. by repeat split. Qed.

Lemma probe_ext (fuel : nat) (l l' : logger) (w : world) (hint : Z) :
  same_file_config l l' →
  ∀ fname : string, probe fuel l w hint fname = probe fuel l' w hint fname.
Proof.
  intros (Hd & _ & _ & Hs). induction fuel as [|fuel IH]; intros fname; [reflexivity|].
  cbn [probe]. rewrite Hd, Hs, IH. reflexivity.
Qed.

Lemma rotation_ext (fuel : nat) (l l' : logger) (w : world) (args : rotate_hint) :
  same_file_config l l' → rotation fuel l w args = rotation fuel l' w args.
Proof.
  intros Hsame. pose proof Hsame as (Hd & Hf & Ht & Hs).
  unfold rotation, buildFileWriterBySize.
  rewrite (probe_ext fuel l l' w _ Hsame), Hd, Hf, Ht, Hs. reflexivity.
Qed.

Lemma fileDefaults_rotateSize (l : logger) :
  rotateSize (fileDefaults l)
    = if ((if (rotateType l <? RotateNone) || (rotateType l >? RotateSize)
           then RotateHour else rotateType l) =? RotateSize) && (rotateSize l =? 0)
      then DefaultRotateSize else rotateSize l.
Proof.
  unfold fileDefaults.
  destruct (String.length (logDir l) =? 0)%nat; cbn [rotateType SetLogDir];
    destruct ((rotateType l <? RotateNone) || (rotateType l >? RotateSize));
    cbn [rotateType rotateSize SetRotateType SetLogDir];
    try reflexivity;
    match goal with |- context [if ?b then _ else _] => destruct b end; reflexivity.
Qed.

Lemma fileDefaults_ext (l l' : logger) :
  same_file_config l l' → same_file_config (fileDefaults l) (fileDefaults l').
Proof.
  intros (Hd & Hf & Ht & Hs). unfold same_file_config.
  destruct (fileDefaults_fields l) as (_ & _ & _ & -> & _).
  destruct (fileDefaults_fields l') as (_ & _ & _ & -> & _).
  rewrite !fileDefaults_logDir, !fileDefaults_rotateType, !fileDefaults_rotateSize,
    Hd, Ht, Hs.
  by repeat split.
Qed.

(** The defaults commute with a change of the destinations. *)
Lemma fileDefaults_set_writers (v : gmap Z writer) (l : logger) :
  fileDefaults (set_writers v l) = set_writers v (fileDefaults l).
Proof.
  destruct l as [ws ch fm th h dir file rt sz dn].
  unfold fileDefaults, set_writers, SetLogDir.
  cbn [writers writerChan logFormat levelThreshold handler logDir logFile rotateType
       rotateSize done].
  destruct (String.length dir =? 0)%nat;
    unfold SetRotateType;
    cbn [writers writerChan logFormat levelThreshold handler logDir logFile rotateType
         rotateSize done];
    destruct ((rt <? RotateNone) || (rt >? RotateSize));
    cbn [writers writerChan logFormat levelThreshold handler logDir logFile rotateType
         rotateSize done];
    match goal with |- context [if ?b then _ else _] => destruct b end; reflexivity.
Qed.

Lemma openTarget_set_writers (v : gmap Z writer) (l : logger) (w : world)
    (name : string) (need : bool) :
  v !! Handler.File = writers l !! Handler.File →
  openTarget (set_writers v l) w name need
    = (set_writers v (openTarget l w name need).1.1,
       (openTarget l w name need).1.2, (openTarget l w name need).2).
Proof.
  intros Hv. unfold openTarget. cbn [writers set_logFile set_writers logDir logFile].
  rewrite Hv.
  repeat match goal with
         | |- context [match ?x with _ => _ end] => destruct x
         end; reflexivity.
Qed.

Lemma buildFileWriter_set_writers (fuel : nat) (v : gmap Z writer) (l : logger)
    (w : world) (args : rotate_hint) :
  v !! Handler.File = writers l !! Handler.File →
  buildFileWriter fuel (set_writers v l) w args
    = match buildFileWriter fuel l w args with
      | Some (l', w', f) => Some (set_writers v l', w', f)
      | None => None
      end.
Proof.
  intros Hv. unfold buildFileWriter. cbn [handler set_writers].
  destruct (Handler.has (handler l) Handler.File); cbn [negb]; [|reflexivity].
  rewrite fileDefaults_set_writers.
  rewrite (rotation_ext fuel (set_writers v (fileDefaults l)) (fileDefaults l))
    by (by repeat split).
  destruct (rotation fuel (fileDefaults l) w args) as [[name need]|]; [|reflexivity].
  rewrite openTarget_set_writers
    by (by destruct (fileDefaults_fields l) as (-> & _)).
  destruct (openTarget (fileDefaults l) w name need) as [[l' w'] f]. reflexivity.
Qed.

Lemma console_writers_file (l : logger) :
  console_writers l !! Handler.File = writers l !! Handler.File.
Proof.
  unfold console_writers.
  destruct (Handler.has (handler l) Handler.Stdout),
           (Handler.has (handler l) Handler.Stderr);
    repeat first [ rewrite lookup_insert_ne by (vm_compute; discriminate)
                 | rewrite lookup_delete_ne by (vm_compute; discriminate) ];
    reflexivity.
Qed.

(** buildWriter is buildFileWriter on the logger given, with the writer it
    returns stored as the file destination. *)
Lemma buildWriter_file (fuel : nat) (l : logger) (w : world) (args : rotate_hint) :
  Handler.has (handler l) Handler.File = true →
  buildWriter fuel l w args
    = match buildFileWriter fuel l w args with
      | Some (l', w', f) =>
          Some (set_writers (<[Handler.File := f]> (console_writers l)) l', w')
      | None => None
      end.
Proof.
  intros Hfile. unfold buildWriter.
  assert (Heq : ∀ b1 b2 : bool,
    (let l1 := if b1 then set_writers (<[Handler.Stdout := os_Stdout]> (writers l)) l
               else set_writers (delete Handler.Stdout (writers l)) l in
     if b2 then set_writers (<[Handler.Stderr := os_Stderr]> (writers l1)) l1
     else set_writers (delete Handler.Stderr (writers l1)) l1)
    = set_writers
        (if b2
         then <[Handler.Stderr := os_Stderr]>
                (if b1 then <[Handler.Stdout := os_Stdout]> (writers l)
                 else delete Handler.Stdout (writers l))
         else delete Handler.Stderr
                (if b1 then <[Handler.Stdout := os_Stdout]> (writers l)
                 else delete Handler.Stdout (writers l))) l)
    by (intros [] []; reflexivity).
  cbv zeta in *.
  assert (Hh : ∀ b v, handler (if b : bool then set_writers v l
                               else set_writers (delete Handler.Stdout (writers l)) l)
                      = handler l) by (intros [] ?; reflexivity).
  rewrite Hh, Heq. fold (console_writers l). cbn [handler set_writers].
  rewrite Hfile.
  rewrite buildFileWriter_set_writers by apply console_writers_file.
  destruct (buildFileWriter fuel l w args) as [[[l' w'] f]|]; reflexivity.
Qed.

Lemma buildFileWriter_fields (fuel : nat) (l l' : logger) (w w' : world)
    (args : rotate_hint) (f : writer) :
  buildFileWriter fuel l w args = Some (l', w', f) →
  writerChan l' = writerChan l ∧ done l' = done l ∧ handler l' = handler l
  ∧ writers l' = writers l.
Proof.
  unfold buildFileWriter.
  destruct (negb (Handler.has (handler l) Handler.File)); [by intros [= <- <- <-]|].
  destruct (rotation fuel (fileDefaults l) w args) as [[name need]|]; [|done].
  intros [= H].
  destruct (openTarget_logFile (fileDefaults l) w name need) as (_ & _ & Hw & Hc & Hd & Hh).
  destruct (fileDefaults_fields l) as (Hw' & Hc' & Hh' & _ & Hd' & _).
  rewrite H in *. cbn [fst] in *. repeat split; congruence.
Qed.

Lemma buildWriter_fields (fuel : nat) (l l' : logger) (w w' : world) (args : rotate_hint) :
  buildWriter fuel l w args = Some (l', w') →
  writerChan l' = writerChan l ∧ done l' = done l ∧ handler l' = handler l.
Proof.
  destruct (Handler.has (handler l) Handler.File) eqn:Hfile.
  - rewrite buildWriter_file by done.
    destruct (buildFileWriter fuel l w args) as [[[l1 w1] f]|] eqn:Hb; [|done].
    intros [= <- <-]. apply buildFileWriter_fields in Hb as (? & ? & ? & _).
    repeat split; assumption.
  - unfold buildWriter. cbv zeta.
    destruct (Handler.has (handler l) Handler.Stdout); cbn [handler set_writers];
      destruct (Handler.has (handler l) Handler.Stderr); cbn [handler set_writers];
      rewrite Hfile; intros [= <- <-]; repeat split.
Qed.

(** The loop ends at the latest at a candidate that is not on disk. *)
Lemma probe_total (l : logger) (w : world) (hint : Z) (d : nat) :
  ∀ (k fuel : nat),
    on_disk l w (candidate l (k + d)) = None →
    (d < fuel)%nat →
    is_Some (probe fuel l w hint (candidate l k)).
Proof.
  induction d as [|d IH]; intros k fuel Habs Hfuel;
    (destruct fuel as [|fuel]; [lia|]); cbn [probe]; unfold getFileInfo.
  - rewrite Nat.add_0_r in Habs. unfold on_disk in Habs. rewrite Habs. cbn [negb]. eauto.
  - destruct (disk w !! _) as [sz|]; cbn [negb andb]; [|eauto].
    destruct (add64 sz hint <=? rotateSize l); [eauto|].
    rewrite getNextFileName_candidate. apply IH; [|lia].
    by replace (S k + d)%nat with (k + S d)%nat by lia.
Qed.

(** The rotation decision is reached once the bound exceeds the number
    of files on disk. *)
Lemma rotation_total (fuel : nat) (l : logger) (w : world) (args : rotate_hint) :
  (size (disk w) < fuel)%nat → is_Some (rotation fuel l w args).
Proof.
  intros Hfuel. unfold rotation. destruct (rotateType l =? RotateSize).
  - unfold buildFileWriterBySize. destruct (String.length (logFile l) =? 0)%nat.
    + destruct (some_candidate_absent l w) as (i & Hi & Habs).
      change (RotateSizeFilePrefix +:+ "-" +:+ getSizeString (rotateSize l) +:+ ".0.log")
        with (candidate l 0).
      apply (probe_total l w _ i 0 fuel); [exact Habs | lia].
    + destruct (getFileInfo w _) as [sz []]; cbn [negb]; [|eauto].
      destruct (add64 sz _ >? rotateSize l); eauto.
  - destruct (getFileInfo w _) as [sz ex]. eauto.
Qed.

Lemma buildWriter_total (fuel : nat) (l : logger) (w : world) (args : rotate_hint) :
  (size (disk w) < fuel)%nat → is_Some (buildWriter fuel l w args).
Proof.
  intros Hfuel. destruct (Handler.has (handler l) Handler.File) eqn:Hfile.
  - rewrite buildWriter_file by done. unfold buildFileWriter. rewrite Hfile. cbn [negb].
    destruct (rotation_total fuel (fileDefaults l) w args Hfuel) as [[name need] ->].
    destruct (openTarget _ _ _ _) as [[l' w'] f]. eauto.
  - unfold buildWriter. cbv zeta.
    destruct (Handler.has (handler l) Handler.Stdout); cbn [handler set_writers];
      destruct (Handler.has (handler l) Handler.Stderr); cbn [handler set_writers];
      rewrite Hfile; eauto.
Qed.

(** A turn of the goroutine ends once the bound exceeds the number of
    files on disk. *)
Lemma backend_turn_total (fuel : nat) (pick : bool) (s : system) :
  (size (disk (os s)) < fuel)%nat → is_Some (backend_turn fuel pick s).
Proof.
  intros Hfuel. unfold backend_turn.
  destruct (negb (backend_alive s)); [eauto|].
  destruct (_ && _); [eauto|].
  destruct (chan_recv None (writerChan (lg s))) as [[[job|] ch]|]; [| |eauto].
  - destruct (buildWriter_total fuel (set_writerChan ch (lg s)) (os s) (rotateArgs job) Hfuel)
      as [[l2 w2] ->]. eauto.
  - destruct (chan_close _); [|eauto]. destruct (chan_close _); eauto.
Qed.

Lemma probe_false_on_disk (fuel : nat) (l : logger) (w : world) (hint : Z) :
  ∀ (fname name : string),
    probe fuel l w hint fname = Some (name, false) → is_Some (on_disk l w name).
Proof.
  induction fuel as [|fuel IH]; intros fname name; [done|].
  cbn [probe]. unfold getFileInfo, on_disk.
  destruct (disk w !! Str.filepath_Join (logDir l) fname) as [sz|] eqn:Hsz;
    cbn [negb andb]; [|done].
  destruct (add64 sz hint <=? rotateSize l).
  - intros [= <-]. by rewrite Hsz.
  - apply IH.
Qed.

(** A decision to keep the file is made only for a file that is on disk. *)
Lemma rotation_false_on_disk (fuel : nat) (l : logger) (w : world) (args : rotate_hint)
    (name : string) :
  rotation fuel l w args = Some (name, false) → is_Some (on_disk l w name).
Proof.
  unfold rotation. destruct (rotateType l =? RotateSize).
  - unfold buildFileWriterBySize. destruct (String.length (logFile l) =? 0)%nat.
    + apply probe_false_on_disk.
    + unfold getFileInfo, on_disk.
      destruct (disk w !! Str.filepath_Join (logDir l) (logFile l)) as [sz|] eqn:Hsz;
        cbn [negb]; [|done].
      destruct (add64 sz _ >? rotateSize l); [done|].
      intros [= <-]. by rewrite Hsz.
  - unfold getFileInfo, on_disk.
    match goal with |- context [disk w !! ?p] => destruct (disk w !! p) eqn:Hsz end;
      cbn [negb]; [|done].
    intros [= <-]. eexists. exact Hsz.
Qed.

Lemma set_writerChan_same (q : channel (option writerArgs)) (l : logger) :
  set_writerChan (writerChan l) (set_writerChan q l) = l.
Proof. by destruct l. Qed.

(** The turn of the goroutine that takes a job from the queue: the
    destinations are built and the record is written to each. *)
Lemma backend_turn_job (fuel : nat) (pick : bool) (l : logger) (w : world)
    (q : channel (option writerArgs)) (job : writerArgs) :
  chan_recv None q = Some (Some job, writerChan l) →
  recv_ready (done l) = false →
  backend_turn fuel pick (mkSystem (set_writerChan q l) w true)
    = match buildWriter fuel l w (rotateArgs job) with
      | Some (l2, w2) => Some (mkSystem l2 (write_all l2 (record job) w2) true)
      | None => None
      end.
Proof.
  intros Hrecv Hdone. unfold backend_turn, mkSystem, at_state.
  cbn [backend_alive negb lg os done set_writerChan writerChan waiting panics].
  rewrite Hdone, Hrecv. cbn [andb]. rewrite set_writerChan_same. reflexivity.
Qed.

Lemma openTarget_false (l : logger) (w : world) (name : string) :
  openTarget l w name false
    = match writers l !! Handler.File with
      | Some old => (set_logFile name l, w, old)
      | None =>
          if decide (Str.filepath_Join (logDir l) name ∈ locked w)
          then (set_logFile name l, w, os_Stderr)
          else
            match disk w !! Str.filepath_Join (logDir l) name with
            | Some _ =>
                (set_logFile name l, opened (Str.filepath_Join (logDir l) name) w,
                 os_File (next_file w))
            | None => (set_logFile name l, w, os_Stderr)
            end
      end.
Proof.
  unfold openTarget, os_OpenFile_append, opened.
  cbn [writers logDir logFile set_logFile].
  destruct (writers l !! Handler.File); [reflexivity|].
  destruct (decide _); [reflexivity|].
  destruct (disk w !! _); reflexivity.
Qed.

Lemma previous_closed_same (l : logger) (w : world) :
  locked (previous_closed l w) = locked w
  ∧ next_file (previous_closed l w) = next_file w
  ∧ disk (previous_closed l w) = disk w.
Proof. unfold previous_closed. destruct (writers l !! Handler.File) as [[| |h]|]; done. Qed.

Lemma openTarget_true (l : logger) (w : world) (name : string) :
  openTarget l w name true
    = if decide (Str.filepath_Join (logDir l) name ∈ locked w)
      then (set_logFile name l, previous_closed l w, os_Stderr)
      else (set_logFile name l,
            created (Str.filepath_Join (logDir l) name) (previous_closed l w),
            os_File (next_file w)).
Proof.
  destruct (previous_closed_same l w) as (Hlk & Hnx & _).
  unfold openTarget, os_Create, created.
  cbn [writers logDir logFile set_logFile]. fold (previous_closed l w).
  rewrite Hlk, Hnx. destruct (decide _); reflexivity.
Qed.

(** What buildFileWriter does with the file flag set and a decision that
    no new file is needed.  The target file is on disk; a file destination
    the logger holds, whatever it is open on, is returned and nothing is
    opened; with none held the target is opened for append, its content
    kept; when that open fails the destination of this cycle is os.Stderr.
    buildWriter stores the writer as the file destination. *)
Lemma buildFileWriter_keep (fuel : nat) (l : logger) (w : world) (args : rotate_hint)
    (name : string) :
  Handler.has (handler l) Handler.File = true →
  rotation fuel (fileDefaults l) w args = Some (name, false) →
  let l' := set_logFile name (fileDefaults l) in
  let path := Str.filepath_Join (logDir (fileDefaults l)) name in
  is_Some (disk w !! path)
  ∧ (∀ old : writer, writers l !! Handler.File = Some old →
       buildFileWriter fuel l w args = Some (l', w, old))
  ∧ (writers l !! Handler.File = None → path ∉ locked w →
       buildFileWriter fuel l w args = Some (l', opened path w, os_File (next_file w))
       ∧ disk (opened path w) = disk w
       ∧ open_files (opened path w) !! next_file w = Some path)
  ∧ (writers l !! Handler.File = None → path ∈ locked w →
       buildFileWriter fuel l w args = Some (l', w, os_Stderr))
  ∧ ∃ (w' : world) (f : writer),
      buildFileWriter fuel l w args = Some (l', w', f)
      ∧ buildWriter fuel l w args
          = Some (set_writers (<[Handler.File := f]> (console_writers l)) l', w').
Proof.
  intros Hfile Hrot l' path.
  assert (Hdisk : is_Some (disk w !! path)) by (by apply rotation_false_on_disk in Hrot).
  assert (Hw : writers (fileDefaults l) = writers l)
    by (by destruct (fileDefaults_fields l) as (Hw & _)).
  assert (Hbuild : buildFileWriter fuel l w args
                   = Some (openTarget (fileDefaults l) w name false)).
  { unfold buildFileWriter. by rewrite Hfile, Hrot. }
  rewrite buildWriter_file, Hbuild, openTarget_false, Hw by done.
  fold path. fold l'. destruct Hdisk as [sz Hsz]. rewrite Hsz.
  split; [eauto|].
  split; [by intros old ->|].
  split.
  { intros -> Hfree. rewrite decide_False by done. split; [reflexivity|].
    split; [reflexivity|]. unfold opened. cbn [open_files]. apply lookup_insert_eq. }
  split; [intros -> Hlocked; by rewrite decide_True by done|].
  destruct (writers l !! Handler.File); [eauto|].
  destruct (decide (path ∈ locked w)); eauto.
Qed.

(** C8: with the file flag set and a decision that a new file is needed,
    the file destination held so far is closed first and the target is
    then created, empty; when the creation fails the destination of this
    cycle is os.Stderr.  In both cases buildWriter returns with the writer
    stored as the file destination, and the turn of the goroutine that
    handles the job ends with the goroutine alive. *)
Theorem buildFileWriter_new (fuel : nat) (l : logger) (w : world) (args : rotate_hint)
    (name : string) :
  Handler.has (handler l) Handler.File = true →
  rotation fuel (fileDefaults l) w args = Some (name, true) →
  let l' := set_logFile name (fileDefaults l) in
  let path := Str.filepath_Join (logDir (fileDefaults l)) name in
  let w1 := previous_closed l w in
  (∀ h : nat, writers l !! Handler.File = Some (os_File h) → open_files w1 !! h = None)
  ∧ (path ∉ locked w →
       buildFileWriter fuel l w args = Some (l', created path w1, os_File (next_file w))
       ∧ disk (created path w1) !! path = Some 0
       ∧ open_files (created path w1) = <[next_file w := path]> (open_files w1))
  ∧ (path ∈ locked w →
       buildFileWriter fuel l w args = Some (l', w1, os_Stderr))
  ∧ ∃ (w' : world) (f : writer),
      buildFileWriter fuel l w args = Some (l', w', f)
      ∧ f = (if decide (path ∈ locked w) then os_Stderr else os_File (next_file w))
      ∧ buildWriter fuel l w args
          = Some (set_writers (<[Handler.File := f]> (console_writers l)) l', w')
      ∧ ∀ (pick : bool) (job : writerArgs) (q : channel (option writerArgs)),
          rotateArgs job = args →
          chan_recv None q = Some (Some job, writerChan l) →
          recv_ready (done l) = false →
          ∃ s' : system,
            backend_turn fuel pick (mkSystem (set_writerChan q l) w true) = Some s'
            ∧ backend_alive s' = true
            ∧ writers (lg s') !! Handler.File = Some f.
Proof.
  intros Hfile Hrot l' path w1.
  destruct (previous_closed_same l w) as (_ & Hnx & _).
  assert (Hpc : previous_closed (fileDefaults l) w = w1).
  { unfold w1, previous_closed. by destruct (fileDefaults_fields l) as (-> & _). }
  assert (Hbuild : buildFileWriter fuel l w args
                   = Some (openTarget (fileDefaults l) w name true)).
  { unfold buildFileWriter. by rewrite Hfile, Hrot. }
  rewrite openTarget_true, Hpc in Hbuild. fold path in Hbuild. fold l' in Hbuild.
  split.
  { intros h Hh. unfold w1, previous_closed. rewrite Hh. cbn [writer_Close open_files].
    apply lookup_delete_eq. }
  split.
  { intros Hfree. rewrite decide_False in Hbuild by done. split; [exact Hbuild|].
    unfold created. cbn [disk open_files]. split; [apply lookup_insert_eq|].
    change (next_file w1 = next_file w) in Hnx. by rewrite Hnx. }
  split; [intros Hlocked; by rewrite decide_True in Hbuild by done|].
  assert (Hex : ∃ w' f, buildFileWriter fuel l w args = Some (l', w', f)
                        ∧ f = (if decide (path ∈ locked w) then os_Stderr
                               else os_File (next_file w))).
  { rewrite Hbuild. destruct (decide (path ∈ locked w)); eauto. }
  destruct Hex as (w' & f & Hb & Hf). exists w', f.
  assert (HbW : buildWriter fuel l w args
                = Some (set_writers (<[Handler.File := f]> (console_writers l)) l', w'))
    by (by rewrite buildWriter_file, Hb by done).
  split; [exact Hb|]. split; [exact Hf|]. split; [exact HbW|].
  intros pick job q Hargs Hrecv Hdone.
  rewrite (backend_turn_job fuel pick l w q job Hrecv Hdone), Hargs, HbW.
  eexists. split; [reflexivity|]. split; [reflexivity|].
  cbn [lg writers set_writers]. apply lookup_insert_eq.
Qed.

Lemma buildFileWriter_keep_witness :
  Handler.has (handler size_logger) Handler.File = true
  ∧ rotation 3 (fileDefaults size_logger) two_rotated (HintSize 5)
      = Some ("rotating-100B.0.log"%string, false)
  ∧ buildFileWriter 3 size_logger two_rotated (HintSize 5)
      = Some (set_logFile "rotating-100B.0.log" (fileDefaults size_logger),
              opened "/tmp/rotating-100B.0.log" two_rotated, os_File 0).
Proof.
  assert (Hfile : Handler.has (handler size_logger) Handler.File = true) by reflexivity.
  assert (Hrot : rotation 3 (fileDefaults size_logger) two_rotated (HintSize 5)
                 = Some ("rotating-100B.0.log"%string, false)) by (vm_compute; reflexivity).
  split; [exact Hfile|]. split; [exact Hrot|].
  destruct (buildFileWriter_keep 3 size_logger two_rotated (HintSize 5)
              "rotating-100B.0.log" Hfile Hrot) as (_ & _ & Hopen & _).
  apply Hopen; [reflexivity | apply not_elem_of_empty].
Defined.

(** C7 does not hold of the code: buildFileWriter takes any file
    destination the logger holds for an open handle of the target (its
    comment reads: already open the file), and does not look at the file
    the handle is open on.  A logger under RotateNone has written a record
    to /tmp/default.log and holds that handle; its directory is set to
    /var/log, where default.log exists, and a second record is queued.
    The decision for it is (default.log, no new file), the target is
    /var/log/default.log, and no handle is open on it; the claim has the
    target opened for append.  The goroutine instead reuses the handle of
    /tmp/default.log: the target is not opened and does not grow, and the
    record is appended to /tmp/default.log. *)
Theorem held_handle_of_another_file :
  ∃ s s' : system,
    run 1 (boot var_log_world) moved_to_existing = Some s
    ∧ Handler.has (handler (lg s)) Handler.File = true
    ∧ (∃ job : writerArgs,
         buf (writerChan (lg s)) = [Some job]
         ∧ rotation 1 (fileDefaults (lg s)) (os s) (rotateArgs job)
           = Some ("default.log"%string, false)
         ∧ String.length (record job) = 66%nat)
    ∧ Str.filepath_Join (logDir (fileDefaults (lg s))) "default.log"
      = "/var/log/default.log"%string
    ∧ writers (lg s) !! Handler.File = Some (os_File 0)
    ∧ open_files (os s) = {[0%nat := "/tmp/default.log"%string]}
    ∧ disk (os s) !! "/var/log/default.log"%string = Some 7
    ∧ disk (os s) !! "/tmp/default.log"%string = Some 65
    ∧ step 1 s (DoBackend false) = Some s'
    ∧ writers (lg s') !! Handler.File = Some (os_File 0)
    ∧ open_files (os s') = {[0%nat := "/tmp/default.log"%string]}
    ∧ disk (os s') !! "/var/log/default.log"%string = Some 7
    ∧ disk (os s') !! "/tmp/default.log"%string = Some (65 + 66).
Proof.
  eexists. eexists. split; [vm_compute; reflexivity|].
  split; [reflexivity|].
  split; [eexists; split; [reflexivity|]; split; vm_compute; reflexivity|].
  split; [vm_compute; reflexivity|].
  split; [reflexivity|]. split; [reflexivity|].
  split; [reflexivity|]. split; [reflexivity|].
  split; [vm_compute; reflexivity|].
  split; [reflexivity|]. split; [reflexivity|]. split; reflexivity.
Qed.

Lemma buildFileWriter_new_witness :
  Handler.has (handler file_logger) Handler.File = true
  ∧ rotation 1 (fileDefaults file_logger) empty_world (HintTime sample_time)
      = Some ("default.log"%string, true)
  ∧ buildFileWriter 1 file_logger empty_world (HintTime sample_time)
      = Some (set_logFile "default.log" (fileDefaults file_logger),
              created "/tmp/default.log" empty_world, os_File 0).
Proof.
  assert (Hfile : Handler.has (handler file_logger) Handler.File = true) by reflexivity.
  assert (Hrot : rotation 1 (fileDefaults file_logger) empty_world (HintTime sample_time)
                 = Some ("default.log"%string, true)) by (vm_compute; reflexivity).
  split; [exact Hfile|]. split; [exact Hrot|].
  destruct (buildFileWriter_new 1 file_logger empty_world (HintTime sample_time)
              "default.log" Hfile Hrot) as (_ & Hmake & _).
  apply Hmake. apply not_elem_of_empty.
Defined.

(** When the creation fails the record goes to os.Stderr. *)
Example create_fails_stderr :
  buildFileWriter 1 file_logger uncreatable_world (HintTime sample_time)
    = Some (set_logFile "default.log" (fileDefaults file_logger), uncreatable_world, os_Stderr).
Proof. vm_compute. reflexivity. Qed.

(** When the open fails the record goes to os.Stderr. *)
Example open_fails_stderr :
  buildFileWriter 1 file_logger locked_world (HintTime sample_time)
    = Some (set_logFile "default.log" (fileDefaults file_logger), locked_world, os_Stderr).
Proof. vm_compute. reflexivity. Qed.

(** ** An unknown rotation strategy *)

Lemma fileDefaults_fallback (r : Z) (l : logger) :
  r < RotateNone ∨ r > RotateSize →
  fileDefaults (SetRotateType r l) = fileDefaults (SetRotateType RotateHour l).
Proof.
  intros Hr. destruct l as [ws ch fm th h dir file rt sz dn].
  unfold fileDefaults, SetRotateType, SetLogDir.
  cbn [writers writerChan logFormat levelThreshold handler logDir logFile rotateType
       rotateSize done].
  assert (Hc : ((r <? RotateNone) || (r >? RotateSize)) = true)
    by (unfold RotateNone, RotateSize in *; apply orb_true_iff; lia).
  destruct (String.length dir =? 0)%nat;
    cbn [writers writerChan logFormat levelThreshold handler logDir logFile rotateType
         rotateSize done]; rewrite Hc; reflexivity.
Qed.

(** C9: a rotation strategy outside RotateNone..RotateSize is stored as it
    is by SetRotateType and is left as it is by a logging call; when the
    file destination is next built it is replaced by RotateHour, the build
    gives the same result as for RotateHour, with the hourly file name, and
    it returns a writer whatever the bound on the probe. *)
Theorem rotate_type_fallback (r : Z) (l : logger) (w : world) (args : rotate_hint)
    (fuel : nat) :
  r < RotateNone ∨ r > RotateSize →
  Handler.has (handler l) Handler.File = true →
  rotateType (SetRotateType r l) = r
  ∧ (∀ (level : Z) (msg : string) (now : Time) (c : caller),
       rotateType (settle (SetRotateType r l) (logging (SetRotateType r l) level msg now c))
         = r)
  ∧ ∃ (l' : logger) (w' : world) (f : writer),
      buildFileWriter fuel (SetRotateType r l) w args = Some (l', w', f)
      ∧ buildFileWriter fuel (SetRotateType RotateHour l) w args = Some (l', w', f)
      ∧ rotateType l' = RotateHour
      ∧ logFile l' = calendar_name RotateHour (hint_time args).
Proof.
  intros Hr Hfile. split; [reflexivity|]. split.
  - intros level msg now c. unfold logging.
    destruct ((handler (SetRotateType r l) =? Handler.None) || _); [reflexivity|].
    destruct (render _ _ _ _ _ _ _); [|reflexivity].
    destruct (chan_send _ _); reflexivity.
  - unfold buildFileWriter. cbn [handler SetRotateType]. rewrite Hfile. cbn [negb].
    rewrite (fileDefaults_fallback r l Hr).
    assert (Hrt : rotateType (fileDefaults (SetRotateType RotateHour l)) = RotateHour)
      by (by rewrite fileDefaults_valid).
    rewrite rotation_calendar_eq by (rewrite Hrt; right; left; reflexivity).
    rewrite Hrt.
    match goal with |- context [openTarget ?a ?b ?c ?d] =>
      pose proof (openTarget_logFile a b c d) as (Hname & Hrt' & _);
      destruct (openTarget a b c d) as [[l' w'] f]
    end.
    exists l', w', f. cbn [fst] in *. repeat split; [congruence | exact Hname].
Qed.

Lemma rotate_type_fallback_witness :
  (9 < RotateNone ∨ 9 > RotateSize)
  ∧ rotateType (SetRotateType 9 file_logger) = 9
  ∧ ∃ (l' : logger) (w' : world) (f : writer),
      buildFileWriter 1 (SetRotateType 9 file_logger) empty_world (HintTime sample_time)
        = Some (l', w', f)
      ∧ rotateType l' = RotateHour
      ∧ logFile l' = "2024-03-09_14.log"%string.
Proof.
  assert (Hr : 9 < RotateNone ∨ 9 > RotateSize) by (right; unfold RotateSize; lia).
  split; [exact Hr|].
  destruct (rotate_type_fallback 9 file_logger empty_world (HintTime sample_time) 1 Hr eq_refl)
    as (Hset & _ & l' & w' & f & Hb & _ & Hrt & Hname).
  split; [exact Hset|]. exists l', w', f. split; [exact Hb|]. split; [exact Hrt|].
  rewrite Hname. vm_compute. reflexivity.
Defined.

(** ** The life of a logger *)

Lemma chan_recv_open {A} (zero x : A) (c c' : channel A) :
  closed c = false → chan_recv zero c = Some (x, c') →
  closed c' = false ∧ buf c = x :: buf c'.
Proof.
  intros Hc. unfold chan_recv. rewrite Hc. destruct (buf c); [done|].
  intros [= <- <-]. by split.
Qed.

Lemma recv_ready_done (s : system) :
  lifecycle s → recv_ready (done (lg s)) = closed (done (lg s)).
Proof. intros (Hbuf & _). unfold recv_ready. by rewrite Hbuf. Qed.

Lemma lifecycle_boot (w : world) : lifecycle (boot w).
Proof. repeat split. discriminate. Qed.

Lemma lifecycle_call (s s' : system) :
  lifecycle s →
  backend_alive s' = backend_alive s →
  (lg s' = lg s
   ∨ closed (writerChan (lg s)) = false ∧ has_room (writerChan (lg s)) = true
     ∧ ∃ v, lg s' = set_writerChan (push v (writerChan (lg s))) (lg s)) →
  lifecycle s'.
Proof.
  intros (Hbuf & Hcl & Hdead) Ha Hl. unfold lifecycle. rewrite Ha.
  destruct Hl as [-> | (_ & _ & v & ->)]; done.
Qed.

Lemma lifecycle_step (fuel : nat) (s s' : system) (a : action) :
  lifecycle s → step fuel s a = Some s' → lifecycle s'.
Proof.
  intros Hinv Hstep. pose proof Hinv as (Hbuf & Hcl & Hdead).
  pose proof (call_step fuel s s' a Hstep) as Hcall.
  destruct a;
    try (destruct Hcall as (_ & Ha & Hl); by apply (lifecycle_call s s'));
    cbn [step] in Hstep; try (injection Hstep as <-; exact Hinv).
  unfold backend_turn in Hstep.
  destruct (backend_alive s) eqn:Halive; cbn [negb] in Hstep;
    [|injection Hstep as <-; exact Hinv].
  rewrite (recv_ready_done s Hinv) in Hstep.
  destruct (closed (done (lg s))) eqn:Hd; [by specialize (Hdead eq_refl)|].
  cbn [andb] in Hstep.
  destruct (chan_recv None (writerChan (lg s))) as [[[job|] ch]|] eqn:Hrecv;
    [| |injection Hstep as <-; exact Hinv].
  + destruct (buildWriter _ _ _ _) as [[l2 w2]|] eqn:Hbw; [|done].
    injection Hstep as <-.
    apply buildWriter_fields in Hbw as (Hch & Hdn & _).
    unfold lifecycle, at_state. cbn [lg backend_alive]. rewrite Hch, Hdn.
    cbn [writerChan done set_writerChan]. rewrite Hbuf, Hd.
    apply chan_recv_open in Hrecv as [Hchc _]; [|exact Hcl].
    rewrite Hchc. by repeat split.
  + apply chan_recv_open in Hrecv as [Hchc _]; [|exact Hcl].
    unfold chan_close in Hstep.
    cbn [done set_writerChan set_done writerChan] in Hstep.
    rewrite Hd, Hchc in Hstep. injection Hstep as <-.
    unfold lifecycle. cbn. by rewrite Hbuf.
Qed.

Lemma lifecycle_run (fuel : nat) (acts : list action) :
  ∀ s s' : system, lifecycle s → run fuel s acts = Some s' → lifecycle s'.
Proof.
  induction acts as [|a rest IH]; intros s s' Hinv Hrun; cbn [run] in Hrun.
  - by injection Hrun as <-.
  - destruct (step fuel s a) as [s1|] eqn:Hstep; [|done].
    eapply IH; [|exact Hrun]. eapply lifecycle_step; eassumption.
Qed.

Lemma reachable_lifecycle (s : system) : reachable s → lifecycle s.
Proof.
  intros (w & fuel & acts & Hrun).
  eapply lifecycle_run; [apply lifecycle_boot | exact Hrun].
Qed.

(** After the shutdown no step changes the files, the queue or done. *)
Lemma shutdown_step (fuel : nat) (s : system) (a : action) :
  closed (done (lg s)) = true → closed (writerChan (lg s)) = true →
  backend_alive s = false →
  ∃ s' : system,
    step fuel s a = Some s'
    ∧ os s' = os s
    ∧ writerChan (lg s') = writerChan (lg s)
    ∧ done (lg s') = done (lg s)
    ∧ backend_alive s' = false.
Proof.
  intros Hd Hc Hdead.
  assert (Hsome : ∃ s', step fuel s a = Some s').
  { destruct a; cbn [step]; eauto. unfold backend_turn. rewrite Hdead. cbn [negb]. eauto. }
  destruct Hsome as [s' Hstep]. exists s'. split; [exact Hstep|].
  pose proof (call_step fuel s s' a Hstep) as Hcall.
  destruct a;
    try (destruct Hcall as (Ho & Ha & [-> | (Hopen & _)]);
         [by rewrite Ho, Ha | congruence]);
    cbn [step] in Hstep; try (injection Hstep as <-; by repeat split).
  unfold backend_turn in Hstep. rewrite Hdead in Hstep. cbn [negb] in Hstep.
  injection Hstep as <-. by repeat split.
Qed.

Lemma shutdown_run (fuel : nat) (acts : list action) :
  ∀ s : system,
    closed (done (lg s)) = true → closed (writerChan (lg s)) = true →
    backend_alive s = false →
    ∃ s' : system,
      run fuel s acts = Some s'
      ∧ os s' = os s
      ∧ writerChan (lg s') = writerChan (lg s)
      ∧ done (lg s') = done (lg s)
      ∧ backend_alive s' = false.
Proof.
  induction acts as [|a rest IH]; intros s Hd Hc Hdead; cbn [run].
  - exists s. by repeat split.
  - destruct (shutdown_step fuel s a Hd Hc Hdead) as (s1 & -> & Hos & Hch & Hdn & Hdead1).
    destruct (IH s1) as (s' & Hrun & Hos' & Hch' & Hdn' & Hdead'); [congruence..|].
    exists s'. repeat split; congruence.
Qed.

(** What holds of Close in every state a logger can reach.  When done is
    closed Close returns at once with the logger unchanged, and so does
    its probe.  When done is not closed the caller passes the probe and
    comes to its send of the nil request.  The turn of the goroutine that
    takes the nil request closes done and the queue and ends the
    goroutine, leaving the files alone and the rest of the queue unread.
    From then on, whatever is called, the files and the queue stay as they
    are, the goroutine takes no job, and every Close that starts changes
    nothing. *)
Lemma Close_and_shutdown (s : system) :
  reachable s →
  (closed (done (lg s)) = true →
     Close (lg s) = Returns (lg s)
     ∧ ∀ fuel : nat, step fuel s DoClose = Some s ∧ step fuel s DoCloseEnter = Some s)
  ∧ (closed (done (lg s)) = false →
     ∀ fuel : nat,
       step fuel s DoCloseEnter
       = Some (mkSys (lg s) (os s) (backend_alive s) (waiting s ++ [None]) (panics s)))
  ∧ (∀ (fuel : nat) (pick : bool) (rest : list (option writerArgs)),
       backend_alive s = true → buf (writerChan (lg s)) = None :: rest →
       ∃ s' : system,
         backend_turn fuel pick s = Some s'
         ∧ closed (done (lg s')) = true
         ∧ closed (writerChan (lg s')) = true
         ∧ buf (writerChan (lg s')) = rest
         ∧ backend_alive s' = false
         ∧ os s' = os s)
  ∧ (closed (done (lg s)) = true →
     ∀ (fuel : nat) (acts : list action),
       ∃ s' : system,
         run fuel s acts = Some s'
         ∧ os s' = os s
         ∧ buf (writerChan (lg s')) = buf (writerChan (lg s))
         ∧ backend_alive s' = false
         ∧ Close (lg s') = Returns (lg s')).
Proof.
  intros Hreach. pose proof (reachable_lifecycle s Hreach) as Hinv.
  pose proof Hinv as (Hbuf & Hcl & Hdead).
  pose proof (recv_ready_done s Hinv) as Hready.
  split; [|split; [|split]].
  - intros Hd. split; [unfold Close; by rewrite Hready, Hd|].
    intros fuel. cbn [step]. unfold enter_Close. rewrite Hready, Hd.
    by rewrite deliver_nobody.
  - intros Hd fuel. cbn [step]. unfold enter_Close. by rewrite Hready, Hd.
  - intros fuel pick rest Halive Hq.
    destruct (closed (done (lg s))) eqn:Hd; [by specialize (Hdead eq_refl); congruence|].
    unfold backend_turn. rewrite Halive, Hready. cbn [negb andb].
    unfold chan_recv. rewrite Hq. unfold chan_close.
    cbn [done set_writerChan set_done writerChan closed]. rewrite Hd, Hcl.
    eexists. split; [reflexivity|]. by repeat split.
  - intros Hd fuel acts.
    destruct (shutdown_run fuel acts s Hd) as (s' & Hrun & Hos & Hch & Hdn & Hdead');
      [congruence | by apply Hdead|].
    exists s'. repeat split; [done | done | by rewrite Hch | done|].
    unfold Close, recv_ready. by rewrite Hdn, Hbuf, Hd.
Qed.

(** C3 does not hold of the code: the probe of done and the send of the
    nil request are two operations of Close, and the goroutine can close
    the queue in between.  Close is called and returns; a second Close
    passes its probe, done being open still; the goroutine handles the
    request of the first call and closes done and the queue; the second
    call then makes its send, on a closed channel, and panics where the
    claim has it return with nothing done. *)
Theorem second_Close_panics :
  ∃ s s' : system,
    second_Close_in_window = Some s
    ∧ waiting s = [None]
    ∧ closed (done (lg s)) = true
    ∧ closed (writerChan (lg s)) = true
    ∧ backend_alive s = false
    ∧ panics s = []
    ∧ step 1 s (DoSend 0) = Some s'
    ∧ waiting s' = []
    ∧ panics s' = ["send on closed channel"%string].
Proof.
  eexists. eexists. split; [vm_compute; reflexivity|].
  do 5 (split; [reflexivity|]).
  split; [vm_compute; reflexivity|]. split; reflexivity.
Qed.

(** Close on a full queue waits for a slot. *)
Lemma Close_full_blocks (l : logger) :
  recv_ready (done l) = false → closed (writerChan l) = false →
  has_room (writerChan l) = false → Close l = Blocks.
Proof. intros Hd Hc Hr. unfold Close, chan_send. by rewrite Hd, Hc, Hr. Qed.

(** ** The open files *)

(** C4 does not hold of the code: with the file flag taken away
    buildWriter drops the file destination without closing it, and with the
    flag set again the same file is opened a second time, so two files
    are open. *)
Theorem toggle_file_leaks :
  ∃ s : system,
    run 1 (boot empty_world) toggle_file = Some s
    ∧ open_files (os s) = <[1%nat := "/tmp/default.log"%string]>
                            (<[0%nat := "/tmp/default.log"%string]> ∅)
    ∧ writers (lg s) !! Handler.File = Some (os_File 1)
    ∧ size (open_files (os s)) = 2%nat
    ∧ ¬ at_most_one_open s.
Proof.
  eexists. split; [vm_compute; reflexivity|].
  split; [vm_compute; reflexivity|]. split; [vm_compute; reflexivity|].
  split; [vm_compute; reflexivity|].
  unfold at_most_one_open. vm_compute. lia.
Qed.

(** As long as the file flag is not taken away, the logger has at most one
    file open: the one it holds as its file destination. *)

Lemma Fprint_open_files (x : writer) (s : string) (w : world) :
  open_files (Fprint x s w) = open_files w.
Proof.
  unfold Fprint, log_output. destruct x as [| |h].
  - by destruct (stdout_closed w).
  - by destruct (stderr_closed w).
  - by destruct (open_files w !! h).
Qed.

Lemma write_all_open_files (l : logger) (rec : string) (w : world) :
  open_files (write_all l rec w) = open_files w.
Proof.
  unfold write_all. generalize (map_to_list (writers l)). intros kvs. revert w.
  induction kvs as [|kv kvs IH]; intros w; cbn [foldl]; [reflexivity|].
  by rewrite IH, Fprint_open_files.
Qed.

Lemma holds_open_none (l : logger) (w : world) :
  holds_open l w →
  (∀ h : nat, writers l !! Handler.File ≠ Some (os_File h)) →
  open_files w = ∅.
Proof.
  intros Hheld Hno. apply map_empty. intros h.
  destruct (open_files w !! h) eqn:Hh; [|done]. apply Hheld in Hh. by apply Hno in Hh.
Qed.

Lemma holds_open_size (l : logger) (w : world) :
  holds_open l w → (size (open_files w) <= 1)%nat.
Proof.
  intros Hheld.
  destruct (writers l !! Handler.File) as [[| |h0]|] eqn:Hw.
  1, 2, 4: rewrite (holds_open_none l w Hheld), map_size_empty;
    [lia | intros h; congruence].
  assert (Hsub : dom (open_files w) ⊆ ({[h0]} : gset nat)).
  { intros h Hh. apply elem_of_dom in Hh as [p Hp].
    apply Hheld in Hp. apply elem_of_singleton. congruence. }
  apply subseteq_size in Hsub. by rewrite size_dom, size_singleton in Hsub.
Qed.

Lemma previous_closed_empty (l : logger) (w : world) :
  holds_open l w → open_files (previous_closed l w) = ∅.
Proof.
  intros Hheld. unfold previous_closed.
  destruct (writers l !! Handler.File) as [[| |h0]|] eqn:Hw; cbn [writer_Close open_files].
  1, 2, 4: apply (holds_open_none l w Hheld); intros h; congruence.
  apply map_empty. intros h. destruct (decide (h = h0)) as [-> | Hne].
  - apply lookup_delete_eq.
  - rewrite lookup_delete_ne by done.
    destruct (open_files w !! h) eqn:Hh; [|done]. apply Hheld in Hh. congruence.
Qed.

Lemma holds_open_single (ws : gmap Z writer) (l : logger) (h : nat) (path : string)
    (files : gmap nat string) (w : world) :
  files = ∅ →
  writers l = <[Handler.File := os_File h]> ws →
  open_files w = <[h := path]> files →
  holds_open l w.
Proof.
  intros -> Hw Hf h' p Hh'. rewrite Hf in Hh'.
  apply lookup_insert_Some in Hh' as [[<- _] | [_ Hh']]; [|by rewrite lookup_empty in Hh'].
  rewrite Hw. apply lookup_insert_eq.
Qed.

Lemma buildWriter_holds (fuel : nat) (l l' : logger) (w w' : world) (args : rotate_hint) :
  holds_open l w → file_flag_or_none l w →
  buildWriter fuel l w args = Some (l', w') →
  holds_open l' w' ∧ file_flag_or_none l' w'.
Proof.
  intros Hheld Hflag Hb.
  pose proof (buildWriter_fields _ _ _ _ _ _ Hb) as (_ & _ & Hh).
  destruct (Handler.has (handler l) Handler.File) eqn:Hfile.
  - split; [|left; by rewrite Hh].
    rewrite buildWriter_file in Hb by done.
    unfold buildFileWriter in Hb. rewrite Hfile in Hb. cbn [negb] in Hb.
    destruct (rotation fuel (fileDefaults l) w args) as [[name need]|]; [|done].
    assert (Hw : writers (fileDefaults l) = writers l)
      by (by destruct (fileDefaults_fields l) as (Hw & _)).
    assert (Hpc : previous_closed (fileDefaults l) w = previous_closed l w)
      by (unfold previous_closed; by rewrite Hw).
    destruct need.
    + rewrite openTarget_true, Hpc in Hb.
      pose proof (previous_closed_empty l w Hheld) as Hemp.
      destruct (decide _); injection Hb as <- <-.
      * intros h p Hp. by rewrite Hemp, lookup_empty in Hp.
      * eapply holds_open_single; [exact Hemp | reflexivity |].
        unfold created. cbn [open_files].
        by destruct (previous_closed_same l w) as (_ & -> & _).
    + rewrite openTarget_false, Hw in Hb.
      destruct (writers l !! Handler.File) as [old|] eqn:Hold.
      * injection Hb as <- <-. intros h p Hp. apply Hheld in Hp.
        cbn [writers set_writers]. rewrite lookup_insert_eq. congruence.
      * assert (Hemp : open_files w = ∅)
          by (apply (holds_open_none l w Hheld); intros h; congruence).
        destruct (decide _);
          [|destruct (disk w !! _)]; injection Hb as <- <-;
          try (intros h p Hp; by rewrite Hemp, lookup_empty in Hp).
        eapply holds_open_single; [exact Hemp | reflexivity | reflexivity].
  - destruct Hflag as [Hset | Hemp]; [congruence|].
    assert (w' = w) as ->.
    { unfold buildWriter in Hb. cbv zeta in Hb.
      destruct (Handler.has (handler l) Handler.Stdout); cbn [handler set_writers] in Hb;
        destruct (Handler.has (handler l) Handler.Stderr); cbn [handler set_writers] in Hb;
        rewrite Hfile in Hb; by injection Hb as _ <-. }
    split; [|by right]. intros h p Hp. by rewrite Hemp, lookup_empty in Hp.
Qed.

Lemma step_holds (fuel : nat) (s s' : system) (a : action) :
  keeps_file_flag a →
  holds_open (lg s) (os s) ∧ file_flag_or_none (lg s) (os s) →
  step fuel s a = Some s' →
  holds_open (lg s') (os s') ∧ file_flag_or_none (lg s') (os s').
Proof.
  intros Hkeep [Hheld Hflag] Hstep.
  pose proof (call_step fuel s s' a Hstep) as Hcall.
  destruct a;
    try (destruct Hcall as (-> & _ & [-> | (_ & _ & v & ->)]); by split);
    cbn [step] in Hstep; try (injection Hstep as <-; by split).
  - injection Hstep as <-. split; [exact Hheld | by left].
  - unfold backend_turn in Hstep.
    destruct (backend_alive s); cbn [negb] in Hstep; [|injection Hstep as <-; by split].
    destruct (_ && _); [injection Hstep as <-; by split|].
    destruct (chan_recv None (writerChan (lg s))) as [[[job|] ch]|];
      [| |injection Hstep as <-; by split].
    + destruct (buildWriter _ _ _ _) as [[l2 w2]|] eqn:Hb; [|done].
      injection Hstep as <-. unfold at_state. cbn [lg os].
      apply buildWriter_holds in Hb as [Hheld' Hflag']; [|done..].
      split.
      * intros h p. rewrite write_all_open_files. apply Hheld'.
      * destruct Hflag' as [? | Hemp]; [by left | right].
        by rewrite write_all_open_files.
    + assert (Hsame : writers (lg s') = writers (lg s)
                      ∧ handler (lg s') = handler (lg s)
                      ∧ open_files (os s') = open_files (os s)).
      { unfold backend_panic, chan_close, at_state in Hstep.
        cbn [done writerChan set_writerChan set_done closed lg os] in Hstep.
        destruct (closed (done (lg s)));
          [|destruct (closed ch)]; injection Hstep as <-; cbn [lg os];
          try destruct (stdout_closed (os s)); by repeat split. }
      destruct Hsame as (Hw & Hh & Ho).
      unfold holds_open, file_flag_or_none. rewrite Hw, Hh, Ho. by split.
Qed.

Lemma run_holds (fuel : nat) (acts : list action) :
  ∀ s s' : system,
    Forall keeps_file_flag acts →
    holds_open (lg s) (os s) ∧ file_flag_or_none (lg s) (os s) →
    run fuel s acts = Some s' →
    holds_open (lg s') (os s') ∧ file_flag_or_none (lg s') (os s').
Proof.
  induction acts as [|a rest IH]; intros s s' Hall Hinv Hrun; cbn [run] in Hrun.
  - by injection Hrun as <-.
  - apply Forall_cons in Hall as [Ha Hrest].
    destruct (step fuel s a) as [s1|] eqn:Hstep; [|done].
    eapply IH; [exact Hrest | | exact Hrun]. eapply step_holds; eassumption.
Qed.

(** Without an action that takes the file flag away, a logger started
    with no file open never has more than one file open. *)
Lemma one_open_file_while_flag_kept (fuel : nat) (w : world) (acts : list action)
    (s : system) :
  open_files w = ∅ →
  Forall keeps_file_flag acts →
  run fuel (boot w) acts = Some s →
  at_most_one_open s.
Proof.
  intros Hemp Hall Hrun.
  destruct (run_holds fuel acts (boot w) s Hall) as [Hheld _]; [|exact Hrun|].
  - split; [|by right]. intros h p Hp. change (open_files w !! h = Some p) in Hp.
    by rewrite Hemp, lookup_empty in Hp.
  - by apply holds_open_size in Hheld.
Qed.

(** * Further properties of the logger *)

(** ** The formatter *)

Lemma supported_cons (f : string) (fs : list string) :
  supported (f :: fs) = if logFmtStr_has f then f :: supported fs else supported fs.
Proof.
  unfold supported. destruct (logFmtStr_has f) eqn:Hf.
  - by rewrite filter_cons_True.
  - rewrite filter_cons_False; [done | by rewrite Hf].
Qed.

Lemma render_cons (f : string) (fs : list string) (level : Z) (msg : string) (now : Time)
    (file : string) (line : Z) (funcname : string) :
  render (f :: fs) level msg now file line funcname
    = if logFmtStr_has f
      then match render [f] level msg now file line funcname,
                 render fs level msg now file line funcname with
           | Some p, Some ps => Some (p ++ ps)
           | _, _ => None
           end
      else render fs level msg now file line funcname.
Proof.
  cbn [render]. destruct (logFmtStr_has f); cbn [negb]; [|reflexivity].
  set (part := if String.eqb f fmtLevel then _ else _).
  destruct part as [p|]; [|reflexivity].
  by destruct (render fs level msg now file line funcname).
Qed.

(** X1: the formatter skips every part of the format that is not one of
    level, ltime, time, location, msg: the parts rendered are those of the
    supported tokens, one for each, in the order of the format, and a
    format made of two pieces renders as the two renderings in a row. *)
Theorem render_supported_only (fs : list string) (level : Z) (msg : string) (now : Time)
    (file : string) (line : Z) (funcname : string) :
  render fs level msg now file line funcname
    = render (supported fs) level msg now file line funcname
  ∧ (∀ parts : list string,
       render fs level msg now file line funcname = Some parts →
       length parts = length (supported fs))
  ∧ (∀ fs2 : list string,
       render (fs ++ fs2) level msg now file line funcname
         = match render fs level msg now file line funcname,
                 render fs2 level msg now file line funcname with
           | Some a, Some b => Some (a ++ b)
           | _, _ => None
           end).
Proof.
  split; [|split].
  - induction fs as [|f fs IH]; [reflexivity|].
    rewrite supported_cons, (render_cons f fs).
    destruct (logFmtStr_has f) eqn:Hf; [|exact IH].
    by rewrite (render_cons f (supported fs)), Hf, IH.
  - induction fs as [|f fs IH]; intros parts.
    + cbn [render]. by intros [= <-].
    + rewrite supported_cons, (render_cons f fs).
      destruct (logFmtStr_has f) eqn:Hf; [|apply IH].
      assert (Hone : ∀ p, render [f] level msg now file line funcname = Some p →
                          length p = 1%nat).
      { intros p. cbn [render]. rewrite Hf. cbn [negb].
        set (part := if String.eqb f fmtLevel then _ else _).
        destruct part; [|done]. by intros [= <-]. }
      destruct (render [f] level msg now file line funcname) as [p|]; [|done].
      destruct (render fs level msg now file line funcname) as [ps|]; [|done].
      intros [= <-]. rewrite length_app, (Hone p eq_refl), (IH ps eq_refl). reflexivity.
  - intros fs2. induction fs as [|f fs IH].
    + cbn [app render]. by destruct (render fs2 level msg now file line funcname).
    + cbn [app]. rewrite (render_cons f (fs ++ fs2)), (render_cons f fs), IH.
      destruct (logFmtStr_has f); [|reflexivity].
      destruct (render [f] level msg now file line funcname) as [p|]; [|reflexivity].
      destruct (render fs level msg now file line funcname) as [ps|]; [|reflexivity].
      destruct (render fs2 level msg now file line funcname) as [qs|]; [|reflexivity].
      by rewrite app_assoc.
Qed.

(** ** Panic *)

(** X2: on an open queue with a free slot Panic never returns: it panics
    with the message, after queueing the record when the gate lets it
    pass, and with the logger untouched when it does not. *)
Theorem Panic_always_panics (l : logger) (body : string) (now : Time) (c : caller) :
  closed (writerChan l) = false →
  has_room (writerChan l) = true →
  ∃ l' : logger,
    Panic l body now c = Panics l' body
    ∧ (handler l ≠ Handler.None ∧ levelThreshold l <= PANIC →
       ∃ job : writerArgs, l' = set_writerChan (push (Some job) (writerChan l)) l)
    ∧ (handler l = Handler.None ∨ PANIC < levelThreshold l → l' = l).
Proof.
  intros Hopen Hroom. unfold Panic.
  destruct (gate_cases l PANIC) as [Hno | [Hh Ht]].
  - rewrite (logging_filtered _ _ _ _ _ Hno). exists l. split; [reflexivity|].
    split; [|done]. intros [Hh Ht]. destruct Hno as [Hn | Hlt]; [done | lia].
  - unfold logging. rewrite (gate_passes _ _ Hh Ht).
    match goal with |- context [render ?a ?b ?c ?d ?e ?f ?g] =>
      destruct (render_level_ok a b c d e f g) as [parts ->] end;
      [unfold is_level, DEBUG, PANIC; lia|].
    unfold chan_send. rewrite Hopen, Hroom.
    eexists. split; [reflexivity|]. split; [eauto|].
    intros [Hn | Hlt]; [done | lia].
Qed.

Lemma Panic_always_panics_witness :
  ∃ l' : logger,
    Panic NewLogger "fatal" sample_time sample_caller = Panics l' "fatal" ∧ l' = NewLogger.
Proof.
  destruct (Panic_always_panics NewLogger "fatal" sample_time sample_caller eq_refl eq_refl)
    as (l' & Hp & _ & Hsame).
  exists l'. split; [exact Hp|]. apply Hsame. left. reflexivity.
Defined.

(** ** The defaults of the file fields *)

Lemma fileDefaults_fixed (l : logger) :
  logDir l ≠ EmptyString →
  RotateNone <= rotateType l <= RotateSize →
  (rotateType l = RotateSize → rotateSize l ≠ 0) →
  fileDefaults l = l.
Proof.
  intros Hdir Hrt Hsz. unfold fileDefaults.
  assert ((String.length (logDir l) =? 0)%nat = false) as ->
    by (destruct (logDir l); [done | reflexivity]).
  assert (((rotateType l <? RotateNone) || (rotateType l >? RotateSize)) = false) as ->
    by (unfold RotateNone, RotateSize in *; apply orb_false_iff; lia).
  assert (((rotateType l =? RotateSize) && (rotateSize l =? 0)) = false) as ->; [|done].
  apply andb_false_iff.
  destruct (decide (rotateType l = RotateSize)) as [Heq | Hne]; [right | left]; [|lia].
  specialize (Hsz Heq). lia.
Qed.

(** X3: after the defaults the directory is not empty, the strategy is one
    of RotateNone..RotateSize, and under RotateSize the ceiling is not 0;
    applying the defaults again changes nothing, and a directory, a
    strategy in range and a ceiling other than 0 are kept as they are. *)
Theorem fileDefaults_normal (l : logger) :
  logDir (fileDefaults l) ≠ EmptyString
  ∧ RotateNone <= rotateType (fileDefaults l) <= RotateSize
  ∧ (rotateType (fileDefaults l) = RotateSize → rotateSize (fileDefaults l) ≠ 0)
  ∧ fileDefaults (fileDefaults l) = fileDefaults l
  ∧ (logDir l ≠ EmptyString → logDir (fileDefaults l) = logDir l)
  ∧ (RotateNone <= rotateType l <= RotateSize → rotateType (fileDefaults l) = rotateType l)
  ∧ (rotateSize l ≠ 0 → rotateSize (fileDefaults l) = rotateSize l).
Proof.
  assert (Hdir : logDir (fileDefaults l) ≠ EmptyString).
  { rewrite fileDefaults_logDir. destruct (logDir l); [discriminate | done]. }
  assert (Hrt : RotateNone <= rotateType (fileDefaults l) <= RotateSize).
  { rewrite fileDefaults_rotateType. unfold RotateNone, RotateSize, RotateHour.
    destruct ((rotateType l <? 0) || (rotateType l >? 4)) eqn:Hr; [lia|].
    apply orb_false_iff in Hr. lia. }
  assert (Hsz : rotateType (fileDefaults l) = RotateSize → rotateSize (fileDefaults l) ≠ 0).
  { rewrite fileDefaults_rotateType, fileDefaults_rotateSize.
    destruct ((rotateType l <? RotateNone) || (rotateType l >? RotateSize)).
    - intros [=].
    - intros ->. rewrite Z.eqb_refl. cbn [andb].
      destruct (rotateSize l =? 0) eqn:H0; [discriminate | lia]. }
  split; [exact Hdir|]. split; [exact Hrt|]. split; [exact Hsz|].
  split; [by apply fileDefaults_fixed|].
  split; [intros Hd; rewrite fileDefaults_logDir; by destruct (logDir l)|].
  split; [apply fileDefaults_valid|].
  intros H0. rewrite fileDefaults_rotateSize.
  assert ((rotateSize l =? 0) = false) as -> by lia. by rewrite andb_false_r.
Qed.

(** ** The destination set *)

Lemma console_writers_std (l : logger) :
  console_writers l !! Handler.Stdout
    = (if Handler.has (handler l) Handler.Stdout then Some os_Stdout else None)
  ∧ console_writers l !! Handler.Stderr
    = (if Handler.has (handler l) Handler.Stderr then Some os_Stderr else None).
Proof.
  unfold console_writers.
  destruct (Handler.has (handler l) Handler.Stdout),
           (Handler.has (handler l) Handler.Stderr); split;
    repeat first [ rewrite lookup_insert_eq | rewrite lookup_delete_eq
                 | rewrite lookup_insert_ne by (vm_compute; discriminate)
                 | rewrite lookup_delete_ne by (vm_compute; discriminate) ];
    reflexivity.
Qed.

(** buildWriter without the file flag: the console destinations, and no
    file destination. *)
Lemma buildWriter_no_file (fuel : nat) (l : logger) (w : world) (args : rotate_hint) :
  Handler.has (handler l) Handler.File = false →
  buildWriter fuel l w args
    = Some (set_writers (delete Handler.File (console_writers l)) l, w).
Proof.
  intros Hfile. unfold buildWriter, console_writers. cbv zeta.
  destruct (Handler.has (handler l) Handler.Stdout); cbn [handler set_writers writers];
    destruct (Handler.has (handler l) Handler.Stderr); cbn [handler set_writers writers];
    rewrite Hfile; by destruct l.
Qed.



Lemma known_keys_only (l : logger) (m : gmap Z writer) :
  known_keys l →
  (∀ k, k = Handler.Stdout ∨ k = Handler.Stderr ∨ k = Handler.File →
        delete Handler.File (console_writers l) !! k = m !! k) →
  (∀ k, k ≠ Handler.Stdout → k ≠ Handler.Stderr → k ≠ Handler.File → m !! k = None) →
  delete Handler.File (console_writers l) = m.
Proof.
  intros Hkeys Hsame Hnone. apply map_eq. intros k.
  destruct (decide (k = Handler.Stdout ∨ k = Handler.Stderr ∨ k = Handler.File))
    as [Hk | Hk]; [by apply Hsame|].
  assert (H1 : Handler.Stdout ≠ k) by naive_solver.
  assert (H2 : Handler.Stderr ≠ k) by naive_solver.
  assert (H4 : Handler.File ≠ k) by naive_solver.
  rewrite Hnone by done.
  rewrite lookup_delete_ne by done. unfold console_writers.
  destruct (decide (is_Some (writers l !! k))) as [Hs | Hs];
    [apply Hkeys in Hs; naive_solver|].
  apply eq_None_not_Some in Hs.
  destruct (Handler.has (handler l) Handler.Stdout),
           (Handler.has (handler l) Handler.Stderr);
    repeat first [ rewrite lookup_insert_ne by done
                 | rewrite lookup_delete_ne by done ]; exact Hs.
Qed.

(** With stdout as the only handler the destination set is os.Stdout alone. *)
Lemma stdout_only_writers (l : logger) :
  known_keys l → handler l = Handler.Stdout →
  delete Handler.File (console_writers l) = {[Handler.Stdout := os_Stdout]}.
Proof.
  intros Hkeys Hh. apply known_keys_only; [done| |].
  - destruct (console_writers_std l) as [Hout Herr]. rewrite Hh in Hout, Herr.
    intros k [-> | [-> | ->]].
    + rewrite lookup_delete_ne by (vm_compute; discriminate). by rewrite Hout.
    + rewrite lookup_delete_ne by (vm_compute; discriminate). by rewrite Herr.
    + by rewrite lookup_delete_eq.
  - intros k Hk _ _. by rewrite lookup_singleton_ne.
Qed.

(** With no handler the destination set is empty. *)
Lemma no_handler_writers (l : logger) :
  known_keys l → handler l = Handler.None →
  delete Handler.File (console_writers l) = ∅.
Proof.
  intros Hkeys Hh. apply known_keys_only; [done| |].
  - destruct (console_writers_std l) as [Hout Herr]. rewrite Hh in Hout, Herr.
    intros k [-> | [-> | ->]].
    + rewrite lookup_delete_ne by (vm_compute; discriminate). by rewrite Hout.
    + rewrite lookup_delete_ne by (vm_compute; discriminate). by rewrite Herr.
    + by rewrite lookup_delete_eq.
  - intros k _ _ _. apply lookup_empty.
Qed.

(** ** Records on their way through the queue *)

(** X5: a record that is queued is lost when the handler is None by the
    time the goroutine handles it: the job is taken from the queue, the
    destination set becomes empty, and nothing is written anywhere. *)
Theorem record_dropped_without_handler (fuel : nat) (pick : bool) (s : system)
    (job : writerArgs) (rest : list (option writerArgs)) :
  backend_alive s = true →
  serving (lg s) →
  known_keys (lg s) →
  handler (lg s) = Handler.None →
  buf (writerChan (lg s)) = Some job :: rest →
  ∃ s' : system,
    backend_turn fuel pick s = Some s'
    ∧ buf (writerChan (lg s')) = rest
    ∧ writers (lg s') = ∅
    ∧ os s' = os s
    ∧ backend_alive s' = true.
Proof.
  intros Halive [Hbuf Hd] Hkeys Hh Hq. unfold backend_turn.
  rewrite Halive. cbn [negb]. unfold recv_ready at 1. rewrite Hbuf, Hd. cbn [andb].
  unfold chan_recv. rewrite Hq.
  rewrite buildWriter_no_file by (cbn [handler set_writerChan]; by rewrite Hh).
  assert (Hws : delete Handler.File
                  (console_writers (set_writerChan
                     {| buf := rest; cap := cap (writerChan (lg s));
                        closed := closed (writerChan (lg s)) |} (lg s))) = ∅)
    by (by apply no_handler_writers).
  rewrite Hws. eexists. split; [reflexivity|].
  cbn [lg os backend_alive writers writerChan set_writers set_writerChan buf].
  unfold write_all. cbn [writers set_writers]. rewrite map_to_list_empty.
  by repeat split.
Qed.

Lemma known_keys_empty (l : logger) : writers l = ∅ → known_keys l.
Proof. intros Hw k [x Hx]. by rewrite Hw, lookup_empty in Hx. Qed.

Lemma record_dropped_without_handler_witness :
  ∃ s' : system,
    backend_turn 1 false muted_after_log = Some s'
    ∧ buf (writerChan (lg s')) = []
    ∧ os s' = empty_world.
Proof.
  edestruct (record_dropped_without_handler 1 false muted_after_log)
    as (s' & Hturn & Hq & _ & Hos & _).
  - reflexivity.
  - split; reflexivity.
  - apply known_keys_empty. reflexivity.
  - reflexivity.
  - vm_compute. reflexivity.
  - exists s'. split; [exact Hturn|]. split; [exact Hq | exact Hos].
Defined.

(** The turn that handles one job when stdout is the only handler. *)
Lemma stdout_turn (fuel : nat) (pick : bool) (l : logger) (w : world)
    (job : writerArgs) (rest : list (option writerArgs)) :
  serving l → known_keys l → handler l = Handler.Stdout → stdout_closed w = false →
  buf (writerChan l) = Some job :: rest →
  ∃ (l' : logger) (w' : world),
    backend_turn fuel pick (mkSystem l w true) = Some (mkSystem l' w' true)
    ∧ serving l' ∧ known_keys l' ∧ handler l' = Handler.Stdout
    ∧ stdout_closed w' = false
    ∧ buf (writerChan l') = rest
    ∧ output w' = output w ++ [(os_Stdout, record job)].
Proof.
  intros [Hbuf Hd] Hkeys Hh Hout Hq. unfold backend_turn, mkSystem, at_state.
  cbn [backend_alive negb lg os waiting panics]. unfold recv_ready at 1. rewrite Hbuf, Hd. cbn [andb].
  unfold chan_recv. rewrite Hq.
  rewrite buildWriter_no_file
    by (cbn [handler set_writerChan]; rewrite Hh; vm_compute; reflexivity).
  assert (Hws : delete Handler.File
                  (console_writers (set_writerChan
                     {| buf := rest; cap := cap (writerChan l);
                        closed := closed (writerChan l) |} l))
                = {[Handler.Stdout := os_Stdout]})
    by (by apply stdout_only_writers).
  rewrite Hws. do 2 eexists. split; [reflexivity|].
  unfold write_all. cbn [writers set_writers]. rewrite map_to_list_singleton.
  cbn [foldl snd Fprint]. rewrite Hout.
  split; [by split|]. split.
  { intros k [x Hx]. cbn [writers set_writers] in Hx.
    apply lookup_singleton_Some in Hx as [<- _]. by left. }
  by repeat split.
Qed.

(** X6: with stdout as the only handler the goroutine writes the queued
    records in the order of the queue: after as many turns as there are
    jobs, the output has grown by exactly their records, first queued first
    written, the queue is empty and the goroutine is alive. *)
Theorem stdout_fifo (fuel : nat) (pick : bool) (jobs : list writerArgs) :
  ∀ (l : logger) (w : world),
    serving l → known_keys l → handler l = Handler.Stdout → stdout_closed w = false →
    buf (writerChan l) = Some <$> jobs →
    ∃ s' : system,
      run fuel (mkSystem l w true) (turns (length jobs) pick) = Some s'
      ∧ output (os s') = output w ++ stdout_lines jobs
      ∧ buf (writerChan (lg s')) = []
      ∧ backend_alive s' = true.
Proof.
  induction jobs as [|job jobs IH]; intros l w Hserv Hkeys Hh Hout Hq.
  - exists (mkSystem l w true). cbn. rewrite app_nil_r. by repeat split.
  - cbn [length turns replicate run step fmap list_fmap] in *.
    destruct (stdout_turn fuel pick l w job (Some <$> jobs) Hserv Hkeys Hh Hout Hq)
      as (l' & w' & -> & Hserv' & Hkeys' & Hh' & Hout' & Hq' & Hw').
    destruct (IH l' w' Hserv' Hkeys' Hh' Hout' Hq') as (s' & Hrun & Ho & Hb & Ha).
    exists s'. split; [exact Hrun|]. split; [|by split].
    rewrite Ho, Hw'. unfold stdout_lines. cbn [fmap list_fmap].
    by rewrite <- app_assoc.
Qed.

Lemma stdout_fifo_witness :
  ∃ s' : system,
    run 1 (mkSystem hello_queued empty_world true) (turns 1 false) = Some s'
    ∧ output (os s')
      = [(os_Stdout, "[INFO] 2024-03-09 14:05:07.123456 client.go:42:SendRequest: hello"%string)].
Proof.
  destruct (stdout_fifo 1 false
              [mkArgs "[INFO] 2024-03-09 14:05:07.123456 client.go:42:SendRequest: hello"
                 (HintTime sample_time)] hello_queued empty_world)
    as (s' & Hrun & Hout & _).
  - split; reflexivity.
  - apply known_keys_empty. reflexivity.
  - reflexivity.
  - reflexivity.
  - vm_compute. reflexivity.
  - exists s'. split; [exact Hrun | exact Hout].
Defined.

(** ** The fallback to os.Stderr *)

(** X7: when the file destination held is os.Stderr, left by a failed
    create or open, and a new file is needed, buildFileWriter calls Close
    on os.Stderr before creating the file: os.Stderr is closed from then
    on and what is printed to it is lost. *)
Theorem fallback_closes_stderr (fuel : nat) (l : logger) (w : world) (args : rotate_hint)
    (name : string) :
  Handler.has (handler l) Handler.File = true →
  writers l !! Handler.File = Some os_Stderr →
  rotation fuel (fileDefaults l) w args = Some (name, true) →
  ∃ (l' : logger) (w' : world) (f : writer),
    buildFileWriter fuel l w args = Some (l', w', f)
    ∧ stderr_closed w' = true
    ∧ ∀ rec : string, Fprint os_Stderr rec w' = w'.
Proof.
  intros Hfile Hheld Hrot. unfold buildFileWriter. rewrite Hfile, Hrot. cbn [negb].
  rewrite openTarget_true.
  assert (Hpc : previous_closed (fileDefaults l) w = writer_Close os_Stderr w).
  { unfold previous_closed. destruct (fileDefaults_fields l) as (-> & _). by rewrite Hheld. }
  rewrite Hpc. destruct (decide _); do 3 eexists; (split; [reflexivity|]);
    (split; [reflexivity|]); intros rec; reflexivity.
Qed.

Lemma fallback_closes_stderr_witness :
  ∃ (l' : logger) (w' : world) (f : writer),
    buildFileWriter 1 fell_back uncreatable_world (HintTime sample_time) = Some (l', w', f)
    ∧ stderr_closed w' = true.
Proof.
  destruct (fallback_closes_stderr 1 fell_back uncreatable_world (HintTime sample_time)
              "default.log") as (l' & w' & f & Hb & Hc & _).
  - reflexivity.
  - reflexivity.
  - vm_compute. reflexivity.
  - exists l', w', f. split; [exact Hb | exact Hc].
Defined.

(** ** The bounded queue *)

Lemma push_within {A} (x : A) (c : channel A) :
  has_room c = true →
  (length (buf (push x c)) <= cap (push x c))%nat ∧ cap (push x c) = cap c.
Proof.
  unfold has_room. intros H%Nat.ltb_lt. rewrite push_length. cbn [cap push]. lia.
Qed.

Lemma chan_recv_within {A} (zero x : A) (c c' : channel A) :
  chan_recv zero c = Some (x, c') →
  (length (buf c') <= length (buf c))%nat ∧ cap c' = cap c.
Proof.
  unfold chan_recv. destruct (buf c) as [|y ys] eqn:Hb.
  - destruct (closed c); [|done]. intros [= <- <-]. rewrite Hb. by split.
  - intros [= <- <-]. cbn. split; [lia | done].
Qed.

Lemma queue_step (fuel : nat) (s s' : system) (a : action) :
  queue_within_capacity (lg s) → step fuel s a = Some s' → queue_within_capacity (lg s').
Proof.
  intros [Hlen Hcap] Hstep. unfold queue_within_capacity in *.
  pose proof (call_step fuel s s' a Hstep) as Hcall.
  destruct a;
    try (destruct Hcall as (_ & _ & [-> | (_ & Hroom & v & ->)]); [by split|];
         cbn [writerChan set_writerChan]; destruct (push_within v _ Hroom); split; lia);
    cbn [step] in Hstep; try (injection Hstep as <-; by split).
  - unfold backend_turn in Hstep.
    destruct (backend_alive s); cbn [negb] in Hstep; [|injection Hstep as <-; by split].
    destruct (_ && _); [injection Hstep as <-; by split|].
    destruct (chan_recv None (writerChan (lg s))) as [[[job|] ch]|] eqn:Hrecv;
      [| |injection Hstep as <-; by split];
      apply chan_recv_within in Hrecv as [Hl Hc].
    + destruct (buildWriter _ _ _ _) as [[l2 w2]|] eqn:Hb; [|done].
      injection Hstep as <-. unfold at_state. cbn [lg].
      apply buildWriter_fields in Hb as (-> & _). cbn [writerChan set_writerChan].
      split; lia.
    + unfold backend_panic, chan_close, at_state in Hstep.
      cbn [done writerChan set_writerChan set_done closed lg os] in Hstep.
      destruct (closed (done (lg s)));
        [|destruct (closed ch)]; injection Hstep as <-;
        cbn [lg writerChan set_writerChan set_done buf cap]; split; lia.
Qed.

(** X8: the queue of a logger made by NewLogger never holds more than its
    capacity of 100 jobs, whatever is called and however the goroutine
    takes its turns. *)
Theorem queue_bounded (s : system) :
  reachable s → queue_within_capacity (lg s).
Proof.
  intros (w & fuel & acts & Hrun).
  assert (Hgen : ∀ s0, queue_within_capacity (lg s0) → run fuel s0 acts = Some s →
                       queue_within_capacity (lg s)).
  { clear Hrun. induction acts as [|a rest IH]; intros s0 Hq Hrun; cbn [run] in Hrun.
    - by injection Hrun as <-.
    - destruct (step fuel s0 a) as [s1|] eqn:Hstep; [|done].
      eapply IH; [|exact Hrun]. eapply queue_step; eassumption. }
  apply (Hgen (boot w)); [|exact Hrun]. split; cbn; lia.
Qed.

Lemma queue_bounded_witness :
  queue_within_capacity hello_queued.
Proof.
  apply (queue_bounded (mkSystem hello_queued empty_world true)).
  exists empty_world, 0%nat,
    [DoSetHandler Handler.Stdout; DoLog INFO "hello" sample_time sample_caller].
  reflexivity.
Defined.

(** ** A hint made under another strategy *)

(** X9: a job made while the strategy was RotateSize carries a size, not
    a time; when the strategy is a calendar one by the time the job is
    handled, the rotation reads the zero time, and the record goes to
    0001-01-01.log, 0001-01-01_00.log or 0001-01-01_00-00.log. *)
Theorem size_hint_under_calendar (fuel : nat) (l : logger) (w : world) (rec : string)
    (now : Time) (r : Z) :
  rotateType l = RotateSize →
  is_calendar r →
  rotateArgs (make_job l rec now) = HintSize (Z.of_nat (String.length rec))
  ∧ rotation fuel (SetRotateType r l) w (rotateArgs (make_job l rec now))
    = Some (zero_time_name r, absent (SetRotateType r l) w (zero_time_name r)).
Proof.
  intros Hsize Hcal. unfold make_job. rewrite Hsize. cbn [Z.eqb RotateSize Pos.eqb rotateArgs].
  split; [reflexivity|].
  rewrite rotation_calendar_eq by exact Hcal. cbn [rotateType SetRotateType hint_time].
  assert (Hname : calendar_name r GoTime.zero = zero_time_name r)
    by (destruct Hcal as [-> | [-> | ->]]; reflexivity).
  by rewrite Hname.
Qed.

Lemma size_hint_under_calendar_witness :
  rotation 1 (SetRotateType RotateDay size_logger) empty_world
    (rotateArgs (make_job size_logger "hello" sample_time))
  = Some ("0001-01-01.log"%string, true).
Proof.
  destruct (size_hint_under_calendar 1 size_logger empty_world "hello" sample_time RotateDay)
    as [_ Hrot]; [reflexivity | left; reflexivity |].
  rewrite Hrot. reflexivity.
Defined.

(** ** The buckets of the calendar strategies *)

Lemma digit_char_is_digit (d : Z) :
  0 <= d < 10 → is_digit (Decimal.digit_char d) = true.
Proof.
  intros H.
  assert (Hd : d = 0 ∨ d = 1 ∨ d = 2 ∨ d = 3 ∨ d = 4 ∨ d = 5 ∨ d = 6 ∨ d = 7
               ∨ d = 8 ∨ d = 9) by lia.
  repeat (destruct Hd as [-> | Hd]; [reflexivity|]). subst; reflexivity.
Qed.

Lemma all_digits_app (a b : string) :
  all_digits (a +:+ b) = all_digits a && all_digits b.
Proof.
  induction a as [|x a IH]; cbn [String.append all_digits]; [reflexivity|].
  by rewrite IH, andb_assoc.
Qed.

Lemma digits_go_digits (fuel : nat) :
  ∀ (n : Z) (acc : string),
    0 <= n < 2 ^ Z.of_nat fuel →
    ∃ ds : string,
      Decimal.digits_go fuel n acc = ds +:+ acc
      ∧ all_digits ds = true
      ∧ Decimal.atoi_go ds 0 = n.
Proof.
  induction fuel as [|f IH]; intros n acc Hn.
  - exists EmptyString. cbn in *. repeat split; lia.
  - cbn [Decimal.digits_go].
    destruct (digit_char_val (n mod 10)) as [Hval _]; [apply Z.mod_pos_bound; lia|].
    assert (Hdig : is_digit (Decimal.digit_char (n mod 10)) = true)
      by (apply digit_char_is_digit, Z.mod_pos_bound; lia).
    destruct (n <? 10) eqn:Hlt.
    + exists (String (Decimal.digit_char (n mod 10)) EmptyString).
      cbn [String.append all_digits Decimal.atoi_go]. rewrite Hval, Hdig.
      repeat split. rewrite Z.mul_0_r, Z.add_0_l. apply Z.mod_small. lia.
    + assert (Hq : 0 <= n / 10 < 2 ^ Z.of_nat f).
      { split; [apply Z.div_pos; lia|].
        apply Z.div_lt_upper_bound; [lia|].
        rewrite Nat2Z.inj_succ, Z.pow_succ_r in Hn by lia. lia. }
      destruct (IH (n / 10) (String (Decimal.digit_char (n mod 10)) acc) Hq)
        as (ds & Heq & Hall & Hat).
      exists (ds +:+ String (Decimal.digit_char (n mod 10)) EmptyString).
      rewrite Heq, string_app_assoc. cbn [String.append]. split; [reflexivity|].
      rewrite all_digits_app, Hall. cbn [all_digits andb]. rewrite Hdig.
      split; [reflexivity|].
      rewrite atoi_go_app, Hat. cbn [Decimal.atoi_go]. rewrite Hval.
      pose proof (Z.div_mod n 10). lia.
Qed.

Lemma string_app_nil_r (s : string) : s +:+ EmptyString = s.
Proof. induction s as [|x s IH]; cbn [String.append]; [reflexivity | by rewrite IH]. Qed.

Lemma zeros_spec (k : nat) (ds : string) :
  all_digits (Decimal.zeros k +:+ ds) = all_digits ds
  ∧ Decimal.atoi_go (Decimal.zeros k +:+ ds) 0 = Decimal.atoi_go ds 0.
Proof.
  induction k as [|k [IH1 IH2]]; cbn [Decimal.zeros String.append all_digits Decimal.atoi_go];
    [by split|].
  split; [exact IH1|]. exact IH2.
Qed.

(** A field of a time, as time.appendInt writes it, is a run of digits
    that reads back as the field. *)
Lemma appendInt_digits (x : Z) (width : nat) :
  0 <= x →
  all_digits (Decimal.appendInt x width) = true
  ∧ Decimal.atoi (Decimal.appendInt x width) = x.
Proof.
  intros Hx. unfold Decimal.appendInt, Decimal.atoi.
  assert ((x <? 0) = false) as -> by lia. rewrite Z.abs_eq by lia.
  destruct (zeros_spec (width - String.length (Decimal.utoa x)) (Decimal.utoa x)) as [-> ->].
  unfold Decimal.utoa.
  destruct (digits_go_digits (S (Z.to_nat (Z.log2 x))) x EmptyString) as (ds & -> & Hall & Hat).
  - split; [lia|]. rewrite Nat2Z.inj_succ, Z2Nat.id by apply Z.log2_nonneg.
    destruct (decide (x = 0)) as [-> | Hne]; [reflexivity|].
    apply Z.log2_spec. lia.
  - by rewrite string_app_nil_r.
Qed.

Lemma span_digits_app (ds : string) (c : ascii) (r : string) :
  all_digits ds = true → is_digit c = false →
  span_digits (ds +:+ String c r) = (ds, String c r).
Proof.
  intros Hall Hc. induction ds as [|d ds IH]; cbn [String.append span_digits].
  - by rewrite Hc.
  - cbn [all_digits] in Hall. apply andb_true_iff in Hall as [Hd Hall].
    by rewrite Hd, (IH Hall).
Qed.

Lemma leading_number_field (x : Z) (width : nat) (c : ascii) (r : string) :
  0 <= x → is_digit c = false →
  leading_number (Decimal.appendInt x width +:+ String c r) = (x, String c r).
Proof.
  intros Hx Hc. destruct (appendInt_digits x width Hx) as [Hall Hat].
  unfold leading_number. by rewrite span_digits_app, Hat.
Qed.

Lemma numbers_field (fuel : nat) (x : Z) (width : nat) (c : ascii) (r : string) :
  0 <= x → is_digit c = false →
  numbers (S fuel) (Decimal.appendInt x width +:+ String c r)
    = if is_sep c then x :: numbers fuel r else [x].
Proof. intros Hx Hc. cbn [numbers]. by rewrite leading_number_field. Qed.

(** The numbers in the name of a bucket are the fields of the bucket. *)
Lemma numbers_calendar_name (r : Z) (t : Time) :
  is_calendar r → natural_time t →
  numbers 5 (calendar_name r t) = bucket r t.
Proof.
  intros Hcal (Hy & Hm & Hd & Hh & Hmi).
  unfold calendar_name, bucket, date_text.
  destruct Hcal as [-> | [-> | ->]];
    cbv [RotateDay RotateHour RotateMinute Z.eqb Pos.eqb];
    rewrite !string_app_assoc; cbn [String.append];
    repeat (rewrite numbers_field by (assumption || reflexivity); cbn [is_sep Ascii.eqb
              Bool.eqb orb]);
    reflexivity.
Qed.

(** X10: under RotateDay, RotateHour and RotateMinute two records are
    filed under the same name exactly when their times agree on the year,
    month and day, and on the hour and the minute as far as the strategy
    reads them (for times whose fields are not negative). *)
Theorem calendar_bucket_names (fuel : nat) (l : logger) (w : world) (t1 t2 : Time) :
  is_calendar (rotateType l) → natural_time t1 → natural_time t2 →
  (filed_under fuel l w t1 = filed_under fuel l w t2
     ↔ bucket (rotateType l) t1 = bucket (rotateType l) t2)
  ∧ filed_under fuel l w t1 = Some (calendar_name (rotateType l) t1).
Proof.
  intros Hcal Ht1 Ht2. unfold filed_under.
  rewrite !rotation_calendar_eq by exact Hcal. cbn [fmap option_fmap option_map fst hint_time].
  split; [|reflexivity]. split.
  - intros [= Heq]. by rewrite <- !numbers_calendar_name, Heq.
  - intros Hb. f_equal. unfold calendar_name, bucket, date_text in *.
    destruct Hcal as [Hr | [Hr | Hr]]; rewrite Hr in *;
      cbv [RotateDay RotateHour RotateMinute Z.eqb Pos.eqb] in *;
      injection Hb as -> -> ->; try subst; congruence.
Qed.

Lemma calendar_bucket_names_witness :
  filed_under 1 (SetRotateType RotateHour file_logger) empty_world sample_time
  ≠ filed_under 1 (SetRotateType RotateHour file_logger) empty_world
      (mkTime 2024 3 9 15 5 7 0).
Proof.
  destruct (calendar_bucket_names 1 (SetRotateType RotateHour file_logger) empty_world
              sample_time (mkTime 2024 3 9 15 5 7 0)) as [[Hsame _] _].
  - right; left; reflexivity.
  - repeat split; cbn; lia.
  - repeat split; cbn; lia.
  - intros Heq. apply Hsame in Heq. discriminate Heq.
Defined.

(** ** The ceiling of the size-rotated files *)

Lemma Fprint_console (x : writer) (s : string) (w : world) :
  x = os_Stdout ∨ x = os_Stderr →
  disk (Fprint x s w) = disk w ∧ open_files (Fprint x s w) = open_files w.
Proof.
  intros [-> | ->]; cbn [Fprint].
  - by destruct (stdout_closed w).
  - by destruct (stderr_closed w).
Qed.

Lemma Fprint_disk_ext (x : writer) (s : string) (w1 w2 : world) :
  disk w1 = disk w2 → open_files w1 = open_files w2 →
  disk (Fprint x s w1) = disk (Fprint x s w2).
Proof.
  intros Hd Ho. destruct x as [| |h]; cbn [Fprint].
  - by destruct (stdout_closed w1), (stdout_closed w2).
  - by destruct (stderr_closed w1), (stderr_closed w2).
  - rewrite Ho. destruct (open_files w2 !! h) as [p|]; [|done].
    cbn [disk]. by rewrite Hd.
Qed.

(** Writing to a list of destinations of which at most one, the one under
    the file flag, is a file. *)
Lemma foldl_Fprint_disk (f : writer) (rec : string) (kvs : list (Z * writer)) :
  ∀ w : world,
    NoDup kvs.*1 →
    (∀ k x, (k, x) ∈ kvs →
       (k = Handler.File ∧ x = f) ∨ (k ≠ Handler.File ∧ (x = os_Stdout ∨ x = os_Stderr))) →
    disk (foldl (λ acc kv, Fprint kv.2 rec acc) w kvs)
      = (if decide (Handler.File ∈ kvs.*1) then disk (Fprint f rec w) else disk w).
Proof.
  induction kvs as [|[k x] kvs IH]; intros w Hnd Hall.
  - cbn. by rewrite decide_False by apply not_elem_of_nil.
  - cbn [foldl snd fmap list_fmap fst] in *. apply NoDup_cons in Hnd as [Hk Hnd].
    assert (Hall' : ∀ k' x', (k', x') ∈ kvs →
              (k' = Handler.File ∧ x' = f)
              ∨ (k' ≠ Handler.File ∧ (x' = os_Stdout ∨ x' = os_Stderr)))
      by (intros k' x' Hin; apply Hall; by right).
    rewrite (IH _ Hnd Hall').
    destruct (Hall k x ltac:(by left)) as [[-> ->] | [Hne Hcons]].
    + rewrite decide_False by done.
      by rewrite decide_True by (by left).
    + destruct (Fprint_console x rec w Hcons) as [Hd Ho].
      destruct (decide (Handler.File ∈ kvs.*1)) as [Hin | Hnin].
      * rewrite decide_True by (by right). by apply Fprint_disk_ext.
      * rewrite decide_False; [done|]. intros Hin. apply elem_of_cons in Hin.
        destruct Hin as [Heq | Hin]; [by symmetry in Heq | done].
Qed.

(** What write_all does to the disk when the destinations are those that
    buildWriter has set, with [f] as the file destination. *)
Lemma write_all_file_disk (l l' : logger) (f : writer) (rec : string) (w : world) :
  known_keys l →
  writers l' = <[Handler.File := f]> (console_writers l) →
  disk (write_all l' rec w) = disk (Fprint f rec w).
Proof.
  intros Hkeys Hw. unfold write_all.
  rewrite (foldl_Fprint_disk f rec).
  - rewrite decide_True; [done|].
    apply list_elem_of_fmap. exists (Handler.File, f). split; [done|].
    apply elem_of_map_to_list. rewrite Hw. apply lookup_insert_eq.
  - apply NoDup_fst_map_to_list.
  - intros k x Hin. apply elem_of_map_to_list in Hin. rewrite Hw in Hin.
    destruct (decide (k = Handler.File)) as [-> | Hne].
    + rewrite lookup_insert_eq in Hin. left. split; congruence.
    + rewrite lookup_insert_ne in Hin by done. right. split; [done|].
      destruct (console_writers_std l) as [Hout Herr].
      destruct (decide (k = Handler.Stdout)) as [-> | Hno].
      { rewrite Hout in Hin. destruct (Handler.has _ _); [left; congruence | done]. }
      destruct (decide (k = Handler.Stderr)) as [-> | Hne'].
      { rewrite Herr in Hin. destruct (Handler.has _ _); [right; congruence | done]. }
      exfalso. unfold console_writers in Hin.
      assert (Hl : writers l !! k = Some x).
      { destruct (Handler.has (handler l) Handler.Stdout),
                 (Handler.has (handler l) Handler.Stderr);
          repeat first [ rewrite lookup_insert_ne in Hin by done
                       | rewrite lookup_delete_ne in Hin by done ]; exact Hin. }
      destruct (Hkeys k) as [? | [? | ?]]; [eauto | done..].
Qed.

Lemma getNextFileName_nonempty (name : string) : getNextFileName name ≠ EmptyString.
Proof.
  unfold getNextFileName. destruct (Str.cut_dot name) as [stem rest].
  destruct (Str.cut_dot rest) as [index tail]. by destruct stem.
Qed.

Lemma probe_nonempty (fuel : nat) (l : logger) (w : world) (hint : Z) :
  ∀ (fname name : string) (need : bool),
    fname ≠ EmptyString → probe fuel l w hint fname = Some (name, need) →
    name ≠ EmptyString.
Proof.
  induction fuel as [|fuel IH]; intros fname name need Hne; [done|].
  cbn [probe]. destruct (getFileInfo w _) as [sz ex]. destruct ex; cbn [negb andb].
  - destruct (add64 sz hint <=? rotateSize l); [by intros [= <- _]|].
    apply IH, getNextFileName_nonempty.
  - by intros [= <- _].
Qed.

Lemma probe_false_fits (fuel : nat) (l : logger) (w : world) (hint : Z) :
  ∀ (fname name : string),
    probe fuel l w hint fname = Some (name, false) →
    ∃ sz : Z, on_disk l w name = Some sz ∧ add64 sz hint <= rotateSize l.
Proof.
  induction fuel as [|fuel IH]; intros fname name; [done|].
  cbn [probe]. unfold getFileInfo, on_disk.
  destruct (disk w !! Str.filepath_Join (logDir l) fname) as [sz|] eqn:Hsz;
    cbn [negb andb]; [|done].
  destruct (add64 sz hint <=? rotateSize l) eqn:Hle.
  - intros [= <-]. exists sz. split; [exact Hsz | lia].
  - apply IH.
Qed.

(** What the size strategy has decided when it keeps a file, and that the
    name it gives is never empty. *)
Lemma rotation_size_decided (fuel : nat) (l : logger) (w : world) (n : Z)
    (name : string) (need : bool) :
  rotateType l = RotateSize →
  rotation fuel l w (HintSize n) = Some (name, need) →
  name ≠ EmptyString
  ∧ (need = false →
     (∃ sz : Z, on_disk l w name = Some sz ∧ add64 sz n <= rotateSize l)
     ∧ (logFile l ≠ EmptyString → name = logFile l)).
Proof.
  intros Hrt. unfold rotation, buildFileWriterBySize. rewrite Hrt, Z.eqb_refl.
  rewrite logFile_empty_length.
  destruct (decide (logFile l = EmptyString)) as [Hemp | Hrec].
  - rewrite bool_decide_eq_true_2 by done. intros Hp. split.
    + eapply probe_nonempty; [|exact Hp]. done.
    + intros ->. split; [by eapply probe_false_fits | done].
  - rewrite bool_decide_eq_false_2 by done. unfold getFileInfo, on_disk.
    destruct (disk w !! Str.filepath_Join (logDir l) (logFile l)) as [sz|] eqn:Hsz;
      cbn [negb].
    + destruct (add64 sz n >? rotateSize l) eqn:Hgt; intros [= <- <-].
      * split; [apply getNextFileName_nonempty | done].
      * split; [done|]. intros _. split; [|done]. exists sz. split; [done | lia].
    + intros [= <- <-]. split; done.
Qed.

Lemma rotation_hint_size (fuel : nat) (l : logger) (w : world) (args : rotate_hint) :
  rotateType l = RotateSize →
  rotation fuel l w args = rotation fuel l w (HintSize (hint_size args)).
Proof. intros Hrt. unfold rotation. rewrite Hrt. by destruct args. Qed.

(** One cycle of the goroutine under RotateSize, for a job with any hint. *)
Lemma size_cycle_general (fuel : nat) (l : logger) (w : world) (job : writerArgs) :
  Handler.has (handler l) Handler.File = true →
  known_keys l →
  rotateType l = RotateSize → logDir l ≠ EmptyString → rotateSize l ≠ 0 →
  no_overflow w (hint_size (rotateArgs job)) →
  held_on_current l w →
  (size (disk w) < fuel)%nat →
  ∃ (l' : logger) (w' : world),
    buildWriter fuel l w (rotateArgs job) = Some (l', w')
    ∧ held_on_current l' (write_all l' (record job) w')
    ∧ grown_within w (write_all l' (record job) w')
        (Z.max (rotateSize l + Z.of_nat (String.length (record job))
                - hint_size (rotateArgs job))
           (Z.of_nat (String.length (record job)))).
Proof.
  intros Hfile Hkeys Hrt Hdir Hsz Hno Hheld Hfuel.
  destruct job as [rec args]. cbn [record rotateArgs] in *.
  set (n := hint_size args) in *.
  assert (Hfix : fileDefaults l = l)
    by (apply fileDefaults_fixed; [done | rewrite Hrt; unfold RotateNone, RotateSize; lia | done]).
  destruct (rotation_total fuel l w args Hfuel) as [[name need] Hrot].
  assert (Hrot' : rotation fuel l w (HintSize n) = Some (name, need))
    by (unfold n; by rewrite <- (rotation_hint_size fuel l w args Hrt)).
  destruct (rotation_size_decided fuel l w n name need Hrt Hrot') as [Hname Hkeep].
  rewrite buildWriter_file by done. unfold buildFileWriter.
  rewrite Hfile, Hfix, Hrot. cbn [negb].
  set (p := Str.filepath_Join (logDir l) name).
  destruct need.
  - (* a new file *)
    rewrite openTarget_true. fold p.
    destruct (previous_closed_same l w) as (_ & Hnx & Hdk).
    destruct (decide (p ∈ locked w)) as [Hlk | Hfree]; do 2 eexists; (split; [reflexivity|]).
    + split.
      * intros h Hh. cbn [writers set_writers] in Hh. rewrite lookup_insert_eq in Hh. done.
      * intros q sz Hq. left.
        erewrite write_all_file_disk in Hq; [|exact Hkeys | reflexivity].
        destruct (Fprint_console os_Stderr rec (previous_closed l w)) as [Hd _]; [by right|].
        by rewrite Hd, Hdk in Hq.
    + split.
      * intros h Hh. cbn [writers set_writers] in Hh. rewrite lookup_insert_eq in Hh.
        injection Hh as <-. cbn [logFile logDir set_writers set_logFile].
        split; [done|]. rewrite write_all_open_files. unfold created. cbn [open_files].
        rewrite Hnx. apply lookup_insert_eq.
      * intros q sz Hq.
        erewrite write_all_file_disk in Hq; [|exact Hkeys | reflexivity].
        unfold created in Hq. cbn [Fprint open_files disk] in Hq.
        rewrite Hnx, lookup_insert_eq in Hq. cbn [disk] in Hq.
        rewrite lookup_insert_eq in Hq. cbn [disk] in Hq.
        destruct (decide (q = p)) as [-> | Hne].
        -- rewrite lookup_insert_eq in Hq. injection Hq as <-. right. lia.
        -- rewrite !lookup_insert_ne in Hq by done. left. by rewrite Hdk in Hq.
  - (* the file is kept *)
    destruct (Hkeep eq_refl) as [(sz0 & Hon & Hfit) Hsame].
    unfold add64 in Hfit. rewrite wrap64_small in Hfit by (eapply Hno; exact Hon).
    unfold on_disk in Hon. fold p in Hon.
    rewrite openTarget_false. fold p.
    destruct (writers l !! Handler.File) as [old|] eqn:Hold.
    + do 2 eexists. split; [reflexivity|]. split.
      * intros h Hh. cbn [writers set_writers] in Hh. rewrite lookup_insert_eq in Hh.
        injection Hh as ->. destruct (Hheld h Hold) as [Hne Hop].
        cbn [logFile logDir set_writers set_logFile]. split; [done|].
        rewrite write_all_open_files. by rewrite (Hsame Hne).
      * intros q sz Hq.
        erewrite write_all_file_disk in Hq; [|exact Hkeys | reflexivity].
        destruct old as [| |h].
        -- left. destruct (Fprint_console os_Stdout rec w) as [Hd _]; [by left|].
           by rewrite Hd in Hq.
        -- left. destruct (Fprint_console os_Stderr rec w) as [Hd _]; [by right|].
           by rewrite Hd in Hq.
        -- destruct (Hheld h Hold) as [Hne Hop]. cbn [Fprint] in Hq.
           rewrite Hop, <- (Hsame Hne) in Hq. fold p in Hq. rewrite Hon in Hq.
           cbn [disk] in Hq. destruct (decide (q = p)) as [-> | Hnq].
           ++ rewrite lookup_insert_eq in Hq. injection Hq as <-. right. lia.
           ++ rewrite lookup_insert_ne in Hq by done. by left.
    + destruct (decide (p ∈ locked w)) as [Hlk | Hfree].
      * do 2 eexists. split; [reflexivity|]. split.
        -- intros h Hh. cbn [writers set_writers] in Hh. rewrite lookup_insert_eq in Hh. done.
        -- intros q sz Hq. left.
           erewrite write_all_file_disk in Hq; [|exact Hkeys | reflexivity].
           destruct (Fprint_console os_Stderr rec w) as [Hd _]; [by right|].
           by rewrite Hd in Hq.
      * rewrite Hon. do 2 eexists. split; [reflexivity|]. split.
        -- intros h Hh. cbn [writers set_writers] in Hh. rewrite lookup_insert_eq in Hh.
           injection Hh as <-. cbn [logFile logDir set_writers set_logFile].
           split; [done|]. rewrite write_all_open_files. unfold opened. cbn [open_files].
           apply lookup_insert_eq.
        -- intros q sz Hq.
           erewrite write_all_file_disk in Hq; [|exact Hkeys | reflexivity].
           unfold opened in Hq. cbn [Fprint open_files disk] in Hq.
           rewrite lookup_insert_eq in Hq. cbn [disk] in Hq. rewrite Hon in Hq.
           cbn [disk] in Hq. destruct (decide (q = p)) as [-> | Hnq].
           ++ rewrite lookup_insert_eq in Hq. injection Hq as <-. right. lia.
           ++ rewrite lookup_insert_ne in Hq by done. by left.
Qed.


(** X11: one cycle of the goroutine under RotateSize, for a job with any
    hint.  With the file flag set, the directory and the ceiling set, and
    the file destination held (if any) open on the recorded file, building
    the destinations for the job and writing its record leaves every file
    as it was, or no larger than the greater of the record's length and
    the ceiling plus the record's length less the size read from the hint
    (the size the hint carries, 0 for a hint that carries a time); and the
    file destination held afterwards is again open on the recorded file.
    For a job whose hint is the length of its record, as logging makes it
    under RotateSize, the bound is the greater of the ceiling and the
    record's length. *)
Theorem size_cycle_bound (fuel : nat) (l : logger) (w : world) (job : writerArgs) :
  Handler.has (handler l) Handler.File = true →
  known_keys l →
  rotateType l = RotateSize → logDir l ≠ EmptyString → rotateSize l ≠ 0 →
  no_overflow w (hint_size (rotateArgs job)) →
  held_on_current l w →
  (size (disk w) < fuel)%nat →
  ∃ (l' : logger) (w' : world),
    buildWriter fuel l w (rotateArgs job) = Some (l', w')
    ∧ held_on_current l' (write_all l' (record job) w')
    ∧ grown_within w (write_all l' (record job) w')
        (Z.max (rotateSize l + Z.of_nat (String.length (record job))
                - hint_size (rotateArgs job))
           (Z.of_nat (String.length (record job))))
    ∧ (rotateArgs job = HintSize (Z.of_nat (String.length (record job))) →
       grown_within w (write_all l' (record job) w')
         (Z.max (rotateSize l) (Z.of_nat (String.length (record job))))).
Proof.
  intros Hfile Hkeys Hrt Hdir Hsz Hno Hheld Hfuel.
  destruct (size_cycle_general fuel l w job Hfile Hkeys Hrt Hdir Hsz Hno Hheld Hfuel)
    as (l' & w' & Hb & Hheld' & Hgrow).
  exists l', w'. split; [exact Hb|]. split; [exact Hheld'|]. split; [exact Hgrow|].
  intros Hargs q sz Hq. destruct (Hgrow q sz Hq) as [Hsame | Hle]; [by left|].
  right. rewrite Hargs in Hle. cbn [hint_size] in Hle. lia.
Qed.

Lemma size_cycle_bound_witness :
  ∃ (l' : logger) (w' : world),
    buildWriter 3 size_logger two_rotated (rotateArgs (size_job "one more record"))
      = Some (l', w')
    ∧ held_on_current l' (write_all l' (record (size_job "one more record")) w')
    ∧ grown_within two_rotated (write_all l' (record (size_job "one more record")) w')
        (Z.max (rotateSize size_logger
                + Z.of_nat (String.length (record (size_job "one more record")))
                - hint_size (rotateArgs (size_job "one more record")))
           (Z.of_nat (String.length (record (size_job "one more record")))))
    ∧ (rotateArgs (size_job "one more record")
       = HintSize (Z.of_nat (String.length (record (size_job "one more record")))) →
       grown_within two_rotated (write_all l' (record (size_job "one more record")) w')
         (Z.max (rotateSize size_logger)
            (Z.of_nat (String.length (record (size_job "one more record")))))).
Proof.
  apply (size_cycle_bound 3 size_logger two_rotated (size_job "one more record")).
  - reflexivity.
  - by apply known_keys_empty.
  - reflexivity.
  - discriminate.
  - discriminate.
  - intros path sz H. unfold two_rotated in H. cbn [disk] in H.
    apply lookup_insert_Some in H as [[_ <-] | [_ H]]; [vm_compute; split; congruence|].
    apply lookup_insert_Some in H as [[_ <-] | [_ H]]; [vm_compute; split; congruence|].
    by rewrite lookup_empty in H.
  - intros h Hh. by vm_compute in Hh.
  - vm_compute; lia.
Defined.

(** A job made under a calendar strategy and handled under RotateSize
    counts as 0 bytes: a record of 66 bytes is appended to a file of 95
    bytes under the ceiling of 100. *)
Example time_hint_passes_ceiling :
  ∃ (l' : logger) (w' : world),
    buildWriter 2 size_logger nearly_full (HintTime sample_time) = Some (l', w')
    ∧ disk (write_all l' "[INFO] 2024-03-09 14:05:07.123456 client.go:42:SendRequest: second" w')
        !! "/tmp/rotating-100B.0.log"%string
      = Some (95 + 66).
Proof. eexists. eexists. split; [vm_compute; reflexivity|]. vm_compute. reflexivity. Qed.

(** * Package util *)

(** ** URIEncode *)

Lemma kept_not_percent (c : ascii) (encodeSlash : bool) :
  Util.unreserved (Util.byte_val c) encodeSlash = true → Ascii.eqb c "%" = false.
Proof.
  destruct c as [[] [] [] [] [] [] [] []], encodeSlash; vm_compute; congruence.
Qed.

Lemma percent_digits_decode (c : ascii) :
  Util.byte_of (16 * Util.hex_val (Util.index Util.udigits (Util.byte_val c / 16))
                + Util.hex_val (Util.index Util.udigits (Util.byte_val c mod 16))) = c.
Proof. destruct c as [[] [] [] [] [] [] [] []]; vm_compute; reflexivity. Qed.

Lemma percent_digits_uri_bytes (c : ascii) (encodeSlash : bool) :
  Util.all_bytes (Util.uri_byte encodeSlash) (Util.Sprintf_pct_02X (Util.byte_val c)) = true.
Proof.
  destruct c as [[] [] [] [] [] [] [] []], encodeSlash; vm_compute; reflexivity.
Qed.

Lemma URIEncode_decode (uri : string) (encodeSlash : bool) :
  Util.percent_decode (Util.URIEncode uri encodeSlash) = uri.
Proof.
  induction uri as [|c rest IH]; [done|].
  cbn [Util.URIEncode].
  destruct (Util.unreserved (Util.byte_val c) encodeSlash) eqn:Hk.
  - cbn [Util.percent_decode]. rewrite (kept_not_percent c encodeSlash Hk).
    by rewrite IH.
  - unfold Util.Sprintf_pct_02X. cbn [String.append Util.percent_decode].
    rewrite Ascii.eqb_refl, percent_digits_decode. by rewrite IH.
Qed.

Lemma URIEncode_app (a b : string) (encodeSlash : bool) :
  Util.URIEncode (a ++ b) encodeSlash
  = (Util.URIEncode a encodeSlash ++ Util.URIEncode b encodeSlash)%string.
Proof.
  induction a as [|c rest IH]; [done|].
  cbn [String.append Util.URIEncode]. rewrite IH.
  destruct (Util.unreserved (Util.byte_val c) encodeSlash); [done|].
  unfold Util.Sprintf_pct_02X. by cbn [String.append].
Qed.

Lemma URIEncode_length (uri : string) (encodeSlash : bool) :
  (String.length uri <= String.length (Util.URIEncode uri encodeSlash)
   <= 3 * String.length uri)%nat.
Proof.
  induction uri as [|c rest IH]; [cbn; lia|].
  cbn [Util.URIEncode].
  destruct (Util.unreserved (Util.byte_val c) encodeSlash).
  - cbn [String.length]. lia.
  - unfold Util.Sprintf_pct_02X. cbn [String.append String.length]. lia.
Qed.

(** X12: URIEncode loses nothing: reading the percent escapes back gives
    the string that was encoded, so two strings with the same encoding are
    the same string; and the encoding of a concatenation is the
    concatenation of the encodings. *)
Theorem URIEncode_round_trip (uri : string) (encodeSlash : bool) :
  Util.percent_decode (Util.URIEncode uri encodeSlash) = uri
  ∧ (∀ uri2 : string,
       Util.URIEncode uri encodeSlash = Util.URIEncode uri2 encodeSlash ↔ uri = uri2)
  ∧ (∀ uri2 : string,
       Util.URIEncode (uri ++ uri2) encodeSlash
       = (Util.URIEncode uri encodeSlash ++ Util.URIEncode uri2 encodeSlash)%string).
Proof.
  split; [apply URIEncode_decode|]. split.
  - intros uri2. split; [|by intros ->].
    intros Heq. rewrite <- (URIEncode_decode uri encodeSlash), Heq.
    apply URIEncode_decode.
  - intros uri2. apply URIEncode_app.
Qed.

(** X13: the output of URIEncode is made of the bytes it keeps (letters,
    digits, - _ . ~ and, unless encodeSlash, the slash) and the percent
    sign; it has at least as many bytes as the input and at most three
    times as many; and it is the input itself exactly when every byte of
    the input is one it keeps. *)
Theorem URIEncode_alphabet (uri : string) (encodeSlash : bool) :
  Util.all_bytes (Util.uri_byte encodeSlash) (Util.URIEncode uri encodeSlash) = true
  ∧ (String.length uri <= String.length (Util.URIEncode uri encodeSlash)
     <= 3 * String.length uri)%nat
  ∧ (Util.URIEncode uri encodeSlash = uri
     ↔ Util.all_bytes (Util.kept encodeSlash) uri = true).
Proof.
  split; [|split; [apply URIEncode_length|]].
  - induction uri as [|c rest IH]; [done|].
    cbn [Util.URIEncode].
    destruct (Util.unreserved (Util.byte_val c) encodeSlash) eqn:Hk.
    + cbn [Util.all_bytes]. rewrite IH. unfold Util.uri_byte. by rewrite Hk.
    + pose proof (percent_digits_uri_bytes c encodeSlash) as Hp.
      unfold Util.Sprintf_pct_02X in *. cbn [String.append Util.all_bytes] in *.
      rewrite IH. repeat (apply andb_prop in Hp as [? Hp]).
      by repeat (apply andb_true_intro; split).
  - induction uri as [|c rest IH]; [done|].
    cbn [Util.URIEncode Util.all_bytes]. unfold Util.kept at 1.
    destruct (Util.unreserved (Util.byte_val c) encodeSlash) eqn:Hk.
    + cbn [andb]. rewrite <- IH. split; [by intros [= ->] | by intros ->].
    + cbn [andb]. split; [|done]. intros Heq.
      apply (f_equal String.length) in Heq.
      unfold Util.Sprintf_pct_02X in Heq. cbn [String.append String.length] in Heq.
      pose proof (URIEncode_length rest encodeSlash). lia.
Qed.

(** ** NewUUID *)

(** A property of bytes that holds for the values 0..255 holds for every
    byte. *)
Lemma byte_cases (P : Z → bool) :
  forallb P (Z.of_nat <$> seq 0 256) = true → ∀ b : Z, Util.is_byte b → P b = true.
Proof.
  intros Hall b [H0 H1]. rewrite forallb_forall in Hall. apply Hall.
  apply in_map_iff. exists (Z.to_nat b). split; [lia|].
  apply in_seq. lia.
Qed.

Lemma NewUUID_16 (b0 b1 b2 b3 b4 b5 b6 b7 b8 b9 b10 b11 b12 b13 b14 b15 : Z) :
  Util.NewUUID [b0; b1; b2; b3; b4; b5; b6; b7; b8; b9; b10; b11; b12; b13; b14; b15]
  = (Util.hex_Encode [b0; b1; b2; b3] ++ "-"
     ++ Util.hex_Encode [b4; b5] ++ "-"
     ++ Util.hex_Encode [Z.lor (Z.land b6 15) 64; b7] ++ "-"
     ++ Util.hex_Encode [Z.lor (Z.land b8 191) 128; b9] ++ "-"
     ++ Util.hex_Encode [b10; b11; b12; b13; b14; b15])%string.
Proof. reflexivity. Qed.

Lemma sixteen (rnd : list Z) :
  length rnd = 16%nat →
  ∃ b0 b1 b2 b3 b4 b5 b6 b7 b8 b9 b10 b11 b12 b13 b14 b15 : Z,
    rnd = [b0; b1; b2; b3; b4; b5; b6; b7; b8; b9; b10; b11; b12; b13; b14; b15].
Proof.
  intros Hlen.
  do 16 (destruct rnd as [|? rnd]; [discriminate Hlen|]).
  destruct rnd; [|discriminate Hlen]. by repeat eexists.
Qed.

Lemma hex_high_lower (b : Z) :
  Util.is_byte b → Util.is_lower_hex (Util.index Util.hextable (Z.shiftr b 4)) = true.
Proof.
  apply (byte_cases (λ b, Util.is_lower_hex (Util.index Util.hextable (Z.shiftr b 4)))).
  vm_compute; reflexivity.
Qed.

Lemma hex_low_lower (b : Z) :
  Util.is_byte b → Util.is_lower_hex (Util.index Util.hextable (Z.land b 15)) = true.
Proof.
  apply (byte_cases (λ b, Util.is_lower_hex (Util.index Util.hextable (Z.land b 15)))).
  vm_compute; reflexivity.
Qed.

Lemma version_digit (b : Z) :
  Util.is_byte b →
  Ascii.eqb (Util.index Util.hextable (Z.shiftr (Z.lor (Z.land b 15) 64) 4)) "4" = true.
Proof.
  apply (byte_cases (λ b,
    Ascii.eqb (Util.index Util.hextable (Z.shiftr (Z.lor (Z.land b 15) 64) 4)) "4")).
  vm_compute; reflexivity.
Qed.

Lemma version_low_lower (b : Z) :
  Util.is_byte b →
  Util.is_lower_hex (Util.index Util.hextable (Z.land (Z.lor (Z.land b 15) 64) 15)) = true.
Proof.
  apply (byte_cases (λ b,
    Util.is_lower_hex (Util.index Util.hextable (Z.land (Z.lor (Z.land b 15) 64) 15)))).
  vm_compute; reflexivity.
Qed.

Lemma variant_digit (b : Z) :
  Util.is_byte b →
  existsb (Ascii.eqb (Util.index Util.hextable (Z.shiftr (Z.lor (Z.land b 191) 128) 4)))
    ["8"; "9"; "a"; "b"]%char = true.
Proof.
  apply (byte_cases (λ b,
    existsb (Ascii.eqb (Util.index Util.hextable (Z.shiftr (Z.lor (Z.land b 191) 128) 4)))
      ["8"; "9"; "a"; "b"]%char)).
  vm_compute; reflexivity.
Qed.

Lemma variant_low_lower (b : Z) :
  Util.is_byte b →
  Util.is_lower_hex (Util.index Util.hextable (Z.land (Z.lor (Z.land b 191) 128) 15)) = true.
Proof.
  apply (byte_cases (λ b,
    Util.is_lower_hex (Util.index Util.hextable (Z.land (Z.lor (Z.land b 191) 128) 15)))).
  vm_compute; reflexivity.
Qed.

Lemma variant_digit_in (b : Z) :
  Util.is_byte b →
  Util.index Util.hextable (Z.shiftr (Z.lor (Z.land b 191) 128) 4)
    ∈ ["8"; "9"; "a"; "b"]%char.
Proof.
  intros Hb. pose proof (variant_digit b Hb) as He.
  apply existsb_exists in He as (x & Hin & Heq).
  apply Ascii.eqb_eq in Heq as ->. by apply list_elem_of_In.
Qed.

(** Decides the tests on a position that is a numeral. *)
Ltac decide_position :=
  repeat match goal with
         | |- context [bool_decide ?P] =>
             let v := eval vm_compute in (bool_decide P) in
             change (bool_decide P) with v; cbv iota
         end.

(** X14: on 16 random bytes NewUUID gives the text of a version 4 UUID:
    36 bytes, dashes at 8, 13, 18 and 23, the version digit 4 at 14, the
    variant digit 8, 9, a or b at 19, and lower-case hexadecimal digits
    everywhere else. *)
Theorem NewUUID_version4 (rnd : list Z) :
  length rnd = 16%nat → Forall Util.is_byte rnd → Util.uuid_v4_text (Util.NewUUID rnd).
Proof.
  intros Hlen Hall.
  destruct (sixteen rnd Hlen)
    as (b0 & b1 & b2 & b3 & b4 & b5 & b6 & b7 & b8 & b9 & b10 & b11 & b12 & b13 & b14 & b15
        & ->).
  repeat (apply Forall_cons in Hall as [? Hall]).
  rewrite NewUUID_16. cbn [Util.hex_Encode String.append].
  split; [reflexivity|].
  intros i c Hget.
  do 36 (destruct i as [|i];
         [ cbn [String.get] in Hget; injection Hget as <-; decide_position;
           first [ reflexivity
                 | by apply hex_high_lower
                 | by apply hex_low_lower
                 | by apply Ascii.eqb_eq, version_digit
                 | by apply version_low_lower
                 | by apply variant_digit_in
                 | by apply variant_low_lower ]
         | ]).
  cbn [String.get] in Hget. discriminate Hget.
Qed.

Lemma NewUUID_version4_witness : Util.uuid_v4_text (Util.NewUUID Util.sample_bytes).
Proof.
  apply (NewUUID_version4 Util.sample_bytes).
  - reflexivity.
  - unfold Util.sample_bytes, Util.is_byte. repeat (apply Forall_cons; split; [lia|]).
    apply Forall_nil_2.
Defined.

Lemma byte_pair_cases (P : Z → Z → bool) :
  forallb (λ b, forallb (P b) (Z.of_nat <$> seq 0 256)) (Z.of_nat <$> seq 0 256) = true →
  ∀ b b' : Z, Util.is_byte b → Util.is_byte b' → P b b' = true.
Proof.
  intros Hall b b' Hb Hb'.
  pose proof (byte_cases (λ b, forallb (P b) (Z.of_nat <$> seq 0 256)) Hall b Hb) as Hrow.
  by apply (byte_cases (P b) Hrow).
Qed.

(** The two digits hex.Encode writes for a byte tell the byte. *)
Lemma hex_pair_inj (b b' : Z) :
  Util.is_byte b → Util.is_byte b' →
  Util.index Util.hextable (Z.shiftr b 4) = Util.index Util.hextable (Z.shiftr b' 4) →
  Util.index Util.hextable (Z.land b 15) = Util.index Util.hextable (Z.land b' 15) →
  b = b'.
Proof.
  intros Hb Hb' Hhi Hlo.
  pose proof (byte_pair_cases (λ b b',
    implb (Ascii.eqb (Util.index Util.hextable (Z.shiftr b 4))
             (Util.index Util.hextable (Z.shiftr b' 4))
           && Ascii.eqb (Util.index Util.hextable (Z.land b 15))
                (Util.index Util.hextable (Z.land b' 15)))
      (b =? b')) ltac:(vm_compute; reflexivity) b b' Hb Hb') as Himp.
  cbv beta in Himp. rewrite Hhi, Hlo, !Ascii.eqb_refl in Himp. cbn [andb implb] in Himp.
  by apply Z.eqb_eq.
Qed.

Lemma version_low_inj (b b' : Z) :
  Util.is_byte b → Util.is_byte b' →
  Util.index Util.hextable (Z.land (Z.lor (Z.land b 15) 64) 15)
  = Util.index Util.hextable (Z.land (Z.lor (Z.land b' 15) 64) 15) →
  Z.land b 15 = Z.land b' 15.
Proof.
  intros Hb Hb' Hlo.
  pose proof (byte_pair_cases (λ b b',
    implb (Ascii.eqb (Util.index Util.hextable (Z.land (Z.lor (Z.land b 15) 64) 15))
             (Util.index Util.hextable (Z.land (Z.lor (Z.land b' 15) 64) 15)))
      (Z.land b 15 =? Z.land b' 15)) ltac:(vm_compute; reflexivity) b b' Hb Hb') as Himp.
  cbv beta in Himp. rewrite Hlo, Ascii.eqb_refl in Himp. cbn [implb] in Himp.
  by apply Z.eqb_eq.
Qed.

Lemma variant_pair_inj (b b' : Z) :
  Util.is_byte b → Util.is_byte b' →
  Util.index Util.hextable (Z.shiftr (Z.lor (Z.land b 191) 128) 4)
  = Util.index Util.hextable (Z.shiftr (Z.lor (Z.land b' 191) 128) 4) →
  Util.index Util.hextable (Z.land (Z.lor (Z.land b 191) 128) 15)
  = Util.index Util.hextable (Z.land (Z.lor (Z.land b' 191) 128) 15) →
  Z.land b 63 = Z.land b' 63.
Proof.
  intros Hb Hb' Hhi Hlo.
  pose proof (byte_pair_cases (λ b b',
    implb (Ascii.eqb (Util.index Util.hextable (Z.shiftr (Z.lor (Z.land b 191) 128) 4))
             (Util.index Util.hextable (Z.shiftr (Z.lor (Z.land b' 191) 128) 4))
           && Ascii.eqb (Util.index Util.hextable (Z.land (Z.lor (Z.land b 191) 128) 15))
                (Util.index Util.hextable (Z.land (Z.lor (Z.land b' 191) 128) 15)))
      (Z.land b 63 =? Z.land b' 63)) ltac:(vm_compute; reflexivity) b b' Hb Hb') as Himp.
  cbv beta in Himp. rewrite Hhi, Hlo, !Ascii.eqb_refl in Himp. cbn [andb implb] in Himp.
  by apply Z.eqb_eq.
Qed.

Lemma variant_free (b : Z) :
  Util.is_byte b → Z.lor (Z.land b 191) 128 = Z.lor (Z.land b 63) 128.
Proof.
  intros Hb. apply Z.eqb_eq.
  by apply (byte_cases (λ b, Z.lor (Z.land b 191) 128 =? Z.lor (Z.land b 63) 128)).
Qed.

(** X15: NewUUID keeps every random bit it does not overwrite: on 16-byte
    inputs two results are the same text exactly when the inputs agree on
    all bits but the high half of byte 6 and the two high bits of byte 8
    (122 bits in all). *)
Theorem NewUUID_free_bits (r1 r2 : list Z) :
  length r1 = 16%nat → length r2 = 16%nat →
  Forall Util.is_byte r1 → Forall Util.is_byte r2 →
  (Util.NewUUID r1 = Util.NewUUID r2 ↔ Util.free_bits r1 = Util.free_bits r2).
Proof.
  intros Hl1 Hl2 Ha1 Ha2.
  destruct (sixteen r1 Hl1)
    as (b0 & b1 & b2 & b3 & b4 & b5 & b6 & b7 & b8 & b9 & b10 & b11 & b12 & b13 & b14 & b15
        & ->).
  destruct (sixteen r2 Hl2)
    as (c0 & c1 & c2 & c3 & c4 & c5 & c6 & c7 & c8 & c9 & c10 & c11 & c12 & c13 & c14 & c15
        & ->).
  repeat (apply Forall_cons in Ha1 as [? Ha1]).
  repeat (apply Forall_cons in Ha2 as [? Ha2]).
  rewrite !NewUUID_16.
  change (Util.free_bits [b0; b1; b2; b3; b4; b5; b6; b7; b8; b9; b10; b11; b12; b13; b14; b15])
    with [b0; b1; b2; b3; b4; b5; Z.land b6 15; b7; Z.land b8 63; b9; b10; b11; b12; b13;
          b14; b15].
  change (Util.free_bits [c0; c1; c2; c3; c4; c5; c6; c7; c8; c9; c10; c11; c12; c13; c14; c15])
    with [c0; c1; c2; c3; c4; c5; Z.land c6 15; c7; Z.land c8 63; c9; c10; c11; c12; c13;
          c14; c15].
  cbn [Util.hex_Encode String.append].
  split.
  - intros Heq. injection Heq; intros.
    assert (b0 = c0) by eauto using hex_pair_inj.
    assert (b1 = c1) by eauto using hex_pair_inj.
    assert (b2 = c2) by eauto using hex_pair_inj.
    assert (b3 = c3) by eauto using hex_pair_inj.
    assert (b4 = c4) by eauto using hex_pair_inj.
    assert (b5 = c5) by eauto using hex_pair_inj.
    assert (Z.land b6 15 = Z.land c6 15) by eauto using version_low_inj.
    assert (b7 = c7) by eauto using hex_pair_inj.
    assert (Z.land b8 63 = Z.land c8 63) by eauto using variant_pair_inj.
    assert (b9 = c9) by eauto using hex_pair_inj.
    assert (b10 = c10) by eauto using hex_pair_inj.
    assert (b11 = c11) by eauto using hex_pair_inj.
    assert (b12 = c12) by eauto using hex_pair_inj.
    assert (b13 = c13) by eauto using hex_pair_inj.
    assert (b14 = c14) by eauto using hex_pair_inj.
    assert (b15 = c15) by eauto using hex_pair_inj.
    congruence.
  - intros Heq. injection Heq as -> -> -> -> -> -> E6 -> E8 -> -> -> -> -> -> ->.
    rewrite (variant_free b8), (variant_free c8) by done.
    by rewrite E6, E8.
Qed.

Lemma NewUUID_free_bits_witness :
  Util.NewUUID Util.sample_bytes
    = Util.NewUUID [0; 17; 34; 51; 68; 85; 15; 119; 63; 153; 170; 187; 204; 221; 238; 255]
  ↔ Util.free_bits Util.sample_bytes
    = Util.free_bits [0; 17; 34; 51; 68; 85; 15; 119; 63; 153; 170; 187; 204; 221; 238; 255].
Proof.
  apply (NewUUID_free_bits Util.sample_bytes
           [0; 17; 34; 51; 68; 85; 15; 119; 63; 153; 170; 187; 204; 221; 238; 255]).
  - reflexivity.
  - reflexivity.
  - unfold Util.sample_bytes, Util.is_byte. repeat (apply Forall_cons; split; [lia|]).
    apply Forall_nil_2.
  - unfold Util.is_byte. repeat (apply Forall_cons; split; [lia|]).
    apply Forall_nil_2.
Defined.

(** * Building a client *)

Lemma in_force_positive (option default : Z) :
  0 <= option → 0 < default → 0 < Mochow.in_force option default.
Proof. unfold Mochow.in_force. destruct (Z.gtb_spec option 0); lia. Qed.

(** X16: NewClientWithConfig makes a client exactly from the
    configurations with an account, an API key and an endpoint, timeouts
    that are not negative and a connection timeout in force (the option,
    or 10000 when it is 0) below the request timeout in force (the option,
    or 60000).  The client made has these credentials and timeouts, so a
    positive connection timeout below its request timeout, and the HTTP
    package is initialised with what the configuration asks; a refusal
    leaves the HTTP package as it was and carries one of three messages,
    never one of NewBceCredentials. *)
Theorem NewClientWithConfig_outcome (rt : Bce.runtime) (config : Mochow.ClientConfiguration)
    (g : Http.globals) :
  match Mochow.NewClientWithConfig rt config g with
  | (Ok c, g') =>
      let conf := Bce.Config (Mochow.BceClient c) in
      Mochow.acceptable config = true
      ∧ Bce.Credentials conf
        = Auth.mkBceCredentials (Mochow.Account config) (Mochow.APIKey config)
      ∧ Bce.Endpoint conf = Mochow.Endpoint config
      ∧ Bce.ConnectionTimeoutInMillis conf
        = Mochow.in_force (Mochow.ConnectionTimeoutMS config) 10000
      ∧ Bce.RequestTimeoutInMillis conf
        = Mochow.in_force (Mochow.RequestTimeoutMS config) 60000
      ∧ 0 < Bce.ConnectionTimeoutInMillis conf < Bce.RequestTimeoutInMillis conf
      ∧ g' = Http.InitClient (Mochow.asked config) g
  | (Err msg, g') =>
      Mochow.acceptable config = false ∧ msg ∈ Mochow.refusals ∧ g' = g
  end.
Proof.
  destruct config as [account apiKey endpoint redirect ct rt_ms retry].
  unfold Mochow.NewClientWithConfig, Mochow.acceptable, Auth.NewBceCredentials, Mochow.asked.
  cbn [Mochow.Account Mochow.APIKey Mochow.Endpoint Mochow.RedirectDisabled
       Mochow.ConnectionTimeoutMS Mochow.RequestTimeoutMS Mochow.MaxRetry].
  destruct (len_is_0 account); cbn [orb negb andb];
    [split; [done | split; [set_solver | done]]|].
  destruct (len_is_0 apiKey); cbn [orb negb andb];
    [split; [done | split; [set_solver | done]]|].
  destruct (len_is_0 endpoint); cbn [orb negb andb];
    [split; [done | split; [set_solver | done]]|].
  destruct (Z.ltb_spec ct 0) as [Hct | Hct]; cbn [orb].
  { rewrite (proj2 (Z.leb_gt _ _) Hct). split; [done | split; [set_solver | done]]. }
  destruct (Z.ltb_spec rt_ms 0) as [Hrt | Hrt]; cbn [orb].
  { rewrite (proj2 (Z.leb_gt _ _) Hrt), andb_false_r.
    split; [done | split; [set_solver | done]]. }
  rewrite (proj2 (Z.leb_le _ _) Hct), (proj2 (Z.leb_le _ _) Hrt). cbn [andb].
  fold (Mochow.in_force ct Bce.DefaultConnectionTimeoutInMills).
  fold (Mochow.in_force rt_ms Bce.DefaultRequestTimeoutInMills).
  change Bce.DefaultConnectionTimeoutInMills with 10000.
  change Bce.DefaultRequestTimeoutInMills with 60000.
  pose proof (in_force_positive ct 10000 Hct ltac:(lia)) as Hpos.
  destruct (Z.leb_spec (Mochow.in_force rt_ms 60000) (Mochow.in_force ct 10000)) as [Hle | Hlt].
  { rewrite (proj2 (Z.ltb_ge _ _) Hle). split; [done | split; [set_solver | done]]. }
  rewrite (proj2 (Z.ltb_lt _ _) Hlt).
  cbn [Bce.NewBceClient Mochow.BceClient Bce.Config Bce.Credentials Bce.Endpoint
       Bce.ConnectionTimeoutInMillis Bce.RequestTimeoutInMillis Bce.RedirectDisabled].
  repeat split; done || lia.
Qed.

Lemma NewClientWithConfig_globals (rt : Bce.runtime) (config : Mochow.ClientConfiguration)
    (g : Http.globals) :
  snd (Mochow.NewClientWithConfig rt config g)
  = if Mochow.acceptable config then Http.InitClient (Mochow.asked config) g else g.
Proof.
  destruct config as [account apiKey endpoint redirect ct rt_ms retry].
  unfold Mochow.NewClientWithConfig, Mochow.acceptable, Auth.NewBceCredentials, Mochow.asked.
  cbn [Mochow.Account Mochow.APIKey Mochow.Endpoint Mochow.RedirectDisabled
       Mochow.ConnectionTimeoutMS Mochow.RequestTimeoutMS Mochow.MaxRetry].
  destruct (len_is_0 account); cbn [orb negb andb]; [done|].
  destruct (len_is_0 apiKey); cbn [orb negb andb]; [done|].
  destruct (len_is_0 endpoint); cbn [orb negb andb]; [done|].
  destruct (Z.ltb_spec ct 0) as [Hct | Hct]; cbn [orb].
  { by rewrite (proj2 (Z.leb_gt _ _) Hct). }
  destruct (Z.ltb_spec rt_ms 0) as [Hrt | Hrt]; cbn [orb].
  { by rewrite (proj2 (Z.leb_gt _ _) Hrt), andb_false_r. }
  rewrite (proj2 (Z.leb_le _ _) Hct), (proj2 (Z.leb_le _ _) Hrt). cbn [andb].
  fold (Mochow.in_force ct Bce.DefaultConnectionTimeoutInMills).
  fold (Mochow.in_force rt_ms Bce.DefaultRequestTimeoutInMills).
  change Bce.DefaultConnectionTimeoutInMills with 10000.
  change Bce.DefaultRequestTimeoutInMills with 60000.
  destruct (Z.leb_spec (Mochow.in_force rt_ms 60000) (Mochow.in_force ct 10000)) as [Hle | Hlt].
  { by rewrite (proj2 (Z.ltb_ge _ _) Hle). }
  by rewrite (proj2 (Z.ltb_lt _ _) Hlt).
Qed.

Lemma build_all_initialised (rt : Bce.runtime) (configs : list Mochow.ClientConfiguration)
    (h : Http.ClientConfig) :
  Mochow.build_all rt configs (Some h) = Some h.
Proof.
  induction configs as [|config configs IH]; [done|].
  unfold Mochow.build_all in *. cbn [foldl].
  rewrite NewClientWithConfig_globals.
  by destruct (Mochow.acceptable config).
Qed.

(** X17: the HTTP transport belongs to the first client.  Of any series of
    NewClientWithConfig calls, the package variables of http are made from
    what the first configuration that is accepted asks (its redirect
    switch and its connection timeout in force), whatever the later ones
    ask; and once they are made no call changes them. *)
Theorem transport_of_first_client (rt : Bce.runtime)
    (configs : list Mochow.ClientConfiguration) :
  Mochow.build_all rt configs None = Mochow.asked <$> find Mochow.acceptable configs
  ∧ ∀ h : Http.ClientConfig, Mochow.build_all rt configs (Some h) = Some h.
Proof.
  split; [|apply build_all_initialised].
  induction configs as [|config configs IH]; [done|].
  cbn [find]. unfold Mochow.build_all in *. cbn [foldl].
  rewrite NewClientWithConfig_globals.
  destruct (Mochow.acceptable config); [|exact IH].
  cbn [Http.InitClient fmap option_fmap option_map].
  apply (build_all_initialised rt configs).
Qed.

(** * Sending a request *)

Lemma send_loop_spec (ShouldRetry : Sender.error → Z → bool) (Execute : nat → Sender.executed)
    (n : nat) :
  Sender.gives_up_at ShouldRetry n →
  ∀ (fuel k : nat),
    (n < fuel + k)%nat →
    (∀ j : nat, (j < k)%nat → Sender.retried ShouldRetry Execute j = true) →
    ∃ (res : option Sender.error) (calls : nat),
      Sender.send_loop ShouldRetry Execute fuel (Z.of_nat k) k = Some (res, S calls)
      ∧ (k <= calls)%nat ∧ (calls <= Nat.max n k)%nat
      ∧ (∀ j : nat, (j < calls)%nat → Sender.retried ShouldRetry Execute j = true)
      ∧ Sender.settles ShouldRetry Execute calls res.
Proof.
  intros Hgive. induction fuel as [|fuel IH]; intros k Hfuel Hbefore.
  - (* no fuel: the policy has given up at k, but the loop is not entered *)
    exfalso. cbn in Hfuel.
    assert (Hk : (n < k)%nat) by lia.
    specialize (Hbefore n Hk). unfold Sender.retried in Hbefore.
    destruct (Execute n) as [text | status svc].
    + rewrite Hgive in Hbefore by lia. discriminate.
    + rewrite Hgive in Hbefore by lia. by rewrite andb_false_r in Hbefore.
  - cbn [Sender.send_loop].
    assert (Hnext : ∀ b : bool,
              Sender.retried ShouldRetry Execute k = b → b = true →
              ∃ (res : option Sender.error) (calls : nat),
                Sender.send_loop ShouldRetry Execute fuel (Z.of_nat k + 1) (S k)
                  = Some (res, S calls)
                ∧ (k <= calls)%nat ∧ (calls <= Nat.max n k)%nat
                ∧ (∀ j : nat, (j < calls)%nat → Sender.retried ShouldRetry Execute j = true)
                ∧ Sender.settles ShouldRetry Execute calls res).
    { intros b Hb ->.
      assert (Hkn : (k < n)%nat).
      { destruct (decide (k < n)%nat) as [|Hge]; [done|]. exfalso.
        unfold Sender.retried in Hb. destruct (Execute k).
        - rewrite Hgive in Hb by lia. discriminate.
        - rewrite Hgive in Hb by lia. by rewrite andb_false_r in Hb. }
      replace (Z.of_nat k + 1) with (Z.of_nat (S k)) by lia.
      destruct (IH (S k)) as (res & calls & Hrun & Hlo & Hhi & Hall & Hset).
      - lia.
      - intros j Hj. destruct (decide (j = k)) as [-> | Hne]; [done|].
        apply Hbefore. lia.
      - exists res, calls. repeat split; [done | lia | lia | done | done]. }
    unfold Sender.retried in Hnext.
    destruct (Execute k) as [text | status svc] eqn:Hex.
    + destruct (ShouldRetry (Sender.TransportError text) (Z.of_nat k)) eqn:Hsr.
      * by apply (Hnext true).
      * exists (Some (Sender.ClientError
                        ("execute http request failed! Retried "
                         ++ Decimal.itoa (Z.of_nat k) ++ " times, error: " ++ text)%string)), k.
        repeat split; [lia | lia | done |].
        unfold Sender.settles. by rewrite Hex, Hsr.
    + destruct (Sender.IsFail status) eqn:Hfail.
      * destruct (ShouldRetry (Sender.ServiceError svc) (Z.of_nat k)) eqn:Hsr.
        -- by apply (Hnext true).
        -- exists (Some (Sender.ServiceError svc)), k.
           repeat split; [lia | lia | done |].
           unfold Sender.settles. by rewrite Hex, Hfail, Hsr.
      * exists None, k. repeat split; [lia | lia | done |].
        unfold Sender.settles. by rewrite Hex, Hfail.
Qed.

(** X18: SendRequest under a retry policy that gives up once n retries are
    made returns after at most n + 1 calls of http.Execute.  Every call
    but the last failed and was retried with the policy's consent; the
    last one settles the result: nil for a response with a status below
    400, the service error for a failing response, and a client error
    telling the number of retries for an error of http.Execute.  A request
    that carries a client error is answered with it and nothing is
    sent. *)
Theorem SendRequest_bounded (ShouldRetry : Sender.error → Z → bool)
    (Execute : nat → Sender.executed) (n fuel : nat) :
  Sender.gives_up_at ShouldRetry n →
  (n < fuel)%nat →
  (∃ (res : option Sender.error) (last : nat),
     Sender.SendRequest ShouldRetry Execute None fuel = Some (res, S last)
     ∧ (last <= n)%nat
     ∧ (∀ j : nat, (j < last)%nat → Sender.retried ShouldRetry Execute j = true)
     ∧ Sender.settles ShouldRetry Execute last res)
  ∧ ∀ msg : string,
      Sender.SendRequest ShouldRetry Execute (Some msg) fuel
      = Some (Some (Sender.ClientError msg), O).
Proof.
  intros Hgive Hfuel. split; [|done].
  destruct (send_loop_spec ShouldRetry Execute n Hgive fuel O)
    as (res & calls & Hrun & _ & Hhi & Hall & Hset); [lia | intros j Hj; lia |].
  exists res, calls. repeat split; [exact Hrun | lia | exact Hall | exact Hset].
Qed.

Lemma SendRequest_bounded_witness :
  (∃ (res : option Sender.error) (last : nat),
     Sender.SendRequest Sender.three_retries Sender.third_time_lucky None 4 = Some (res, S last)
     ∧ (last <= 3)%nat
     ∧ (∀ j : nat, (j < last)%nat →
          Sender.retried Sender.three_retries Sender.third_time_lucky j = true)
     ∧ Sender.settles Sender.three_retries Sender.third_time_lucky last res)
  ∧ ∀ msg : string,
      Sender.SendRequest Sender.three_retries Sender.third_time_lucky (Some msg) 4
      = Some (Some (Sender.ClientError msg), O).
Proof.
  apply (SendRequest_bounded Sender.three_retries Sender.third_time_lucky 3 4).
  - intros e r Hr. unfold Sender.three_retries. apply Z.ltb_ge. lia.
  - lia.
Defined.
